(** * math-mcp-learning-server: the calculator service of [math_mcp/server.py]

    A shallow embedding of the server's operations ([safe_eval_expression],
    [convert_temperature], [calculate], [statistics], [compound_interest],
    [convert_units], [get_math_constant], [get_calculation_history], the
    prompts [math_tutor] and [formula_explainer], and [main]) together with
    the part of the Python runtime they rest on, and the properties of the
    service proved on it.

    Layout:
    - [Py]           exceptions, results, [str] methods;
    - [F64]          Python's [float], IEEE 754 binary64;
    - [PyEval]       the expression language accepted by the builtin [eval]
                     on the alphabet that the server's character filter lets
                     through;
    - [Server]       the functions of [server.py];
    - [Conformance]  what is asked of an interpreter, and a reference one;
    - the properties. *)

From Stdlib Require Import ZArith QArith Qfield Qabs Qpower Lqa Lia Bool Ascii String List Permutation.
From Stdlib Require Import DecimalString.
From Stdlib Require Import SpecFloat.
From stdpp Require Import base option list gmap strings.

Local Open Scope string_scope.
Local Open Scope Z_scope.

(* ===================================================================== *)
(** * The Python runtime the server runs on                               *)
(* ===================================================================== *)

Module Py.

(** ** Exceptions and results *)

(** The exception classes that the modelled code can meet.  All of them
    derive from [Exception]. *)
Inductive exn_kind : Set :=
  | ValueError
  | TypeError
  | NameError
  | AttributeError
  | SyntaxError
  | ZeroDivisionError
  | OverflowError
  | StatisticsError.

(** An exception object: its class and [str(e)]. *)
Inductive exn : Set := Exn (k : exn_kind) (msg : string).

Definition exn_class (e : exn) : exn_kind := let 'Exn k _ := e in k.
Definition exn_str (e : exn) : string := let 'Exn _ m := e in m.

(** A call either returns or raises. *)
Inductive result (A : Type) : Type :=
  | Ok (a : A)
  | Raise (e : exn).
Arguments Ok {A} a.
Arguments Raise {A} e.

(** Sequencing: an exception raised by the first call propagates.  The
    instances give [result] stdpp's [x ← r; k] notation. *)
#[export] Instance result_ret : MRet result := fun A a => Ok a.
#[export] Instance result_bind : MBind result := fun A B k r =>
  match r with
  | Ok a => k a
  | Raise e => Raise e
  end.

(** [raises k r]: the call raised an exception of class [k]. *)
Definition raises {A} (k : exn_kind) (r : result A) : Prop :=
  exists msg, r = Raise (Exn k msg).

(** ** [str] *)

Definition ascii_in (lo hi : nat) (c : ascii) : bool :=
  let n := nat_of_ascii c in (lo <=? n)%nat && (n <=? hi)%nat.

Definition is_digit (c : ascii) : bool := ascii_in 48 57 c.
Definition is_upper (c : ascii) : bool := ascii_in 65 90 c.
Definition is_lower (c : ascii) : bool := ascii_in 97 122 c.

(** A [str] is modelled by its UTF-8 encoding: an ASCII character is one
    byte below 128, any other character a lead byte followed by
    continuation bytes. *)
Definition is_ascii_char (c : ascii) : bool := (nat_of_ascii c <? 128)%nat.

Definition is_continuation (c : ascii) : bool := ascii_in 128 191 c.

(** [c.isalpha()] for an ASCII character.  For the other characters
    [str.isalpha] consults the Unicode database; they are the runtime's to
    judge (see [char_allowed]). *)
Definition isalpha (c : ascii) : bool := is_upper c || is_lower c.

Definition lower_char (c : ascii) : ascii :=
  if is_upper c then ascii_of_nat (nat_of_ascii c + 32) else c.

(** [s.lower()] on the ASCII letters of [s]: the whole of [s.lower()] when
    [s] is ASCII (see [str_lower] for the rest). *)
Fixpoint lower (s : string) : string :=
  match s with
  | EmptyString => EmptyString
  | String c s' => String (lower_char c) (lower s')
  end.

(** [c in s] for a character. *)
Fixpoint mem_char (c : ascii) (s : string) : bool :=
  match s with
  | EmptyString => false
  | String d s' => Ascii.eqb c d || mem_char c s'
  end.

(** [all(p(c) for c in s)] and [any(...)]. *)
Fixpoint str_all (p : ascii -> bool) (s : string) : bool :=
  match s with
  | EmptyString => true
  | String c s' => p c && str_all p s'
  end.

Fixpoint str_any (p : ascii -> bool) (s : string) : bool :=
  match s with
  | EmptyString => false
  | String c s' => p c || str_any p s'
  end.

(** [s.isascii()]. *)
Definition isascii (s : string) : bool := str_all is_ascii_char s.

(** The characters of [s], as [for c in s] yields them, each by its
    bytes: an ASCII byte is a character of its own; any other byte takes
    the continuation bytes that follow it. *)
Fixpoint chars (s : string) : list string :=
  match s with
  | EmptyString => []
  | String c s' =>
      if is_ascii_char c then String c EmptyString :: chars s'
      else
        match chars s' with
        | String d g :: l =>
            if is_continuation d then String c (String d g) :: l
            else String c EmptyString :: String d g :: l
        | l => String c EmptyString :: l
        end
  end.

(** [s.startswith(p)]. *)
Fixpoint startswith (p s : string) : bool :=
  match p, s with
  | EmptyString, _ => true
  | String a p', String b s' => Ascii.eqb a b && startswith p' s'
  | String _ _, EmptyString => false
  end.

(** [p in s] for strings: some suffix of [s] starts with [p]. *)
Fixpoint contains (p s : string) : bool :=
  startswith p s ||
  match s with
  | EmptyString => false
  | String _ s' => contains p s'
  end.

(** [s.replace(old, new)]: the non-overlapping occurrences of [old], found
    from the left, are each replaced by [new].  [skip] counts the characters
    of a matched occurrence that are still to be dropped. *)
Fixpoint replace_from (old new : string) (skip : nat) (s : string) : string :=
  match s with
  | EmptyString => EmptyString
  | String c s' =>
      match skip with
      | S k => replace_from old new k s'
      | O =>
          if startswith old s
          then new ++ replace_from old new (Nat.pred (String.length old)) s'
          else String c (replace_from old new O s')
      end
  end.

(** With an empty [old] Python puts [new] before every character and at
    the end. *)
Fixpoint intersperse (new s : string) : string :=
  match s with
  | EmptyString => new
  | String c s' => new ++ String c (intersperse new s')
  end.

Definition replace (old new s : string) : string :=
  match old with
  | EmptyString => intersperse new s
  | String _ _ => replace_from old new O s
  end.

(** [str(n)] for a natural number. *)
Definition str_of_nat (n : nat) : string :=
  NilEmpty.string_of_uint (Nat.to_uint n).

End Py.

(* ===================================================================== *)
(** * Python's [float]: IEEE 754 binary64                                 *)
(* ===================================================================== *)

(** A [float] is a binary64 number, modelled by the Standard Library's
    specification of IEEE 754 arithmetic instantiated at 53 bits of
    precision: every operation rounds to nearest, ties to even, and the
    results below are bit for bit those of the hardware. *)
Module F64.

Definition prec : Z := 53.
Definition emax : Z := 1024.

Definition float : Set := spec_float.

Definition add : float -> float -> float := SFadd prec emax.
Definition sub : float -> float -> float := SFsub prec emax.
Definition mul : float -> float -> float := SFmul prec emax.
Definition div : float -> float -> float := SFdiv prec emax.
Definition sqrt : float -> float := SFsqrt prec emax.
Definition neg : float -> float := SFopp.
Definition fabs : float -> float := SFabs.

(** [x == y] (false as soon as one side is NaN). *)
Definition eqb : float -> float -> bool := SFeqb.

Definition pos_zero : float := S754_zero false.
Definition inf : float := S754_infinity false.
Definition nan : float := S754_nan.

Definition is_nan (x : float) : bool :=
  match x with S754_nan => true | _ => false end.

Definition is_inf (x : float) : bool :=
  match x with S754_infinity _ => true | _ => false end.

(** [math.isfinite(x)]. *)
Definition is_finite (x : float) : bool :=
  match x with
  | S754_zero _ | S754_finite _ _ _ => true
  | S754_infinity _ | S754_nan => false
  end.

Definition is_zero (x : float) : bool :=
  match x with S754_zero _ => true | _ => false end.

(** The integer [z], rounded; an infinity when [z] is out of range. *)
Definition of_Z (z : Z) : float := binary_normalize prec emax z 0 false.

(** The quotient [n / d] of two positive integers, rounded once (the
    division is carried far enough for the rounding to be exact), with
    sign [s]. *)
Definition of_ratio (s : bool) (n d : positive) : float :=
  let '(q, e, l) := SFdiv_core_binary prec emax (Zpos n) 0 (Zpos d) 0 in
  binary_round_aux prec emax s q e l.

(** The decimal [m * 10^e], rounded: the value of a literal such as
    [273.15] ([m = 27315], [e = -2]) or [1e2]. *)
Definition of_decimal (m e : Z) : float :=
  match m with
  | Z0 => pos_zero
  | Zpos p =>
      if 0 <=? e then of_Z (m * 10 ^ e)
      else of_ratio false p (Z.to_pos (10 ^ (- e)))
  | Zneg p =>
      if 0 <=? e then of_Z (m * 10 ^ e)
      else of_ratio true p (Z.to_pos (10 ^ (- e)))
  end.

(** [x < y] and [x <= y] (false as soon as one side is NaN). *)
Definition ltb : float -> float -> bool := SFltb.
Definition leb : float -> float -> bool := SFleb.

(** The floats that exist: a finite one has a mantissa of at most 53
    bits, normalised unless the exponent is the least one, and an
    exponent in range. *)
Definition valid (x : float) : bool := valid_binary prec emax x.

End F64.

(* ===================================================================== *)
(** * The builtin [eval] on the server's alphabet                         *)
(* ===================================================================== *)

(** [safe_eval_expression] hands its text to Python's [eval].  The filter
    in front of it lets through digits, [+ - * / . ( )] and letters, so the
    expressions that can reach [eval] are built from number literals,
    names, attribute references, calls with at most one argument, unary
    [+ -] and the binary operators [+ - * / // **].  This module models
    that language as CPython (3.10 and later, which the server's imports
    require) evaluates it, in the namespace the server passes:
    [{"__builtins__": {"abs": abs}, "math": math}].

    The model is partial on purpose.  What it does not cover (texts with
    characters that are not ASCII, keywords,
    other literal forms, attributes other than a few of [math], results of
    the C library that IEEE 754 does not fix, texts long enough to meet
    the interpreter's resource limits) is answered [Unmodelled], never
    guessed. *)
Module PyEval.
Import Py.

(** What the model says of an evaluation: a value, an exception of a
    given class, or nothing. *)
Inductive outcome (A : Type) : Type :=
  | Done (a : A)
  | Fails (k : exn_kind)
  | Unmodelled.
Arguments Done {A} a.
Arguments Fails {A} k.
Arguments Unmodelled {A}.

#[export] Instance outcome_ret : MRet outcome := fun A a => Done a.
#[export] Instance outcome_bind : MBind outcome := fun A B k o =>
  match o with
  | Done a => k a
  | Fails e => Fails e
  | Unmodelled => Unmodelled
  end.

(** ** Objects *)

(** The functions of [math] that the model knows. *)
Inductive math_fn : Set :=
  | MSin | MCos | MTan | MLog | MSqrt | MPow | MFabs
  | MSinh | MCosh | MTanh | MLog2 | MLog10.

(** The objects an evaluation can produce.  [POther] stands for any
    object outside the model; all that is known of it is what [float()]
    makes of it. *)
Inductive pyobj : Type :=
  | PInt (z : Z)
  | PFloat (x : F64.float)
  | PBuiltinAbs
  | PMathModule
  | PMathFn (f : math_fn)
  | POther (as_float : result F64.float).

(** [float(z)] for an [int]: [OverflowError] when [z] rounds out of range. *)
Definition float_of_int (z : Z) : result F64.float :=
  let x := F64.of_Z z in
  if F64.is_inf x then Raise (Exn OverflowError "int too large to convert to float")
  else Ok x.

(** [float(v)], the conversion that ends [safe_eval_expression]. *)
Definition float_of_obj (v : pyobj) : result F64.float :=
  match v with
  | PInt z => float_of_int z
  | PFloat x => Ok x
  | PBuiltinAbs | PMathFn _ =>
      Raise (Exn TypeError
        "float() argument must be a string or a real number, not 'builtin_function_or_method'")
  | PMathModule =>
      Raise (Exn TypeError
        "float() argument must be a string or a real number, not 'module'")
  | POther r => r
  end.

(** ** Tokens *)

Inductive number : Set :=
  | NInt (z : Z)
  | NFloat (x : F64.float).

Inductive binop : Set := Add | Sub | Mul | Div | FloorDiv | Pow.

Inductive token : Set :=
  | TNum (n : number)
  | TName (x : string)
  | TOp (o : binop)
  | TDot
  | TLParen
  | TRParen.

(** The longest prefix of [s] whose characters satisfy [p], and the rest. *)
Fixpoint span (p : ascii -> bool) (s : string) : string * string :=
  match s with
  | EmptyString => (EmptyString, EmptyString)
  | String c s' =>
      if p c then let '(a, b) := span p s' in (String c a, b)
      else (EmptyString, s)
  end.

Definition digit_value (c : ascii) : Z := Z.of_nat (nat_of_ascii c) - 48.

(** The integer written by a string of decimal digits. *)
Fixpoint decimal_from (acc : Z) (s : string) : Z :=
  match s with
  | EmptyString => acc
  | String c s' => decimal_from (10 * acc + digit_value c) s'
  end.

Definition decimal (s : string) : Z := decimal_from 0 s.

Definition is_name_char (c : ascii) : bool := isalpha c || is_digit c.

(** Python's reserved words: an identifier-shaped token that is one of
    them is not a name. *)
Definition keywords : list string :=
  [ "False"; "None"; "True"; "and"; "as"; "assert"; "async"; "await";
    "break"; "class"; "continue"; "def"; "del"; "elif"; "else"; "except";
    "finally"; "for"; "from"; "global"; "if"; "import"; "in"; "is";
    "lambda"; "nonlocal"; "not"; "or"; "pass"; "raise"; "return"; "try";
    "while"; "with"; "yield" ].

Definition is_keyword (x : string) : bool :=
  existsb (String.eqb x) keywords.

Definition starts_with_alpha (s : string) : bool :=
  match s with
  | String c _ => isalpha c
  | EmptyString => false
  end.

(** A number literal at the head of [s] (which starts with a digit, or
    with a point followed by a digit): digits, an optional fraction, an
    optional exponent.  A literal that runs into a letter (an imaginary
    [1j], a prefixed [0x1f], a dangling [1e]) is left to [Unmodelled]; a
    decimal integer with a leading zero is a syntax error unless it is
    zero. *)
Definition lex_number (s : string) : outcome (number * string) :=
  let '(ip, r1) := span is_digit s in
  let '(has_frac, fp, r2) :=
    match r1 with
    | String "."%char r => let '(fp, r2) := span is_digit r in (true, fp, r2)
    | _ => (false, EmptyString, r1)
    end in
  let '(has_exp, ex, r3) :=
    match r2 with
    | String c r =>
        if Ascii.eqb c "e" || Ascii.eqb c "E" then
          let '(negative, r') :=
            match r with
            | String "+"%char r' => (false, r')
            | String "-"%char r' => (true, r')
            | _ => (false, r)
            end in
          let '(ed, r'') := span is_digit r' in
          match ed with
          | EmptyString => (false, 0, r2)
          | String _ _ => (true, if negative then - decimal ed else decimal ed, r'')
          end
        else (false, 0, r2)
    | EmptyString => (false, 0, r2)
    end in
  if starts_with_alpha r3 then Unmodelled
  else if has_frac || has_exp then
    Done (NFloat (F64.of_decimal (decimal (ip ++ fp))
                                 (ex - Z.of_nat (String.length fp))), r3)
  else if startswith "0" ip && negb (decimal ip =? 0) then Fails SyntaxError
  else Done (NInt (decimal ip), r3).

(** The tokens of [s].  [fuel] bounds the number of tokens. *)
Fixpoint lex (fuel : nat) (s : string) : outcome (list token) :=
  match fuel with
  | O => Unmodelled
  | S fuel' =>
      match s with
      | EmptyString => Done []
      | String c s' =>
          if is_digit c then
            '(n, r) ← lex_number s; ts ← lex fuel' r; Done (TNum n :: ts)
          else if isalpha c then
            let '(x, r) := span is_name_char s in
            if is_keyword x then Unmodelled
            else ts ← lex fuel' r; Done (TName x :: ts)
          else if Ascii.eqb c "." then
            match s' with
            | String d _ =>
                if is_digit d then
                  '(n, r) ← lex_number s; ts ← lex fuel' r; Done (TNum n :: ts)
                else if startswith ".." s' then Unmodelled
                else ts ← lex fuel' s'; Done (TDot :: ts)
            | EmptyString => Done [TDot]
            end
          else if Ascii.eqb c "(" then ts ← lex fuel' s'; Done (TLParen :: ts)
          else if Ascii.eqb c ")" then ts ← lex fuel' s'; Done (TRParen :: ts)
          else if Ascii.eqb c "+" then ts ← lex fuel' s'; Done (TOp Add :: ts)
          else if Ascii.eqb c "-" then ts ← lex fuel' s'; Done (TOp Sub :: ts)
          else if Ascii.eqb c "*" then
            match s' with
            | String "*"%char s'' => ts ← lex fuel' s''; Done (TOp Pow :: ts)
            | _ => ts ← lex fuel' s'; Done (TOp Mul :: ts)
            end
          else if Ascii.eqb c "/" then
            match s' with
            | String "/"%char s'' => ts ← lex fuel' s''; Done (TOp FloorDiv :: ts)
            | _ => ts ← lex fuel' s'; Done (TOp Div :: ts)
            end
          else Unmodelled
      end
  end.

(** ** Syntax *)

Inductive unop : Set := UPlus | UMinus.

Inductive expr : Type :=
  | ENum (n : number)
  | EName (x : string)
  | EAttr (e : expr) (a : string)
  | ECall0 (f : expr)
  | ECall1 (f : expr) (arg : expr)
  | EUnary (o : unop) (e : expr)
  | EBin (o : binop) (l r : expr).

(** Python's expression grammar on these tokens, by recursive descent:
<<
   sum     ::= term (('+' | '-') term)*
   term    ::= factor (('*' | '/' | '//') factor)*
   factor  ::= ('+' | '-') factor | power
   power   ::= primary ['**' factor]
   primary ::= atom ('.' NAME | '(' [sum] ')')*
   atom    ::= NUMBER | NAME | '(' sum ')'
>>
    The empty tuple [()] and starred arguments [f( *x )] are Python too,
    and are left [Unmodelled]; so is an expression too deep for [fuel]. *)
Fixpoint parse_sum (fuel : nat) (ts : list token) : outcome (expr * list token) :=
  match fuel with
  | O => Unmodelled
  | S n => '(l, r) ← parse_term n ts; sum_rest n l r
  end
with sum_rest (fuel : nat) (l : expr) (ts : list token) : outcome (expr * list token) :=
  match fuel with
  | O => Unmodelled
  | S n =>
      match ts with
      | TOp Add :: r => '(e, r') ← parse_term n r; sum_rest n (EBin Add l e) r'
      | TOp Sub :: r => '(e, r') ← parse_term n r; sum_rest n (EBin Sub l e) r'
      | _ => Done (l, ts)
      end
  end
with parse_term (fuel : nat) (ts : list token) : outcome (expr * list token) :=
  match fuel with
  | O => Unmodelled
  | S n => '(l, r) ← parse_factor n ts; term_rest n l r
  end
with term_rest (fuel : nat) (l : expr) (ts : list token) : outcome (expr * list token) :=
  match fuel with
  | O => Unmodelled
  | S n =>
      match ts with
      | TOp Mul :: r => '(e, r') ← parse_factor n r; term_rest n (EBin Mul l e) r'
      | TOp Div :: r => '(e, r') ← parse_factor n r; term_rest n (EBin Div l e) r'
      | TOp FloorDiv :: r =>
          '(e, r') ← parse_factor n r; term_rest n (EBin FloorDiv l e) r'
      | _ => Done (l, ts)
      end
  end
with parse_factor (fuel : nat) (ts : list token) : outcome (expr * list token) :=
  match fuel with
  | O => Unmodelled
  | S n =>
      match ts with
      | TOp Add :: r => '(e, r') ← parse_factor n r; Done (EUnary UPlus e, r')
      | TOp Sub :: r => '(e, r') ← parse_factor n r; Done (EUnary UMinus e, r')
      | _ => parse_power n ts
      end
  end
with parse_power (fuel : nat) (ts : list token) : outcome (expr * list token) :=
  match fuel with
  | O => Unmodelled
  | S n =>
      '(b, r) ← parse_primary n ts;
      match r with
      | TOp Pow :: r' => '(e, r'') ← parse_factor n r'; Done (EBin Pow b e, r'')
      | _ => Done (b, r)
      end
  end
with parse_primary (fuel : nat) (ts : list token) : outcome (expr * list token) :=
  match fuel with
  | O => Unmodelled
  | S n => '(a, r) ← parse_atom n ts; trailers n a r
  end
with trailers (fuel : nat) (a : expr) (ts : list token) : outcome (expr * list token) :=
  match fuel with
  | O => Unmodelled
  | S n =>
      match ts with
      | TDot :: TName x :: r => trailers n (EAttr a x) r
      | TDot :: _ => Fails SyntaxError
      | TLParen :: TRParen :: r => trailers n (ECall0 a) r
      | TLParen :: TOp Mul :: _ => Unmodelled
      | TLParen :: TOp Pow :: _ => Unmodelled
      | TLParen :: r =>
          '(e, r') ← parse_sum n r;
          match r' with
          | TRParen :: r'' => trailers n (ECall1 a e) r''
          | _ => Fails SyntaxError
          end
      | _ => Done (a, ts)
      end
  end
with parse_atom (fuel : nat) (ts : list token) : outcome (expr * list token) :=
  match fuel with
  | O => Unmodelled
  | S n =>
      match ts with
      | TNum k :: r => Done (ENum k, r)
      | TName x :: r => Done (EName x, r)
      | TLParen :: TRParen :: _ => Unmodelled
      | TLParen :: r =>
          '(e, r') ← parse_sum n r;
          match r' with
          | TRParen :: r'' => Done (e, r'')
          | _ => Fails SyntaxError
          end
      | _ => Fails SyntaxError
      end
  end.

(** A whole expression: nothing may be left over. *)
Definition parse (ts : list token) : outcome expr :=
  '(e, r) ← parse_sum (10 * length ts + 10) ts;
  match r with
  | [] => Done e
  | _ :: _ => Fails SyntaxError
  end.

(** ** Evaluation *)

(** Names are looked up in the globals [{"math": math}] and then in the
    builtins [{"abs": abs}]; there is nothing else to find. *)
Definition lookup_name (x : string) : outcome pyobj :=
  if String.eqb x "math" then Done PMathModule
  else if String.eqb x "abs" then Done PBuiltinAbs
  else Fails NameError.

Definition math_pi : F64.float := S754_finite false 7074237752028440 (-51).
Definition math_e : F64.float := S754_finite false 6121026514868073 (-51).
Definition math_tau : F64.float := S754_finite false 7074237752028440 (-50).

(** [v.a].  No attribute of the module [math] has [math] in its name; of
    its attributes the model knows the ones listed. *)
Definition getattr (v : pyobj) (a : string) : outcome pyobj :=
  match v with
  | PMathModule =>
      if String.eqb a "sin" then Done (PMathFn MSin)
      else if String.eqb a "cos" then Done (PMathFn MCos)
      else if String.eqb a "tan" then Done (PMathFn MTan)
      else if String.eqb a "log" then Done (PMathFn MLog)
      else if String.eqb a "sqrt" then Done (PMathFn MSqrt)
      else if String.eqb a "pow" then Done (PMathFn MPow)
      else if String.eqb a "fabs" then Done (PMathFn MFabs)
      else if String.eqb a "sinh" then Done (PMathFn MSinh)
      else if String.eqb a "cosh" then Done (PMathFn MCosh)
      else if String.eqb a "tanh" then Done (PMathFn MTanh)
      else if String.eqb a "log2" then Done (PMathFn MLog2)
      else if String.eqb a "log10" then Done (PMathFn MLog10)
      else if String.eqb a "pi" then Done (PFloat math_pi)
      else if String.eqb a "e" then Done (PFloat math_e)
      else if String.eqb a "tau" then Done (PFloat math_tau)
      else if String.eqb a "inf" then Done (PFloat F64.inf)
      else if String.eqb a "nan" then Done (PFloat F64.nan)
      else if contains "math" a then Fails AttributeError
      else Unmodelled
  | _ => Unmodelled
  end.

(** The conversion of a numeric operand to [float]. *)
Definition to_float (v : pyobj) : outcome F64.float :=
  match v with
  | PInt z =>
      let x := F64.of_Z z in
      if F64.is_inf x then Fails OverflowError else Done x
  | PFloat x => Done x
  | PBuiltinAbs | PMathModule | PMathFn _ => Fails TypeError
  | POther _ => Unmodelled
  end.

Definition one : F64.float := F64.of_Z 1.

(** [math.sqrt]: correctly rounded (IEEE 754); a NaN result of a number
    is a domain error. *)
Definition math_sqrt (x : F64.float) : outcome F64.float :=
  let r := F64.sqrt x in
  if F64.is_nan r && negb (F64.is_nan x) then Fails ValueError else Done r.

(** The functions of the C library ([sin], [tan], [cos], [log], [log2],
    [log10], [sinh], [tanh], [cosh]) at the arguments where the C standard
    fixes the result; elsewhere the result is the library's and is not
    modelled. *)
Definition math_sin_tan (x : F64.float) : outcome F64.float :=
  match x with
  | S754_zero _ => Done x
  | S754_nan => Done F64.nan
  | S754_infinity _ => Fails ValueError
  | S754_finite _ _ _ => Unmodelled
  end.

Definition math_cos (x : F64.float) : outcome F64.float :=
  match x with
  | S754_zero _ => Done one
  | S754_nan => Done F64.nan
  | S754_infinity _ => Fails ValueError
  | S754_finite _ _ _ => Unmodelled
  end.

Definition math_sinh (x : F64.float) : outcome F64.float :=
  match x with
  | S754_zero _ | S754_infinity _ => Done x
  | S754_nan => Done F64.nan
  | S754_finite _ _ _ => Unmodelled
  end.

Definition math_tanh (x : F64.float) : outcome F64.float :=
  match x with
  | S754_zero _ => Done x
  | S754_infinity s => Done (if s then F64.neg one else one)
  | S754_nan => Done F64.nan
  | S754_finite _ _ _ => Unmodelled
  end.

Definition math_cosh (x : F64.float) : outcome F64.float :=
  match x with
  | S754_zero _ => Done one
  | S754_infinity _ => Done F64.inf
  | S754_nan => Done F64.nan
  | S754_finite _ _ _ => Unmodelled
  end.

Definition math_log (x : F64.float) : outcome F64.float :=
  match x with
  | S754_zero _ => Fails ValueError
  | S754_nan => Done F64.nan
  | S754_infinity false => Done F64.inf
  | S754_infinity true => Fails ValueError
  | S754_finite true _ _ => Fails ValueError
  | S754_finite false _ _ =>
      if F64.eqb x one then Done F64.pos_zero else Unmodelled
  end.

(** [math.f(v)]. The logarithms take an [int] of any size; [math.pow]
    wants two arguments and cannot get them (there is no comma). *)
Definition call_math (f : math_fn) (v : pyobj) : outcome pyobj :=
  match f with
  | MPow => Fails TypeError
  | MLog | MLog2 | MLog10 =>
      match v with
      | PInt z =>
          if z <=? 0 then Fails ValueError
          else if z =? 1 then Done (PFloat F64.pos_zero)
          else Unmodelled
      | _ => x ← to_float v; r ← math_log x; Done (PFloat r)
      end
  | MSqrt => x ← to_float v; r ← math_sqrt x; Done (PFloat r)
  | MFabs => x ← to_float v; Done (PFloat (F64.fabs x))
  | MSin | MTan => x ← to_float v; r ← math_sin_tan x; Done (PFloat r)
  | MCos => x ← to_float v; r ← math_cos x; Done (PFloat r)
  | MSinh => x ← to_float v; r ← math_sinh x; Done (PFloat r)
  | MTanh => x ← to_float v; r ← math_tanh x; Done (PFloat r)
  | MCosh => x ← to_float v; r ← math_cosh x; Done (PFloat r)
  end.

(** [f(arg)], or [f()] when there is no argument. *)
Definition call (f : pyobj) (arg : option pyobj) : outcome pyobj :=
  match f with
  | PBuiltinAbs =>
      match arg with
      | None => Fails TypeError
      | Some (PInt z) => Done (PInt (Z.abs z))
      | Some (PFloat x) => Done (PFloat (F64.fabs x))
      | Some (POther _) => Unmodelled
      | Some _ => Fails TypeError
      end
  | PMathFn fn =>
      match arg with
      | None => Fails TypeError
      | Some v => call_math fn v
      end
  | PInt _ | PFloat _ | PMathModule => Fails TypeError
  | POther _ => Unmodelled
  end.

Definition unary (o : unop) (v : pyobj) : outcome pyobj :=
  match v with
  | PInt z => Done (PInt (match o with UPlus => z | UMinus => - z end))
  | PFloat x => Done (PFloat (match o with UPlus => x | UMinus => F64.neg x end))
  | POther _ => Unmodelled
  | _ => Fails TypeError
  end.

(** [x / y] for two [int]s, [y] not zero: the exact quotient, rounded
    once. *)
Definition int_true_div (x y : Z) : outcome pyobj :=
  let s := xorb (x <? 0) (y <? 0) in
  match x with
  | Z0 => Done (PFloat (S754_zero s))
  | _ =>
      let r := F64.of_ratio s (Z.to_pos (Z.abs x)) (Z.to_pos (Z.abs y)) in
      if F64.is_inf r then Fails OverflowError else Done (PFloat r)
  end.

(** The powers the model computes: those small enough that the
    interpreter's time and memory are not in question. *)
Definition pow_within_limits (x y : Z) : bool :=
  (y <=? 4096) && ((Z.log2 (Z.abs x) + 1) * y <=? 1048576).

Definition int_arith (o : binop) (x y : Z) : outcome pyobj :=
  match o with
  | Add => Done (PInt (x + y))
  | Sub => Done (PInt (x - y))
  | Mul => Done (PInt (x * y))
  | Div => if y =? 0 then Fails ZeroDivisionError else int_true_div x y
  | FloorDiv => if y =? 0 then Fails ZeroDivisionError else Done (PInt (x / y))
  | Pow =>
      if 0 <=? y then
        if pow_within_limits x y then Done (PInt (x ^ y)) else Unmodelled
      else if x =? 0 then Fails ZeroDivisionError
      else Unmodelled
  end.

(** [+ - *] on floats are the IEEE operations and never raise; division
    by a zero raises; [//] and [**] go through the C library. *)
Definition float_arith (o : binop) (x y : F64.float) : outcome pyobj :=
  match o with
  | Add => Done (PFloat (F64.add x y))
  | Sub => Done (PFloat (F64.sub x y))
  | Mul => Done (PFloat (F64.mul x y))
  | Div => if F64.is_zero y then Fails ZeroDivisionError else Done (PFloat (F64.div x y))
  | FloorDiv => if F64.is_zero y then Fails ZeroDivisionError else Unmodelled
  | Pow => Unmodelled
  end.

Definition arith (o : binop) (a b : pyobj) : outcome pyobj :=
  match a, b with
  | PInt x, PInt y => int_arith o x y
  | PInt _, PFloat _ | PFloat _, PInt _ | PFloat _, PFloat _ =>
      x ← to_float a; y ← to_float b; float_arith o x y
  | POther _, _ | _, POther _ => Unmodelled
  | _, _ => Fails TypeError
  end.

(** Operands are evaluated from left to right, a callee before its
    argument. *)
Fixpoint eval_expr (e : expr) : outcome pyobj :=
  match e with
  | ENum (NInt z) => Done (PInt z)
  | ENum (NFloat x) => Done (PFloat x)
  | EName x => lookup_name x
  | EAttr e' a => v ← eval_expr e'; getattr v a
  | ECall0 f => fv ← eval_expr f; call fv None
  | ECall1 f a => fv ← eval_expr f; v ← eval_expr a; call fv (Some v)
  | EUnary o e' => v ← eval_expr e'; unary o v
  | EBin o l r => a ← eval_expr l; b ← eval_expr r; arith o a b
  end.

(** The longest text the model answers for.  Below it no nesting, chain
    or literal comes near the interpreter's limits. *)
Definition max_modelled_length : nat := 80.

(** [eval(s, {"__builtins__": {"abs": abs}, "math": math}, {})]. *)
Definition py_eval (s : string) : outcome pyobj :=
  if negb (isascii s) then Unmodelled
  else if (max_modelled_length <? String.length s)%nat then Unmodelled
  else ts ← lex (S (String.length s)) s; e ← parse ts; eval_expr e.

(** ** [float ** float] *)

(** [x] is an integer; [x] is an odd integer ([DOUBLE_IS_ODD_INTEGER]). *)
Definition is_integer (x : F64.float) : bool :=
  match x with
  | S754_zero _ => true
  | S754_finite _ m e => (0 <=? e) || (Zpos m mod 2 ^ (- e) =? 0)
  | S754_infinity _ | S754_nan => false
  end.

Definition is_odd_integer (x : F64.float) : bool :=
  match x with
  | S754_finite _ m e =>
      if 0 <=? e then (e =? 0) && Z.odd (Zpos m)
      else (Zpos m mod 2 ^ (- e) =? 0) && Z.odd (Zpos m / 2 ^ (- e))
  | _ => false
  end.

(** [iv ** iw] on two floats ([float_pow] of CPython's [floatobject.c]).
    The interpreter sorts out the special cases itself, in this order, and
    leaves the rest (both finite, [iw] not zero, [iv] positive and not 1,
    or negative with an integer [iw]) to the C library's [pow], which is
    not modelled.  A negative [iv] with a fractional [iw] gives a
    [complex], not a [float]; it is not modelled either. *)
Definition float_pow (iv iw : F64.float) : outcome F64.float :=
  if F64.is_zero iw then Done one
  else if F64.is_nan iv then Done iv
  else if F64.is_nan iw then Done (if F64.eqb iv one then one else iw)
  else if F64.is_inf iw then
    let av := F64.fabs iv in
    if F64.eqb av one then Done one
    else if Bool.eqb (F64.ltb F64.pos_zero iw) (F64.ltb one av) then Done F64.inf
    else Done F64.pos_zero
  else if F64.is_inf iv then
    if F64.ltb F64.pos_zero iw
    then Done (if is_odd_integer iw then iv else F64.fabs iv)
    else Done (if is_odd_integer iw && F64.ltb iv F64.pos_zero
               then F64.neg F64.pos_zero else F64.pos_zero)
  else if F64.is_zero iv then
    if F64.ltb iw F64.pos_zero then Fails ZeroDivisionError
    else Done (if is_odd_integer iw then iv else F64.pos_zero)
  else if F64.ltb iv F64.pos_zero && negb (is_integer iw) then Unmodelled
  else if F64.eqb (F64.fabs iv) one then
    Done (if F64.ltb iv F64.pos_zero && is_odd_integer iw then F64.neg one else one)
  else Unmodelled.

End PyEval.

(* ===================================================================== *)
(** * The server: [math_mcp/server.py]                                    *)
(* ===================================================================== *)

Module Server.
Import Py PyEval.

(** ** What the functions take from the interpreter *)

(** The builtins and library functions the server calls, as one record.
    - [rt_eval s] is [eval(s, {"__builtins__": {"abs": abs}, "math": math}, {})];
    - [rt_set_order] is the order in which this process iterates over the
      set [allowed_functions] (it depends on the process's string hashes);
    - [rt_float_str x] is [str(x)];
    - [rt_mean], [rt_median], [rt_stdev], [rt_variance] are
      [statistics.mean], [median], [stdev], [variance];
    - [rt_isalpha c] is [c.isalpha()] for a character [c] that is not
      ASCII, and [rt_lower s] is [s.lower()] for a text [s] that is not
      ASCII: both are read off the interpreter's Unicode database;
    - [rt_nan_mode data] is [statistics.mode(data)] on data that holds a
      NaN, where the answer depends on which of the NaNs are one and the
      same object. *)
Record runtime : Type := {
  rt_eval : string -> result pyobj;
  rt_set_order : list string;
  rt_float_str : F64.float -> string;
  rt_mean : list F64.float -> result F64.float;
  rt_median : list F64.float -> result F64.float;
  rt_stdev : list F64.float -> result F64.float;
  rt_variance : list F64.float -> result F64.float;
  rt_isalpha : string -> bool;
  rt_lower : string -> string;
  rt_nan_mode : list F64.float -> F64.float
}.

(** ** Numbers *)

(** The conversion formulas use [+ - * /] and decimal literals and nothing
    else of their numbers.  They are written over that interface, and the
    server runs them on [float]: what does not depend on the arithmetic is
    proved of the interface, the rest of the floats.  [lit m e] is the
    literal [m * 10^e]. *)
Class Number (N : Type) : Type := {
  n_add : N -> N -> N;
  n_sub : N -> N -> N;
  n_mul : N -> N -> N;
  n_div : N -> N -> N;
  lit : Z -> Z -> N
}.

(** On floats [/] raises on a zero divisor; every divisor below is a
    non-zero literal, so the quotient is the IEEE one. *)
#[export] Instance float_number : Number F64.float := {|
  n_add := F64.add;
  n_sub := F64.sub;
  n_mul := F64.mul;
  n_div := F64.div;
  lit := F64.of_decimal
|}.

(** ** Structured results *)

Record CalculationResult : Type := {
  cr_expression : string;
  cr_result : F64.float;
  cr_timestamp : string
}.

Record StatisticsResult : Type := {
  sr_operation : string;
  sr_input_data : list F64.float;
  sr_result : F64.float;
  sr_count : nat
}.

Record UnitConversionResult (N : Type) : Type := {
  original_value : N;
  original_unit : string;
  converted_value : N;
  target_unit : string;
  conversion_type : string
}.
Arguments original_value {N} _.
Arguments original_unit {N} _.
Arguments converted_value {N} _.
Arguments target_unit {N} _.
Arguments conversion_type {N} _.

(** ** Application context *)

(** An entry of the calculation history: the dict
    [{"type", "expression", "result", "timestamp"}]. *)
Record history_entry : Type := {
  h_type : string;
  h_expression : string;
  h_result : F64.float;
  h_timestamp : string
}.

Record AppContext : Type := {
  calculation_history : list history_entry
}.

(** ** Safe expression evaluation *)

Definition allowed_chars : string := "0123456789+-*/.()e".

Definition allowed_functions : list string :=
  ["sin"; "cos"; "tan"; "log"; "sqrt"; "abs"; "pow"].

(** [c in allowed_chars or c.isalpha()] for an ASCII character [c]. *)
Definition char_ok (c : ascii) : bool := mem_char c allowed_chars || isalpha c.

(** [c in allowed_chars or c.isalpha()] for a character [c] of the text:
    no character of [allowed_chars] is beyond ASCII, so for the others it
    is [c.isalpha()] that decides. *)
Definition char_allowed (rt : runtime) (c : string) : bool :=
  match c with
  | String a EmptyString => if is_ascii_char a then char_ok a else rt_isalpha rt c
  | _ => rt_isalpha rt c
  end.

(** [s.lower()]: the Unicode database has the last word on a text that is
    not ASCII; lower-casing the ASCII letters first changes nothing of
    what it returns. *)
Definition str_lower (rt : runtime) (s : string) : string :=
  if isascii s then lower s else rt_lower rt (lower s).

(** One turn of the loop [for func in allowed_functions]. *)
Definition substitute (clean_expr safe_expr func : string) : string :=
  if contains func clean_expr then
    if negb (String.eqb func "abs") then replace func ("math." ++ func) safe_expr
    else safe_expr
  else safe_expr.

Section WithRuntime.
Context (rt : runtime).

(** The text handed to [eval]. *)
Definition safe_expr_of (clean_expr : string) : string :=
  fold_left (substitute clean_expr) (rt_set_order rt) clean_expr.

Definition safe_eval_expression (expression : string) : result F64.float :=
  let clean_expr := replace " " "" expression in
  if negb (forallb (char_allowed rt) (chars clean_expr)) then
    Raise (Exn ValueError "Expression contains invalid characters")
  else
    let safe_expr := safe_expr_of clean_expr in
    match (result ← rt_eval rt safe_expr; float_of_obj result) with
    | Ok x => Ok x
    | Raise e => Raise (Exn ValueError ("Invalid expression: " ++ exn_str e))
    end.

(** ** Tools *)

(** [calculate]: [now] is what [datetime.now().isoformat()] returns at the
    call; the context comes back with the history as the call left it. *)
Definition calculate (expression now : string) (ctx : AppContext)
  : result CalculationResult * AppContext :=
  match safe_eval_expression expression with
  | Raise e => (Raise e, ctx)
  | Ok result =>
      let timestamp := now in
      let history_entry :=
        {| h_type := "calculation"; h_expression := expression;
           h_result := result; h_timestamp := timestamp |} in
      (Ok {| cr_expression := expression; cr_result := result;
             cr_timestamp := timestamp |},
       {| calculation_history := calculation_history ctx ++ [history_entry] |})
  end.

(** [Counter(data)] on data without NaN: the distinct values of [data]
    with their multiplicities, in order of first occurrence.  Keys are
    compared with [==]. *)
Fixpoint counter_add (x : F64.float) (c : list (F64.float * nat))
  : list (F64.float * nat) :=
  match c with
  | [] => [(x, 1%nat)]
  | (y, n) :: c' =>
      if F64.eqb x y then (y, S n) :: c' else (y, n) :: counter_add x c'
  end.

Definition counter (data : list F64.float) : list (F64.float * nat) :=
  fold_left (fun c x => counter_add x c) data [].

(** [max(items, key=itemgetter(1))]: the first item of greatest count. *)
Fixpoint max_count (best : F64.float * nat) (items : list (F64.float * nat))
  : F64.float * nat :=
  match items with
  | [] => best
  | it :: items' =>
      max_count (if (snd best <? snd it)%nat then it else best) items'
  end.

(** [statistics.mode(data)], as the standard library has defined it since
    Python 3.8: [Counter(iter(data)).most_common(1)[0][0]], the first
    encountered of the most common values; [StatisticsError] on no data.
    A [Counter] finds a key by identity before it tries [==]; for floats
    that shows on NaN only, which equals nothing but is found again when
    it is the same object, so data with a NaN is left to [rt_nan_mode]. *)
Definition stats_mode (data : list F64.float) : result F64.float :=
  match counter data with
  | [] => Raise (Exn StatisticsError "no mode for empty data")
  | it :: items =>
      if existsb F64.is_nan data then Ok (rt_nan_mode rt data)
      else Ok (fst (max_count it items))
  end.

(** The dict [operations], in the order it is written. *)
Definition operations : list (string * (list F64.float -> result F64.float)) :=
  [ ("mean", rt_mean rt);
    ("median", rt_median rt);
    ("mode", stats_mode);
    ("std_dev", fun x => if (1 <? length x)%nat then rt_stdev rt x else Ok (F64.of_Z 0));
    ("variance", fun x => if (1 <? length x)%nat then rt_variance rt x else Ok (F64.of_Z 0)) ].

Fixpoint dict_get {V} (k : string) (d : list (string * V)) : option V :=
  match d with
  | [] => None
  | (k', v) :: d' => if String.eqb k k' then Some v else dict_get k d'
  end.

(** [str(list(d.keys()))]: ['a', 'b']. *)
Fixpoint join (sep : string) (l : list string) : string :=
  match l with
  | [] => ""
  | [x] => x
  | x :: l' => x ++ sep ++ join sep l'
  end.

Definition str_of_keys {V} (d : list (string * V)) : string :=
  "[" ++ join ", " (map (fun kv => "'" ++ fst kv ++ "'") d) ++ "]".

Definition statistics (numbers : list F64.float) (operation : string)
  : result StatisticsResult :=
  match numbers with
  | [] => Raise (Exn ValueError "Cannot calculate statistics on empty list")
  | _ :: _ =>
      match dict_get operation operations with
      | None =>
          Raise (Exn ValueError
            ("Unknown operation '" ++ operation ++ "'. Available: "
             ++ str_of_keys operations))
      | Some f =>
          result ← f numbers;
          Ok {| sr_operation := operation; sr_input_data := numbers;
                sr_result := result; sr_count := length numbers |}
      end
  end.

(** ** Resources *)

Definition nl : string := String (ascii_of_nat 10) "".

(** [history[-10:]] *)
Definition last10 {A} (history : list A) : list A :=
  drop (length history - 10) history.

(** One numbered line of the listing. *)
Definition history_line (i : nat) (entry : history_entry) : string :=
  str_of_nat i ++ ". " ++ h_expression entry ++ " = "
  ++ rt_float_str rt (h_result entry) ++ " (at " ++ h_timestamp entry ++ ")" ++ nl.

(** The lines of [for i, entry in enumerate(entries, start)]. *)
Fixpoint history_lines (start : nat) (entries : list history_entry) : string :=
  match entries with
  | [] => ""
  | entry :: entries' => history_line start entry ++ history_lines (S start) entries'
  end.

Definition get_calculation_history (ctx : AppContext) : string :=
  let history := calculation_history ctx in
  match history with
  | [] => "No calculations performed yet in this session."
  | _ :: _ =>
      let history_text := "Calculation History:" ++ nl ++ nl in
      let history_text := history_text ++ history_lines 1 (last10 history) in
      if (10 <? length history)%nat then
        history_text ++ nl ++ "... and " ++ str_of_nat (length history - 10)
        ++ " more calculations"
      else history_text
  end.

End WithRuntime.

(** ** Unit conversion *)

Section Conversion.
Context {N : Type} `{Number N}.
Context (rt : runtime).

Definition convert_temperature (value : N) (from_unit to_unit : string) : N :=
  let celsius :=
    if String.eqb (str_lower rt from_unit) "f" then
      n_div (n_mul (n_sub value (lit 32 0)) (lit 5 0)) (lit 9 0)
    else if String.eqb (str_lower rt from_unit) "k" then
      n_sub value (lit 27315 (-2))
    else value in
  if String.eqb (str_lower rt to_unit) "f" then
    n_add (n_div (n_mul celsius (lit 9 0)) (lit 5 0)) (lit 32 0)
  else if String.eqb (str_lower rt to_unit) "k" then
    n_add celsius (lit 27315 (-2))
  else celsius.

(** The conversion tables, to base units. *)
Definition conversions : gmap string (gmap string N) :=
  {[ "length" :=
       {[ "mm" := lit 1 0; "cm" := lit 10 0; "m" := lit 1000 0;
          "km" := lit 1000000 0; "in" := lit 254 (-1); "ft" := lit 3048 (-1);
          "yd" := lit 9144 (-1); "mi" := lit 1609344 0 ]};
     "weight" :=
       {[ "g" := lit 1 0; "kg" := lit 1000 0; "oz" := lit 2835 (-2);
          "lb" := lit 45359 (-2) ]} ]}.

(** [not d] for a dict. *)
Definition dict_is_empty {V} (d : gmap string V) : bool :=
  match map_to_list d with
  | [] => true
  | _ :: _ => false
  end.

Definition convert_units (value : N) (from_unit to_unit unit_type : string)
  : result (UnitConversionResult N) :=
  result ←
    (if String.eqb unit_type "temperature" then
       Ok (convert_temperature value from_unit to_unit)
     else
       match conversions !! unit_type with
       | None =>
           Raise (Exn ValueError
             ("Unknown unit type '" ++ unit_type
              ++ "'. Available: length, weight, temperature"))
       | Some conversion_table =>
           if dict_is_empty conversion_table then
             Raise (Exn ValueError
               ("Unknown unit type '" ++ unit_type
                ++ "'. Available: length, weight, temperature"))
           else
             match conversion_table !! str_lower rt from_unit,
                   conversion_table !! str_lower rt to_unit with
             | None, _ =>
                 Raise (Exn ValueError
                   ("Unknown " ++ unit_type ++ " unit '" ++ from_unit ++ "'"))
             | Some _, None =>
                 Raise (Exn ValueError
                   ("Unknown " ++ unit_type ++ " unit '" ++ to_unit ++ "'"))
             | Some from_factor, Some to_factor =>
                 let base_value := n_mul value from_factor in
                 Ok (n_div base_value to_factor)
             end
       end);
  Ok {| original_value := value; original_unit := from_unit;
        converted_value := result; target_unit := to_unit;
        conversion_type := unit_type |}.

End Conversion.

(** ** Compound interest *)

Record CompoundInterestResult : Type := {
  ci_principal : F64.float;
  ci_rate : F64.float;
  ci_time : F64.float;
  ci_compounds_per_year : Z;
  ci_final_amount : F64.float;
  ci_total_interest : F64.float
}.

Section WithPow.

(** [rt_pow x y] is [x ** y] on two floats, for a base that is not
    negative: there [**] returns a float or raises.  (The base below is
    [1 + rate / n] with [rate] not below zero and [n] positive.) *)
Context (rt_pow : F64.float -> F64.float -> result F64.float).

(** [compound_interest]: the arguments have their annotated types, three
    floats and an [int]; [compounds_per_year] is 1 when the caller leaves
    it out.  The [int] is converted to [float] where it meets one, in
    [rate / compounds_per_year] first. *)
Definition compound_interest
    (principal rate time : F64.float) (compounds_per_year : Z)
  : result CompoundInterestResult :=
  if F64.leb principal (F64.of_Z 0) then
    Raise (Exn ValueError "Principal must be greater than 0")
  else if F64.ltb rate (F64.of_Z 0) then
    Raise (Exn ValueError "Interest rate cannot be negative")
  else if F64.leb time (F64.of_Z 0) then
    Raise (Exn ValueError "Time must be greater than 0")
  else if compounds_per_year <=? 0 then
    Raise (Exn ValueError "Compounds per year must be greater than 0")
  else
    n ← float_of_int compounds_per_year;
    power ← rt_pow (F64.add (F64.of_Z 1) (F64.div rate n)) (F64.mul n time);
    let final_amount := F64.mul principal power in
    let total_interest := F64.sub final_amount principal in
    Ok {| ci_principal := principal; ci_rate := rate; ci_time := time;
          ci_compounds_per_year := compounds_per_year;
          ci_final_amount := final_amount;
          ci_total_interest := total_interest |}.

End WithPow.

(** ** The session and the constants *)

(** [app_lifespan]: the context a session starts with. *)
Definition app_lifespan : AppContext := {| calculation_history := [] |}.

(** The dict [constants], in the order it is written: name, value,
    description.  (The descriptions are the source's, as UTF-8.) *)
Definition constants : list (string * (F64.float * string)) :=
  [ ("pi", (math_pi, "Ratio of circle's circumference to diameter"));
    ("e", (math_e, "Euler's number, base of natural logarithm"));
    ("golden_ratio",
     (F64.div (F64.add (F64.of_Z 1) (F64.sqrt (F64.of_Z 5))) (F64.of_Z 2),
      "Golden ratio φ"));
    ("euler_gamma",
     (F64.of_decimal 5772156649015329 (-16), "Euler-Mascheroni constant γ"));
    ("sqrt2", (F64.sqrt (F64.of_Z 2), "Square root of 2"));
    ("sqrt3", (F64.sqrt (F64.of_Z 3), "Square root of 3")) ].

Definition get_math_constant (rt : runtime) (constant : string) : string :=
  match dict_get constant constants with
  | None =>
      let available := join ", " (map fst constants) in
      "Unknown constant '" ++ constant ++ "'. Available constants: " ++ available
  | Some const_info =>
      constant ++ ": " ++ rt_float_str rt (fst const_info) ++ nl
      ++ "Description: " ++ snd const_info
  end.

(** ** Prompts *)

(** [math_tutor]: [level] is "intermediate" and [include_examples] is
    [True] when the caller leaves them out. *)
Definition math_tutor (topic level : string) (include_examples : bool) : string :=
  let prompt :=
    "You are an expert mathematics tutor. Please explain the concept of "
    ++ topic ++ " at a " ++ level ++ " level." ++ nl
    ++ nl
    ++ "Please structure your explanation as follows:" ++ nl
    ++ "1. **Definition**: Provide a clear, concise definition" ++ nl
    ++ "2. **Key Concepts**: Break down the main ideas" ++ nl
    ++ "3. **Applications**: Where this is used in real life" ++ nl in
  let prompt :=
    if include_examples then
      prompt ++ "4. **Worked Examples**: Provide 2-3 step-by-step examples" ++ nl
    else prompt in
  prompt ++ nl
  ++ "Make your explanation engaging and accessible for a " ++ level
  ++ " learner. Use analogies when helpful, and encourage questions." ++ nl.

(** [formula_explainer]: [context] is "general mathematics" when the
    caller leaves it out. *)
Definition formula_explainer (formula context : string) : string :=
  "Please provide a comprehensive explanation of the formula: " ++ formula ++ nl
  ++ nl
  ++ "Include the following in your explanation:" ++ nl
  ++ nl
  ++ "1. **What it represents**: What does this formula calculate or describe?" ++ nl
  ++ "2. **Variable definitions**: Define each variable/symbol in the formula" ++ nl
  ++ "3. **Context**: How this formula fits within " ++ context ++ nl
  ++ "4. **Step-by-step breakdown**: If the formula has multiple parts, explain each step" ++ nl
  ++ "5. **Example calculation**: Show how to use the formula with specific numbers" ++ nl
  ++ "6. **Real-world applications**: Where might someone use this formula?" ++ nl
  ++ "7. **Common mistakes**: What errors do people often make when using this formula?" ++ nl
  ++ nl
  ++ "Make your explanation clear and educational, suitable for someone learning about "
  ++ context ++ "." ++ nl.

(** ** Entry point *)

(** [main]: the transport handed to [mcp.run], [argv] being [sys.argv]. *)
Definition main (argv : list string) : string :=
  let transport := "stdio" in
  match argv with
  | _ :: arg :: _ =>
      if existsb (String.eqb arg) ["stdio"; "sse"; "streamable-http"]
      then arg else transport
  | _ => transport
  end.

End Server.

(* ===================================================================== *)
(** * Reference runtime and conformance                                   *)
(* ===================================================================== *)

Module Conformance.
Import Py PyEval Server.

(** A runtime evaluates as CPython does where the model speaks. *)
Definition eval_conforms (rt : runtime) : Prop :=
  forall s,
    match py_eval s with
    | Done v => rt_eval rt s = Ok v
    | Fails k => raises k (rt_eval rt s)
    | Unmodelled => True
    end.

(** Its iteration order lists the set [allowed_functions]. *)
Definition order_conforms (rt : runtime) : Prop :=
  Permutation (rt_set_order rt) allowed_functions.

Definition conforms (rt : runtime) : Prop :=
  eval_conforms rt /\ order_conforms rt.

(** The runtime that answers as the model does, and with a placeholder
    where the model is silent.  It shows that [conforms] can be met, and
    gives the examples something to run on: ASCII texts and data without
    NaN, where the last three fields are not consulted. *)
Definition reference_runtime : runtime := {|
  rt_eval := fun s =>
    match py_eval s with
    | Done v => Ok v
    | Fails k => Raise (Exn k "")
    | Unmodelled => Raise (Exn SyntaxError "unmodelled")
    end;
  rt_set_order := allowed_functions;
  rt_float_str := fun _ => "<float>";
  rt_mean := fun _ => Raise (Exn StatisticsError "unmodelled");
  rt_median := fun _ => Raise (Exn StatisticsError "unmodelled");
  rt_stdev := fun _ => Raise (Exn StatisticsError "unmodelled");
  rt_variance := fun _ => Raise (Exn StatisticsError "unmodelled");
  rt_isalpha := fun _ => false;
  rt_lower := fun s => s;
  rt_nan_mode := fun _ => F64.nan
|}.

Lemma reference_runtime_conforms : conforms reference_runtime.
Proof.
  split.
  - intros s. cbn. destruct (py_eval s); [reflexivity | by eexists | exact I].
  - apply Permutation_refl.
Qed.

(** What is asked of the interpreter's [**] on floats: to agree with the
    model where the model speaks. *)
Definition pow_conforms (rt_pow : F64.float -> F64.float -> result F64.float)
  : Prop :=
  forall x y,
    match float_pow x y with
    | Done v => rt_pow x y = Ok v
    | Fails k => raises k (rt_pow x y)
    | Unmodelled => True
    end.

(** The [**] that answers as the model does, with a placeholder where the
    model is silent. *)
Definition reference_pow (x y : F64.float) : result F64.float :=
  match float_pow x y with
  | Done v => Ok v
  | Fails k => Raise (Exn k "")
  | Unmodelled => Raise (Exn OverflowError "unmodelled")
  end.

Lemma reference_pow_conforms : pow_conforms reference_pow.
Proof.
  intros x y. unfold reference_pow.
  destruct (float_pow x y); [reflexivity | by eexists | exact I].
Qed.

End Conformance.

(* ===================================================================== *)
(** * Properties                                                          *)
(* ===================================================================== *)

Import Py PyEval Server Conformance.

(** ** Strings *)

Section Strings.

(** Removing the spaces: what [replace(" ", "")] computes. *)
Fixpoint remove_spaces (s : string) : string :=
  match s with
  | EmptyString => EmptyString
  | String c s' =>
      if Ascii.eqb " " c then remove_spaces s' else String c (remove_spaces s')
  end.

Lemma replace_space_spec s : replace " " "" s = remove_spaces s.
Proof.
  unfold replace. induction s as [|c s IH]; [reflexivity|].
  cbn [replace_from remove_spaces startswith String.length Nat.pred].
  rewrite andb_true_r. destruct (Ascii.eqb " " c); cbn; by rewrite IH.
Qed.

(** A character that is not a space survives the removal. *)
Lemma str_any_remove_spaces p s :
  str_any (fun c => negb (Ascii.eqb " " c) && p c) s = true ->
  str_any p (remove_spaces s) = true.
Proof.
  induction s as [|c s IH]; [done|]. cbn [str_any remove_spaces].
  destruct (Ascii.eqb " " c); cbn [str_any negb andb orb]; [auto|].
  intros [Hc|Hs]%orb_true_iff; apply orb_true_iff; auto.
Qed.

Lemma str_any_not_all p s :
  str_any (fun c => negb (p c)) s = true -> str_all p s = false.
Proof.
  induction s as [|c s IH]; [done|]. cbn [str_any str_all].
  destruct (p c); cbn [negb andb orb]; auto.
Qed.

Lemma remove_spaces_alpha s :
  str_all isalpha s = true -> remove_spaces s = s.
Proof.
  induction s as [|c s IH]; [done|]. cbn [str_all remove_spaces].
  intros [Hc Hs]%andb_true_iff.
  destruct (Ascii.eqb_spec " " c) as [<-|_]; [discriminate Hc|].
  by rewrite IH.
Qed.

Lemma str_all_impl (p q : ascii -> bool) s :
  (forall c, p c = true -> q c = true) ->
  str_all p s = true -> str_all q s = true.
Proof.
  intros Hpq. induction s as [|c s IH]; [done|]. cbn [str_all].
  intros [Hc Hs]%andb_true_iff. apply andb_true_iff; auto.
Qed.

Lemma span_all p s : str_all p s = true -> span p s = (s, EmptyString).
Proof.
  induction s as [|c s IH]; [done|]. cbn [str_all span].
  intros [Hc Hs]%andb_true_iff. by rewrite Hc, IH.
Qed.

End Strings.

(** ** The substitution loop and the iteration order *)

(** The loop [for func in allowed_functions] walks a set, in an order that
    changes from one process to the next.  This section shows what the
    loop computes and that, on a text in which no function name starts
    inside an occurrence of another, the order does not matter. *)
Section SubstitutionOrder.
Local Open Scope list_scope.

(** The names the loop substitutes: all of [allowed_functions] but [abs]. *)
Definition substituted : list string :=
  ["sin"; "cos"; "tan"; "log"; "sqrt"; "pow"].

(** Some name of [names] starts the text [s]. *)
Definition any_starts (names : list string) (s : string) : bool :=
  existsb (fun p => startswith p s) names.

(** [mark names s]: the text [s] with [math.] put in front of every
    occurrence of a name of [names]. *)
Fixpoint mark (names : list string) (s : string) : string :=
  match s with
  | EmptyString => EmptyString
  | String c s' =>
      (if any_starts names s then "math." else "") +:+ String c (mark names s')
  end.

(** Some name of [names] starts at one of the first [n] positions of [s]. *)
Fixpoint starts_within (names : list string) (n : nat) (s : string) : bool :=
  match n with
  | O => false
  | S n' =>
      any_starts names s
      || match s with
         | EmptyString => false
         | String _ s' => starts_within names n' s'
         end
  end.

(** No substituted name starts strictly inside an occurrence of a
    substituted name (as [sin] does inside [cos] in the text [cosin]). *)
Fixpoint overlap_free (s : string) : bool :=
  match s with
  | EmptyString => true
  | String _ s' =>
      forallb (fun p => negb (startswith p s)
                        || negb (starts_within substituted (String.length p - 1) s'))
              substituted
      && overlap_free s'
  end.

(** The names that the loop substitutes in the text [clean]. *)
Definition to_substitute (clean func : string) : bool :=
  contains func clean && negb (String.eqb func "abs").

Lemma mark_cons names c s :
  mark names (String c s)
  = (if any_starts names (String c s) then "math." else "")
    +:+ String c (mark names s).
Proof. reflexivity. Qed.

Lemma mark_nil s : mark [] s = s.
Proof. induction s as [|c s IH]; [reflexivity|]. rewrite mark_cons, IH. reflexivity. Qed.

Lemma startswith_cons a p c s :
  startswith (String a p) (String c s) = Ascii.eqb a c && startswith p s.
Proof. reflexivity. Qed.

Lemma length_append a b :
  String.length (a +:+ b) = (String.length a + String.length b)%nat.
Proof.
  induction a as [|x a IH]; [reflexivity|].
  change (S (String.length (a +:+ b)) = S (String.length a + String.length b)).
  by rewrite IH.
Qed.

Lemma startswith_inv p s :
  startswith p s = true -> exists rest, s = p +:+ rest.
Proof.
  revert s. induction p as [|a p IH]; intros s Hs.
  - by exists s.
  - destruct s as [|c s]; [discriminate|].
    rewrite startswith_cons in Hs. apply andb_true_iff in Hs as [Hac Hp].
    apply Ascii.eqb_eq in Hac as ->.
    destruct (IH s Hp) as [rest ->]. by exists rest.
Qed.

Ltac each_substituted H :=
  cbn in H;
  destruct H as [<-|[<-|[<-|[<-|[<-|[<-|[]]]]]]].

(** A text that starts with one substituted name does not start with
    another. *)
Lemma startswith_exclusive p q s :
  In p substituted -> In q substituted -> p <> q ->
  startswith q s = true -> startswith p s = false.
Proof.
  intros Hp Hq Hpq [rest ->]%startswith_inv.
  each_substituted Hp; each_substituted Hq; done.
Qed.

(** [s.replace(p, "math." + p)] marks the occurrences of [p]: [p] cannot
    overlap itself. *)
Lemma replace_is_mark p s :
  In p substituted -> replace p ("math." +:+ p) s = mark [p] s.
Proof.
  intros Hp.
  assert (Hnonempty : replace p ("math." +:+ p) s
                      = replace_from p ("math." +:+ p) 0 s)
    by (each_substituted Hp; reflexivity).
  rewrite Hnonempty. clear Hnonempty.
  remember (String.length s) as n eqn:Hn.
  assert (Hlen : (String.length s <= n)%nat) by lia. clear Hn.
  revert s Hlen. induction n as [|n IH]; intros s Hlen.
  { destruct s; [reflexivity | cbn in Hlen; lia]. }
  destruct s as [|c s]; [reflexivity|].
  destruct (startswith p (String c s)) eqn:Hstart.
  - destruct (startswith_inv _ _ Hstart) as [rest Hrest].
    rewrite Hrest in Hlen |- *. rewrite length_append in Hlen.
    each_substituted Hp; cbn [String.length] in Hlen;
      match goal with
      | |- replace_from ?p ?new 0 _ = _ =>
          transitivity (new +:+ replace_from p new 0 rest); [reflexivity|]
      end;
      rewrite IH by lia; reflexivity.
  - change (replace_from p ("math." +:+ p) 0 (String c s))
      with (if startswith p (String c s)
            then ("math." +:+ p)
                 +:+ replace_from p ("math." +:+ p)
                       (Nat.pred (String.length p)) s
            else String c (replace_from p ("math." +:+ p) 0 s)).
    rewrite mark_cons. unfold any_starts. cbn [existsb].
    rewrite Hstart. cbn [orb]. rewrite IH by (cbn in Hlen; lia). reflexivity.
Qed.

(** Where a name without the letter [m] starts in a marked text: where it
    starts in the text, unless a mark falls inside it. *)
Lemma startswith_mark names p t :
  str_all (fun c => negb (Ascii.eqb c "m")) p = true ->
  startswith p (mark names t)
  = startswith p t && negb (starts_within names (String.length p) t).
Proof.
  revert t. induction p as [|a p IH]; intros t Hp; [reflexivity|].
  cbn [str_all] in Hp. apply andb_true_iff in Hp as [Ha Hp].
  apply negb_true_iff in Ha.
  destruct t as [|c t]; [reflexivity|].
  rewrite mark_cons. cbn [String.length starts_within].
  destruct (any_starts names (String c t)) eqn:Hany.
  - cbn [orb negb]. rewrite andb_false_r.
    change (startswith (String a p) ("math." +:+ String c (mark names t)))
      with (Ascii.eqb a "m" && startswith p ("ath." +:+ String c (mark names t))).
    by rewrite Ha.
  - cbn [orb].
    change ("" +:+ String c (mark names t)) with (String c (mark names t)).
    rewrite !startswith_cons, IH by exact Hp. by rewrite andb_assoc.
Qed.

Lemma startswith_cons_mark names p c s :
  In p substituted ->
  startswith p (String c (mark names s))
  = startswith p (String c s)
    && negb (starts_within names (String.length p - 1) s).
Proof.
  intros Hp.
  each_substituted Hp; rewrite !startswith_cons, startswith_mark by reflexivity;
    by rewrite andb_assoc.
Qed.

(** Marking goes through an inserted [math.]: no substituted name starts
    in it. *)
Lemma mark_inserted p s :
  In p substituted -> mark [p] ("math." +:+ s) = "math." +:+ mark [p] s.
Proof. intros Hp. each_substituted Hp; reflexivity. Qed.

Lemma starts_within_mono names names' n s :
  (forall q, In q names -> In q names') ->
  starts_within names n s = true -> starts_within names' n s = true.
Proof.
  intros Hsub. revert s. induction n as [|n IH]; intros s; [done|].
  cbn [starts_within]. intros [Hany | Hrest]%orb_true_iff; apply orb_true_iff.
  - left. unfold any_starts in *. apply existsb_exists in Hany as (q & Hq & Hs).
    apply existsb_exists. exists q. auto.
  - right. destruct s as [|c s]; [done|]. by apply IH.
Qed.

(** One more turn of the loop on an overlap-free text: marking [p] in a
    text where [names] are marked marks [p] and [names]. *)
Lemma mark_step names p s :
  In p substituted ->
  (forall q, In q names -> In q substituted /\ q <> p) ->
  overlap_free s = true ->
  mark [p] (mark names s) = mark (p :: names) s.
Proof.
  intros Hp Hnames. induction s as [|c s IH]; intros Hfree; [reflexivity|].
  cbn [overlap_free] in Hfree. apply andb_true_iff in Hfree as [Hhead Hfree].
  specialize (IH Hfree).
  pose proof (proj1 (forallb_forall _ _) Hhead p Hp) as Hp_free. cbn beta in Hp_free.
  assert (Hinside : startswith p (String c s) = true ->
                    starts_within names (String.length p - 1) s = false).
  { intros Hstart. rewrite Hstart in Hp_free. cbn in Hp_free.
    apply negb_true_iff in Hp_free.
    destruct (starts_within names _ s) eqn:Hw; [|reflexivity].
    apply starts_within_mono with (names' := substituted) in Hw;
      [congruence | intros q Hq; by apply Hnames]. }
  rewrite (mark_cons names), (mark_cons (p :: names)).
  unfold any_starts at 2. cbn [existsb]. fold (any_starts names (String c s)).
  destruct (any_starts names (String c s)) eqn:Hany.
  - rewrite orb_true_r, mark_inserted, mark_cons by exact Hp.
    unfold any_starts at 1. cbn [existsb]. rewrite orb_false_r.
    rewrite startswith_cons_mark by exact Hp.
    apply existsb_exists in Hany as (q & Hq & Hqs).
    destruct (Hnames q Hq) as [Hq_sub Hqp].
    rewrite (startswith_exclusive p q _ Hp Hq_sub (not_eq_sym Hqp) Hqs).
    cbn [andb]. by rewrite IH.
  - rewrite orb_false_r.
    change ("" +:+ String c (mark names s)) with (String c (mark names s)).
    rewrite mark_cons. unfold any_starts at 1. cbn [existsb].
    rewrite orb_false_r, startswith_cons_mark by exact Hp.
    destruct (startswith p (String c s)) eqn:Hstart.
    + rewrite (Hinside eq_refl). cbn [andb negb]. by rewrite IH.
    + cbn [andb]. by rewrite IH.
Qed.

(** The loop, started on a text in which [names] are marked, marks the
    names it meets that occur in [clean]. *)
Lemma fold_substitute_mark clean order names :
  List.NoDup order ->
  (forall f, In f order -> In f allowed_functions) ->
  (forall q, In q names -> In q substituted /\ ~ In q order) ->
  overlap_free clean = true ->
  fold_left (substitute clean) order (mark names clean)
  = mark (List.rev (List.filter (to_substitute clean) order) ++ names) clean.
Proof.
  intros Hnodup Hallowed Hnames Hfree. revert names Hnames.
  induction order as [|f order IH]; intros names Hnames; [reflexivity|].
  inversion Hnodup as [|? ? Hf Hnodup']; subst.
  cbn [fold_left List.filter].
  assert (Hrest : forall g, In g order -> In g allowed_functions)
    by (intros g Hg; apply Hallowed; by right).
  unfold substitute at 2, to_substitute at 1.
  destruct (contains f clean); cbn [andb];
    [destruct (String.eqb_spec f "abs") as [->|Hfabs]; cbn [negb]|].
  - apply (IH Hnodup' Hrest). intros q Hq. destruct (Hnames q Hq) as [? Hqo].
    split; [done|]. intros ?. apply Hqo. by right.
  - assert (Hfsub : In f substituted).
    { specialize (Hallowed f (or_introl eq_refl)). cbn in Hallowed |- *.
      intuition congruence. }
    change ("math." ++ f)%string with ("math." +:+ f).
    rewrite replace_is_mark, mark_step; try done.
    + rewrite (IH Hnodup' Hrest).
      * cbn [List.rev]. by rewrite <- app_assoc.
      * intros q [<- | Hq]; [done|]. destruct (Hnames q Hq) as [? Hqo].
        split; [done|]. intros ?. apply Hqo. by right.
    + intros q Hq. destruct (Hnames q Hq) as [? Hqo]. split; [done|].
      intros ->. apply Hqo. by left.
  - apply (IH Hnodup' Hrest). intros q Hq. destruct (Hnames q Hq) as [? Hqo].
    split; [done|]. intros ?. apply Hqo. by right.
Qed.

(** A marked text depends on the names as a set. *)
Lemma any_starts_perm names names' s :
  Permutation names names' -> any_starts names s = any_starts names' s.
Proof.
  unfold any_starts. induction 1 as [|x l l' _ IH|x y l|l l' l'' _ IH1 _ IH2];
    cbn [existsb].
  - reflexivity.
  - by rewrite IH.
  - by rewrite !orb_assoc, (orb_comm (startswith y s)).
  - congruence.
Qed.

Lemma mark_perm names names' s :
  Permutation names names' -> mark names s = mark names' s.
Proof.
  intros Hperm. induction s as [|c s IH]; [reflexivity|].
  by rewrite !mark_cons, IH, (any_starts_perm _ _ _ Hperm).
Qed.

Lemma filter_perm {A} (f : A -> bool) l l' :
  Permutation l l' -> Permutation (List.filter f l) (List.filter f l').
Proof.
  induction 1 as [|x l l' _ IH|x y l|l l' l'' _ IH1 _ IH2]; cbn.
  - constructor.
  - destruct (f x); [by constructor | done].
  - destruct (f x), (f y); try reflexivity. constructor.
  - by etransitivity.
Qed.

Lemma allowed_functions_nodup : List.NoDup allowed_functions.
Proof. repeat constructor; cbn; intuition discriminate. Qed.

(** What the loop computes on an overlap-free text, in whatever order it
    runs: [math.] goes in front of every occurrence of every name of
    [allowed_functions] but [abs]. *)
Theorem substitution_loop_marks order clean :
  Permutation order allowed_functions ->
  overlap_free clean = true ->
  fold_left (substitute clean) order clean
  = mark (List.filter (to_substitute clean) allowed_functions) clean.
Proof.
  intros Hperm Hfree.
  rewrite <- (mark_nil clean) at 2.
  rewrite fold_substitute_mark; try done.
  - rewrite app_nil_r. apply mark_perm.
    etransitivity; [symmetry; apply Permutation_rev|].
    by apply filter_perm.
  - eapply Permutation_NoDup; [symmetry; exact Hperm|].
    apply allowed_functions_nodup.
  - intros f Hf. eapply Permutation_in; [exact Hperm | exact Hf].
Qed.

End SubstitutionOrder.

(** ** The characters of a text *)

Section Characters.

Lemma char_ok_ascii c : char_ok c = true -> is_ascii_char c = true.
Proof. destruct c as [[] [] [] [] [] [] [] []]; vm_compute; congruence. Qed.

Lemma isalpha_ascii c : isalpha c = true -> is_ascii_char c = true.
Proof. destruct c as [[] [] [] [] [] [] [] []]; vm_compute; congruence. Qed.

Lemma ascii_not_continuation c :
  is_ascii_char c = true -> is_continuation c = false.
Proof. destruct c as [[] [] [] [] [] [] [] []]; vm_compute; congruence. Qed.

(** On an ASCII text the filter looks at one byte at a time. *)
Lemma filter_ascii rt s :
  isascii s = true ->
  forallb (char_allowed rt) (chars s) = str_all char_ok s.
Proof.
  unfold isascii. induction s as [|c s IH]; [done|]. cbn [str_all chars].
  intros [Hc Hs]%andb_true_iff. rewrite Hc. cbn [forallb char_allowed].
  by rewrite Hc, IH.
Qed.

Lemma filter_char_ok rt s :
  str_all char_ok s = true -> forallb (char_allowed rt) (chars s) = true.
Proof.
  intros Hok. rewrite filter_ascii; [exact Hok|].
  eapply str_all_impl; [apply char_ok_ascii | exact Hok].
Qed.

(** An ASCII byte of a text is one of its characters. *)
Lemma chars_ascii_member p s :
  (forall c, p c = true -> is_ascii_char c = true) ->
  str_any p s = true ->
  exists x, p x = true /\ In (String x EmptyString) (chars s).
Proof.
  intros Hp. induction s as [|c s IH]; [done|]. cbn [str_any chars].
  intros [Hc|Hs]%orb_true_iff.
  - exists c. split; [exact Hc|]. rewrite (Hp c Hc). by left.
  - destruct (IH Hs) as (x & Hx & Hin). exists x. split; [exact Hx|].
    destruct (is_ascii_char c); [by right|].
    destruct (chars s) as [|[|d g] l]; [done | by right |].
    destruct (is_continuation d) eqn:Hd; [|by right].
    destruct Hin as [[= -> ->]|Hin]; [|by right].
    by rewrite (ascii_not_continuation x (Hp x Hx)) in Hd.
Qed.

(** The filter refuses a text with an ASCII byte that is neither in
    [allowed_chars] nor a letter. *)
Lemma filter_refuses rt s :
  str_any (fun c => is_ascii_char c && negb (char_ok c)) s = true ->
  forallb (char_allowed rt) (chars s) = false.
Proof.
  intros Hbad.
  destruct (chars_ascii_member _ s
              (fun c H => proj1 (proj1 (andb_true_iff _ _) H)) Hbad)
    as (x & [Hx Hno]%andb_true_iff & Hin).
  destruct (forallb _ _) eqn:Hall; [|reflexivity].
  rewrite forallb_forall in Hall. specialize (Hall _ Hin).
  cbn [char_allowed] in Hall. rewrite Hx in Hall.
  by rewrite Hall in Hno.
Qed.

End Characters.

(** ** The safe expression evaluator *)

Section SafeEval.

(** An ASCII character of the expression that is not a space and that the
    filter refuses: it is neither in [allowed_chars] nor a letter. *)
Definition has_invalid_char (expression : string) : bool :=
  str_any (fun c => negb (Ascii.eqb " " c)
                    && (is_ascii_char c && negb (char_ok c))) expression.

(** The filter of [safe_eval_expression], on the expression as given. *)
Definition passes_filter (rt : runtime) (expression : string) : bool :=
  forallb (char_allowed rt) (chars (remove_spaces expression)).

(** How an outcome of [eval] and [float] is reported: the [try]/[except]
    of [safe_eval_expression]. *)
Definition reported (r : result F64.float) : result F64.float :=
  match r with
  | Ok x => Ok x
  | Raise e => Raise (Exn ValueError ("Invalid expression: " ++ exn_str e))
  end.

Lemma safe_eval_invalid rt expression :
  has_invalid_char expression = true ->
  safe_eval_expression rt expression
  = Raise (Exn ValueError "Expression contains invalid characters").
Proof.
  intros Hbad. unfold safe_eval_expression.
  rewrite replace_space_spec.
  apply str_any_remove_spaces in Hbad.
  by rewrite (filter_refuses rt _ Hbad).
Qed.

Lemma safe_eval_refused rt expression :
  passes_filter rt expression = false ->
  safe_eval_expression rt expression
  = Raise (Exn ValueError "Expression contains invalid characters").
Proof.
  unfold passes_filter, safe_eval_expression.
  rewrite replace_space_spec. by intros ->.
Qed.

Lemma safe_eval_passed rt expression :
  passes_filter rt expression = true ->
  safe_eval_expression rt expression
  = reported (v ← rt_eval rt (safe_expr_of rt (remove_spaces expression));
              float_of_obj v).
Proof.
  unfold passes_filter, safe_eval_expression.
  rewrite replace_space_spec. by intros ->.
Qed.

Lemma safe_eval_valid rt expression :
  str_all char_ok (remove_spaces expression) = true ->
  safe_eval_expression rt expression
  = reported (v ← rt_eval rt (safe_expr_of rt (remove_spaces expression));
              float_of_obj v).
Proof.
  intros Hok. apply safe_eval_passed, filter_char_ok, Hok.
Qed.

(** Whatever goes wrong, the exception that leaves the evaluator is a
    [ValueError]. *)
Lemma safe_eval_error_class rt expression e :
  safe_eval_expression rt expression = Raise e -> exn_class e = ValueError.
Proof.
  unfold safe_eval_expression.
  destruct (negb _); [by intros [= <-]|].
  destruct (_ ← rt_eval rt _; _); [discriminate | by intros [= <-]].
Qed.

(** The loop leaves the text alone when none of the names to substitute
    occurs in it. *)
Lemma fold_substitute_id clean order acc :
  Forall (fun f => contains f clean = false \/ f = "abs") order ->
  fold_left (substitute clean) order acc = acc.
Proof.
  intros Hall. revert acc.
  induction Hall as [|f order Hf _ IH]; intros acc; [reflexivity|].
  cbn [fold_left]. rewrite IH. unfold substitute.
  destruct Hf as [-> | ->]; [reflexivity|].
  by destruct (contains "abs" clean).
Qed.

Lemma safe_expr_unchanged rt clean :
  order_conforms rt ->
  Forall (fun f => contains f clean = false \/ f = "abs") allowed_functions ->
  safe_expr_of rt clean = clean.
Proof.
  intros Hperm Hall. apply fold_substitute_id.
  eapply Permutation_Forall; [symmetry; exact Hperm | exact Hall].
Qed.

(** What a conforming runtime makes of a text the model evaluates. *)
Lemma conforms_done rt s v :
  conforms rt -> py_eval s = Done v -> rt_eval rt s = Ok v.
Proof. intros [He _] Hs. specialize (He s). by rewrite Hs in He. Qed.

Lemma conforms_fails rt s k :
  conforms rt -> py_eval s = Fails k -> raises k (rt_eval rt s).
Proof. intros [He _] Hs. specialize (He s). by rewrite Hs in He. Qed.

Lemma isalpha_not_digit c : isalpha c = true -> is_digit c = false.
Proof. destruct c as [[] [] [] [] [] [] [] []]; vm_compute; congruence. Qed.

Lemma isalpha_char_ok c : isalpha c = true -> char_ok c = true.
Proof. unfold char_ok. intros ->. apply orb_true_r. Qed.

Lemma isalpha_name_char c : isalpha c = true -> is_name_char c = true.
Proof. unfold is_name_char. by intros ->. Qed.

(** The maximal runs of letters of a text. *)
Fixpoint alpha_runs (s : string) : list string :=
  match s with
  | EmptyString => []
  | String c s' =>
      if isalpha c then
        if starts_with_alpha s' then
          match alpha_runs s' with
          | r :: rs => String c r :: rs
          | [] => [String c EmptyString]
          end
        else String c EmptyString :: alpha_runs s'
      else alpha_runs s'
  end.

(** An identifier that the restricted namespace does not bind and that
    the substitution loop does not touch. *)
Definition unbound_identifier (x : string) : Prop :=
  x <> "" /\ str_all isalpha x = true
  /\ (String.length x <= max_modelled_length)%nat
  /\ is_keyword x = false /\ x <> "math"
  /\ Forall (fun f => contains f x = false) allowed_functions.

Lemma py_eval_unbound x : unbound_identifier x -> py_eval x = Fails NameError.
Proof.
  intros (Hne & Halpha & Hlen & Hkw & Hmath & Hfun).
  unfold py_eval, isascii.
  rewrite (str_all_impl _ _ x isalpha_ascii Halpha). cbn [negb].
  destruct (Nat.ltb_spec max_modelled_length (String.length x)) as [?|_]; [lia|].
  destruct x as [|c x]; [done|].
  cbn [lex String.length].
  pose proof Halpha as Hcx. cbn [str_all] in Hcx.
  apply andb_true_iff in Hcx as [Hc Hx].
  rewrite (isalpha_not_digit _ Hc), Hc.
  rewrite (span_all is_name_char (String c x))
    by (eapply str_all_impl; [apply isalpha_name_char | exact Halpha]).
  rewrite Hkw.
  cbn. unfold lookup_name.
  destruct (String.eqb_spec (String c x) "math") as [?|_]; [done|].
  destruct (String.eqb_spec (String c x) "abs") as [Habs|_]; [|reflexivity].
  rewrite Habs in Hfun. unfold allowed_functions in Hfun.
  rewrite !Forall_cons in Hfun.
  destruct Hfun as (_ & _ & _ & _ & _ & Hfun & _). discriminate Hfun.
Qed.

Lemma safe_eval_unbound rt x :
  conforms rt -> unbound_identifier x ->
  exists msg, rt_eval rt x = Raise (Exn NameError msg)
    /\ safe_eval_expression rt x
       = Raise (Exn ValueError ("Invalid expression: " ++ msg)).
Proof.
  intros Hrt Hx.
  destruct (conforms_fails rt x NameError Hrt (py_eval_unbound x Hx)) as [msg Hmsg].
  exists msg. split; [exact Hmsg|].
  destruct Hx as (Hne & Halpha & Hlen & Hkw & Hmath & Hfun).
  rewrite safe_eval_valid; rewrite (remove_spaces_alpha x Halpha).
  - rewrite safe_expr_unchanged.
    + by rewrite Hmsg.
    + apply Hrt.
    + eapply Forall_impl; [exact Hfun|]. cbn. auto.
  - eapply str_all_impl; [apply isalpha_char_ok | exact Halpha].
Qed.

(** The text handed to [eval] by a conforming runtime, when no function
    name starts inside another: [math.] stands before every occurrence of
    a substituted name, wherever in an identifier the occurrence is. *)
Definition marked (clean : string) : string :=
  mark (List.filter (to_substitute clean) allowed_functions) clean.

Lemma safe_expr_marked rt clean :
  order_conforms rt -> overlap_free clean = true ->
  safe_expr_of rt clean = marked clean.
Proof. intros Hperm Hfree. by apply substitution_loop_marks. Qed.

Lemma safe_eval_marked rt expression :
  order_conforms rt ->
  str_all char_ok (remove_spaces expression) = true ->
  overlap_free (remove_spaces expression) = true ->
  safe_eval_expression rt expression
  = reported (v ← rt_eval rt (marked (remove_spaces expression));
              float_of_obj v).
Proof.
  intros Hperm Hok Hfree.
  rewrite safe_eval_valid by exact Hok.
  by rewrite safe_expr_marked.
Qed.

(** A text whose marked form the model evaluates. *)
Lemma safe_eval_modelled rt expression v :
  conforms rt ->
  str_all char_ok (remove_spaces expression) = true ->
  overlap_free (remove_spaces expression) = true ->
  py_eval (marked (remove_spaces expression)) = Done v ->
  safe_eval_expression rt expression = reported (float_of_obj v).
Proof.
  intros Hrt Hok Hfree Hv.
  rewrite safe_eval_marked by (apply Hrt || done).
  by rewrite (conforms_done rt _ v Hrt Hv).
Qed.

(** A text whose marked form the model sees fail. *)
Lemma safe_eval_fails rt expression k :
  conforms rt ->
  str_all char_ok (remove_spaces expression) = true ->
  overlap_free (remove_spaces expression) = true ->
  py_eval (marked (remove_spaces expression)) = Fails k ->
  raises ValueError (safe_eval_expression rt expression).
Proof.
  intros Hrt Hok Hfree Hk.
  rewrite safe_eval_marked by (apply Hrt || done).
  destruct (conforms_fails rt _ k Hrt Hk) as [msg ->]. by eexists.
Qed.

End SafeEval.

(** Evaluates [safe_eval_expression] on a closed text, for a conforming
    runtime. *)
Ltac eval_modelled rt_conforms :=
  lazymatch goal with
  | |- safe_eval_expression ?rt ?e = _ =>
      let o := eval vm_compute in (py_eval (marked (remove_spaces e))) in
      lazymatch o with
      | Done ?v =>
          rewrite (safe_eval_modelled rt e v rt_conforms);
          [ vm_compute; reflexivity
          | vm_compute; reflexivity
          | vm_compute; reflexivity
          | vm_compute; reflexivity ]
      end
  | |- raises ValueError (safe_eval_expression ?rt ?e) =>
      first
        [ rewrite (safe_eval_invalid rt e) by (vm_compute; reflexivity);
          by eexists
        | let o := eval vm_compute in (py_eval (marked (remove_spaces e))) in
          lazymatch o with
          | Fails ?k =>
              apply (safe_eval_fails rt e k rt_conforms);
              vm_compute; reflexivity
          end ]
  end.

(** *** The cases of the test suite, on every conforming runtime *)

Section TestSuite.
Context (rt : runtime) (Hrt : conforms rt).

Example test_safe_eval_basic_operations :
  safe_eval_expression rt "2 + 3" = Ok (F64.of_Z 5)
  /\ safe_eval_expression rt "10 - 4" = Ok (F64.of_Z 6)
  /\ safe_eval_expression rt "6 * 7" = Ok (F64.of_Z 42)
  /\ safe_eval_expression rt "15 / 3" = Ok (F64.of_Z 5)
  /\ safe_eval_expression rt "2 ** 3" = Ok (F64.of_Z 8).
Proof. repeat split; eval_modelled Hrt. Qed.

Example test_safe_eval_complex_expressions :
  safe_eval_expression rt "2 + 3 * 4" = Ok (F64.of_Z 14)
  /\ safe_eval_expression rt "(2 + 3) * 4" = Ok (F64.of_Z 20)
  /\ safe_eval_expression rt "2 * (3 + 4) - sqrt(16)" = Ok (F64.of_Z 10)
  /\ safe_eval_expression rt "1e2 + 50" = Ok (F64.of_Z 150).
Proof. repeat split; eval_modelled Hrt. Qed.

Example test_safe_eval_math_functions :
  safe_eval_expression rt "sqrt(16)" = Ok (F64.of_Z 4)
  /\ safe_eval_expression rt "abs(-5)" = Ok (F64.of_Z 5)
  /\ safe_eval_expression rt "sin(0)" = Ok (F64.of_Z 0)
  /\ safe_eval_expression rt "cos(0)" = Ok (F64.of_Z 1)
  /\ safe_eval_expression rt "log(1)" = Ok (F64.of_Z 0)
  /\ safe_eval_expression rt "sin(0) + cos(0) * sqrt(25)" = Ok (F64.of_Z 5).
Proof. repeat split; eval_modelled Hrt. Qed.

Example test_safe_eval_invalid_expressions :
  raises ValueError (safe_eval_expression rt "import os")
  /\ raises ValueError (safe_eval_expression rt "__import__('os')")
  /\ raises ValueError (safe_eval_expression rt "exec('print(1)')").
Proof. repeat split; eval_modelled Hrt. Qed.

(** What the substitution makes of some texts, and what comes of it:
    the comma of [pow(2,3)] does not pass the filter; a name written with
    its module is marked again and fails; [sinh] is marked as if it were
    [sin] and then names a function that [math] has. *)
Example substitution_is_by_substring :
  marked "sqrt(16)" = "math.sqrt(16)"
  /\ marked "math.sin(0)" = "math.math.sin(0)"
  /\ marked "sinh(0)" = "math.sinh(0)"
  /\ marked "asin(0)" = "amath.sin(0)"
  /\ raises ValueError (safe_eval_expression rt "pow(2,3)")
  /\ raises ValueError (safe_eval_expression rt "math.sin(0)")
  /\ raises ValueError (safe_eval_expression rt "asin(0)")
  /\ safe_eval_expression rt "sinh(0)" = Ok (F64.of_Z 0)
  /\ safe_eval_expression rt "math.fabs(2)" = Ok (F64.of_Z 2).
Proof.
  do 4 (split; [vm_compute; reflexivity|]).
  repeat split; eval_modelled Hrt.
Qed.

End TestSuite.

(** *** Identifiers reach [eval] *)

(** C1, as the specification states it, does not hold: the text [sinh(0)]
    has one letter run, [sinh], which is not an allowed function name and
    merely contains the allowed name [sin]; it is not rejected, before
    evaluation or after: it evaluates to [0.0].  So does [math.fabs(2)],
    where [fabs] contains [abs], to [2.0]. *)
Lemma identifier_containing_allowed_name_accepted :
  alpha_runs "sinh(0)" = ["sinh"]
  /\ ~ In "sinh" allowed_functions
  /\ contains "sin" "sinh" = true
  /\ safe_eval_expression reference_runtime "sinh(0)" = Ok (F64.of_Z 0)
  /\ alpha_runs "math.fabs(2)" = ["math"; "fabs"]
  /\ ~ In "fabs" allowed_functions
  /\ safe_eval_expression reference_runtime "math.fabs(2)" = Ok (F64.of_Z 2).
Proof.
  split; [reflexivity|].
  split; [cbn; intuition discriminate|].
  split; [reflexivity|].
  split; [apply substitution_is_by_substring, reference_runtime_conforms|].
  split; [reflexivity|].
  split; [cbn; intuition discriminate|].
  apply substitution_is_by_substring, reference_runtime_conforms.
Qed.

(** C1, amended.  Validation is by character only.  The expression is
    rejected with "Expression contains invalid characters", before any
    evaluation, exactly when one of its characters other than a space is
    neither one of [0123456789+-*/.()e] nor a letter; so it is whenever it
    has such an ASCII character.  Letter runs are not compared with the
    allowed function names: every other expression is handed to [eval]
    once the substitution loop has run over it, and is accepted with the
    value or rejected with "Invalid expression: ..." as [eval] decides; on
    a text in which no allowed name starts inside an occurrence of
    another, the loop puts [math.] in front of each occurrence, as a
    substring, of [sin], [cos], [tan], [log], [sqrt] and [pow].  For
    example a text of 1 to 80 ASCII letters that is no keyword, is not
    [math] and contains no allowed function name is rejected only there,
    by the [NameError] that [eval] raises. *)
Theorem validation_is_by_character rt expression :
  conforms rt ->
  (has_invalid_char expression = true ->
   safe_eval_expression rt expression
   = Raise (Exn ValueError "Expression contains invalid characters"))
  /\ (passes_filter rt expression = false <->
      safe_eval_expression rt expression
      = Raise (Exn ValueError "Expression contains invalid characters"))
  /\ (passes_filter rt expression = true ->
      safe_eval_expression rt expression
      = reported (v ← rt_eval rt (safe_expr_of rt (remove_spaces expression));
                  float_of_obj v))
  /\ (overlap_free (remove_spaces expression) = true ->
      safe_expr_of rt (remove_spaces expression)
      = marked (remove_spaces expression))
  /\ (unbound_identifier expression ->
      exists msg,
        rt_eval rt expression = Raise (Exn NameError msg)
        /\ safe_eval_expression rt expression
           = Raise (Exn ValueError ("Invalid expression: " ++ msg))).
Proof.
  intros Hrt. split; [|split; [|split; [|split]]].
  - apply safe_eval_invalid.
  - split; [apply safe_eval_refused|].
    destruct (passes_filter rt expression) eqn:Hpass; [|done].
    rewrite (safe_eval_passed _ _ Hpass).
    by destruct (_ ← rt_eval rt _; _).
  - apply safe_eval_passed.
  - apply safe_expr_marked, Hrt.
  - by apply safe_eval_unbound.
Qed.

Lemma validation_is_by_character_witness :
  safe_eval_expression reference_runtime "2; 3"
  = Raise (Exn ValueError "Expression contains invalid characters")
  /\ safe_eval_expression reference_runtime "sinh(0)"
     = reported (v ← rt_eval reference_runtime
                       (safe_expr_of reference_runtime "sinh(0)");
                 float_of_obj v)
  /\ safe_expr_of reference_runtime "sinh(0)" = "math.sinh(0)"
  /\ exists msg,
       rt_eval reference_runtime "importos" = Raise (Exn NameError msg)
       /\ safe_eval_expression reference_runtime "importos"
          = Raise (Exn ValueError ("Invalid expression: " ++ msg)).
Proof.
  split; [|split; [|split]].
  - apply (validation_is_by_character reference_runtime "2; 3"
             reference_runtime_conforms).
    vm_compute; reflexivity.
  - apply (validation_is_by_character reference_runtime "sinh(0)"
             reference_runtime_conforms); vm_compute; reflexivity.
  - apply (validation_is_by_character reference_runtime "sinh(0)"
             reference_runtime_conforms); vm_compute; reflexivity.
  - apply (validation_is_by_character reference_runtime "importos"
             reference_runtime_conforms).
    unfold unbound_identifier.
    repeat split; try discriminate; try (vm_compute; reflexivity).
    + vm_compute; lia.
    + repeat constructor.
Defined.

(** *** Results *)

(** [1e999] is a literal beyond the range of binary64: every conforming
    runtime evaluates it to infinity, and the server returns it. *)
Lemma huge_literal_is_infinity rt :
  conforms rt -> safe_eval_expression rt "1e999" = Ok F64.inf.
Proof. intros Hrt. eval_modelled Hrt. Qed.

(** C2, as the specification states it, does not hold: for the text
    [1e999] the evaluator returns a value that is not finite. *)
Lemma non_finite_result_returned :
  safe_eval_expression reference_runtime "1e999" = Ok F64.inf
  /\ F64.is_finite F64.inf = false.
Proof.
  split; [|reflexivity].
  apply huge_literal_is_infinity, reference_runtime_conforms.
Qed.

(** C2, amended.  For every input string, on every runtime,
    [safe_eval_expression] either returns the float that [float(eval(...))]
    produced (finite or not: no check is made) or raises a [ValueError];
    no exception of another class leaves it. *)
Theorem float_or_value_error rt expression :
  match safe_eval_expression rt expression with
  | Ok x =>
      exists v,
        rt_eval rt (safe_expr_of rt (remove_spaces expression)) = Ok v
        /\ float_of_obj v = Ok x
  | Raise e => exn_class e = ValueError
  end.
Proof.
  unfold safe_eval_expression. rewrite replace_space_spec.
  destruct (forallb _ _); cbn [negb]; [|reflexivity].
  destruct (rt_eval rt _) as [v|e]; cbn; [|reflexivity].
  destruct (float_of_obj v) as [x|e] eqn:Hv; [|reflexivity].
  by exists v.
Qed.

(** ** The calculation history *)

Section History.

Lemma append_assoc (a b c : string) : (a ++ b) ++ c = a ++ (b ++ c).
Proof.
  induction a as [|x a IH]; [reflexivity|].
  change (String x ((a ++ b) ++ c) = String x (a ++ (b ++ c))).
  by rewrite IH.
Qed.





(** A session in which [1+1] was calculated, then [2+2]. *)
Definition two_calculations : AppContext := {|
  calculation_history :=
    [ {| h_type := "calculation"; h_expression := "1+1";
         h_result := F64.of_Z 2; h_timestamp := "2025-01-01T10:00:00" |};
      {| h_type := "calculation"; h_expression := "2+2";
         h_result := F64.of_Z 4; h_timestamp := "2025-01-01T10:00:05" |} ]
|}.



(** The listing of [two_calculations], whatever [str] makes of a float. *)
Example history_of_two_calculations rt :
  get_calculation_history rt two_calculations
  = "Calculation History:" ++ nl ++ nl
    ++ "1. 1+1 = " ++ rt_float_str rt (F64.of_Z 2)
    ++ " (at 2025-01-01T10:00:00)" ++ nl
    ++ "2. 2+2 = " ++ rt_float_str rt (F64.of_Z 4)
    ++ " (at 2025-01-01T10:00:05)" ++ nl.
Proof.
  unfold get_calculation_history, two_calculations, last10, history_lines,
    history_line.
  cbn [calculation_history length drop Nat.sub Nat.ltb Nat.leb
       h_expression h_result h_timestamp].
  rewrite !append_assoc. reflexivity.
Qed.

(** ** [calculate] and the history *)

(** C4.  A call of [calculate] whose expression the evaluator rejects (one
    with a character outside the allowlist, for example) fails with the
    evaluator's error, a [ValueError], and leaves the calculation history
    unchanged; a call whose expression evaluates appends exactly one
    record, that of this calculation. *)
Theorem calculate_appends_on_success_only rt expression now ctx :
  (forall e,
     safe_eval_expression rt expression = Raise e ->
     calculate rt expression now ctx = (Raise e, ctx)
     /\ exn_class e = ValueError)
  /\ (forall x,
        safe_eval_expression rt expression = Ok x ->
        calculate rt expression now ctx
        = (Ok {| cr_expression := expression; cr_result := x;
                 cr_timestamp := now |},
           {| calculation_history :=
                (calculation_history ctx
                 ++ [ {| h_type := "calculation"; h_expression := expression;
                         h_result := x; h_timestamp := now |} ])%list |}))
  /\ (has_invalid_char expression = true ->
      calculate rt expression now ctx
      = (Raise (Exn ValueError "Expression contains invalid characters"), ctx)).
Proof.
  repeat split.
  - unfold calculate. by rewrite H.
  - by eapply safe_eval_error_class.
  - intros x Hx. unfold calculate. by rewrite Hx.
  - intros Hbad. unfold calculate. by rewrite safe_eval_invalid.
Qed.

Example test_calculate_tool :
  calculate reference_runtime "2 + 3" "2025-01-01T10:00:00"
            {| calculation_history := [] |}
  = (Ok {| cr_expression := "2 + 3"; cr_result := F64.of_Z 5;
           cr_timestamp := "2025-01-01T10:00:00" |},
     {| calculation_history :=
          [ {| h_type := "calculation"; h_expression := "2 + 3";
               h_result := F64.of_Z 5;
               h_timestamp := "2025-01-01T10:00:00" |} ] |}).
Proof. vm_compute. reflexivity. Qed.

End History.

(** ** Statistics *)

Section FloatEquality.

(** [==] identifies the two zeros and nothing else; a NaN equals nothing. *)
Definition canon (x : F64.float) : F64.float :=
  match x with
  | S754_zero _ => S754_zero false
  | _ => x
  end.

Lemma eqb_spec x y :
  F64.eqb x y = true
  <-> F64.is_nan x = false /\ F64.is_nan y = false /\ canon x = canon y.
Proof.
  unfold F64.eqb, SFeqb.
  destruct x as [sx|sx| |sx mx ex], y as [sy|sy| |sy my ey]; cbn;
    try (destruct sx); try (destruct sy); cbn;
    try (split; [discriminate | intros (? & ? & ?); discriminate]);
    try (split; [intros _; repeat split | reflexivity]).
  all: destruct (Z.compare_spec ex ey);
    try (split; [discriminate | intros (_ & _ & [= ? ?]); lia]).
  all: subst; rewrite ?Pos.compare_cont_spec; cbn.
  all: destruct (Pos.compare_spec mx my); cbn;
    try (split; [discriminate | intros (_ & _ & [= ?]); lia]).
  all: subst; split; auto.
Qed.

Lemma eqb_refl x : F64.is_nan x = false -> F64.eqb x x = true.
Proof. intros Hx. by apply eqb_spec. Qed.

Lemma eqb_sym x y : F64.eqb x y = F64.eqb y x.
Proof.
  destruct (F64.eqb x y) eqn:Hxy, (F64.eqb y x) eqn:Hyx; try reflexivity.
  - apply eqb_spec in Hxy as (? & ? & ?).
    assert (F64.eqb y x = true) by (by apply eqb_spec). congruence.
  - apply eqb_spec in Hyx as (? & ? & ?).
    assert (F64.eqb x y = true) by (by apply eqb_spec). congruence.
Qed.

Lemma eqb_trans x y z :
  F64.eqb x y = true -> F64.eqb y z = true -> F64.eqb x z = true.
Proof.
  intros (? & ? & ?)%eqb_spec (? & ? & ?)%eqb_spec.
  apply eqb_spec. repeat split; congruence.
Qed.

Lemma eqb_trans_false x y z :
  F64.eqb x y = true -> F64.eqb y z = false -> F64.eqb x z = false.
Proof.
  intros Hxy Hyz. destruct (F64.eqb x z) eqn:Hxz; [|reflexivity].
  rewrite eqb_sym in Hxy. by rewrite (eqb_trans y x z Hxy Hxz) in Hyz.
Qed.

End FloatEquality.

Section Mode.
Local Open Scope list_scope.

(** The number of elements of [l] equal ([==]) to [x]. *)
Fixpoint multiplicity (x : F64.float) (l : list F64.float) : nat :=
  match l with
  | [] => 0
  | y :: l' => ((if F64.eqb y x then 1 else 0) + multiplicity x l')%nat
  end.

Lemma multiplicity_app x l1 l2 :
  multiplicity x (l1 ++ l2) = (multiplicity x l1 + multiplicity x l2)%nat.
Proof. induction l1 as [|y l1 IH]; cbn; [reflexivity|]. rewrite IH. lia. Qed.

Lemma multiplicity_equiv x y l :
  F64.eqb x y = true -> multiplicity x l = multiplicity y l.
Proof.
  intros Hxy. induction l as [|z l IH]; cbn; [reflexivity|].
  rewrite IH. f_equal.
  destruct (F64.eqb z x) eqn:Hzx.
  - by rewrite (eqb_trans z x y Hzx Hxy).
  - destruct (F64.eqb z y) eqn:Hzy; [|reflexivity].
    rewrite eqb_sym in Hxy. by rewrite (eqb_trans z y x Hzy Hxy) in Hzx.
Qed.

(** Some key of [ks] equals [y]. *)
Definition covered (ks : list F64.float) (y : F64.float) : Prop :=
  Exists (fun k => F64.eqb y k = true) ks.

(** No two keys are equal. *)
Fixpoint distinct (ks : list F64.float) : Prop :=
  match ks with
  | [] => True
  | k :: ks' => Forall (fun k' => F64.eqb k k' = false) ks' /\ distinct ks'
  end.

Lemma distinct_snoc ks x :
  distinct ks -> Forall (fun k => F64.eqb k x = false) ks -> distinct (ks ++ [x]).
Proof.
  induction ks as [|k ks IH]; cbn; [by auto|].
  intros [Hk Hks] [Hkx Hx]%Forall_cons. split; [|by apply IH].
  apply Forall_app. split; [exact Hk|]. by constructor.
Qed.

Lemma distinct_app_inv ks1 k ks2 :
  distinct (ks1 ++ k :: ks2) ->
  Forall (fun k' => F64.eqb k' k = false) ks1
  /\ Forall (fun k' => F64.eqb k k' = false) ks2.
Proof.
  induction ks1 as [|k1 ks1 IH]; cbn.
  - intros [Hk _]. by split.
  - intros [[_ [Hk1 _]%Forall_cons]%Forall_app Hd].
    destruct (IH Hd) as [H1 H2]. split; [|exact H2].
    by constructor.
Qed.

(** [counter_add] either bumps the first key equal to [x] or, when there
    is none, appends [x] with count one. *)
Lemma counter_add_cases x c :
  (exists c1 k n c2,
      c = c1 ++ (k, n) :: c2 /\ F64.eqb x k = true
      /\ Forall (fun kv => F64.eqb x kv.1 = false) c1
      /\ counter_add x c = c1 ++ (k, S n) :: c2)
  \/ (Forall (fun kv => F64.eqb x kv.1 = false) c
      /\ counter_add x c = c ++ [(x, 1%nat)]).
Proof.
  induction c as [|[k n] c IH]; cbn [counter_add].
  - right. by split.
  - destruct (F64.eqb x k) eqn:Hxk.
    + left. exists [], k, n, c. by repeat split.
    + destruct IH as [(c1 & k' & n' & c2 & -> & Hk' & Hc1 & ->) | [Hc ->]].
      * left. exists ((k, n) :: c1), k', n', c2. repeat split; try done.
        by constructor.
      * right. split; [by constructor | reflexivity].
Qed.

Lemma counter_snoc l x : counter (l ++ [x]) = counter_add x (counter l).
Proof. unfold counter. by rewrite fold_left_app. Qed.

(** What [Counter] holds after [l]: a key for every element, no key
    twice, with every key its multiplicity, keys in order of first
    occurrence. *)
Record counter_inv (l : list F64.float) (c : list (F64.float * nat)) : Prop := {
  inv_cover : Forall (covered c.*1) l;
  inv_distinct : distinct c.*1;
  inv_count : Forall (fun kv => kv.2 = multiplicity kv.1 l) c;
  inv_order : forall ks1 k ks2,
    c.*1 = ks1 ++ k :: ks2 ->
    exists p rest, l = p ++ k :: rest /\ Forall (covered ks1) p
}.

Lemma covered_mono ks ks' y :
  (forall k, k ∈ ks -> k ∈ ks') -> covered ks y -> covered ks' y.
Proof.
  unfold covered. rewrite !Exists_exists. intros Hsub (k & Hk & Hy). eauto.
Qed.

Lemma Forall_elem {A} (P : A -> Prop) (l : list A) (x : A) :
  Forall P l -> x ∈ l -> P x.
Proof. intros H. by apply Forall_forall. Qed.

(** No element of [l] equals [x] when no key does. *)
Lemma multiplicity_uncovered x l ks :
  Forall (covered ks) l -> Forall (fun k => F64.eqb x k = false) ks ->
  multiplicity x l = 0%nat.
Proof.
  intros Hcov Hx. induction Hcov as [|y l Hy _ IH]; [reflexivity|].
  cbn. rewrite IH.
  destruct (F64.eqb y x) eqn:Hyx; [|reflexivity].
  apply Exists_exists in Hy as (k & Hk & Hyk).
  pose proof (Forall_elem _ _ _ Hx Hk) as Hxk. cbn in Hxk.
  rewrite eqb_sym in Hyx. by rewrite (eqb_trans x y k Hyx Hyk) in Hxk.
Qed.

Lemma counter_invariant l :
  Forall (fun x => F64.is_nan x = false) l -> counter_inv l (counter l).
Proof.
  induction l as [|x l IH] using rev_ind; intros Hnan.
  { split; cbn; try done. intros [|??] ???; discriminate. }
  apply Forall_app in Hnan as [Hl [Hx _]%Forall_cons].
  specialize (IH Hl). destruct IH as [Hcov Hdist Hcnt Hord].
  rewrite counter_snoc.
  destruct (counter_add_cases x (counter l))
    as [(c1 & k & n & c2 & Hc & Hxk & Hc1 & ->) | [Hc ->]].
  - (* [x] equals the key [k]: its count goes up *)
    assert (Hkeys : (c1 ++ (k, S n) :: c2).*1 = (counter l).*1).
    { rewrite Hc, !fmap_app. reflexivity. }
    split; rewrite ?Hkeys.
    + apply Forall_app. split; [exact Hcov|]. constructor; [|constructor].
      rewrite Hc, fmap_app. apply Exists_app. right. by constructor.
    + exact Hdist.
    + rewrite Hc in Hcnt, Hdist. rewrite fmap_app in Hdist. cbn in Hdist.
      apply distinct_app_inv in Hdist as [Hd1 Hd2].
      apply Forall_app in Hcnt as [Hn1 [Hn Hn2]%Forall_cons].
      apply Forall_app. split; [|constructor].
      * apply Forall_forall. intros kv Hkv.
        rewrite multiplicity_app, <- (Forall_elem _ _ _ Hn1 Hkv). cbn.
        rewrite (Forall_elem _ _ _ Hc1 Hkv). lia.
      * cbn in *. rewrite multiplicity_app, <- Hn. cbn. rewrite Hxk. lia.
      * apply Forall_forall. intros kv Hkv.
        rewrite multiplicity_app, <- (Forall_elem _ _ _ Hn2 Hkv). cbn.
        rewrite (eqb_trans_false x k kv.1 Hxk); [lia|].
        apply (Forall_elem _ _ _ Hd2). by apply list_elem_of_fmap_2.
    + intros ks1 k' ks2 Hk'. destruct (Hord ks1 k' ks2 Hk') as (p & rest & -> & Hp).
      exists p, (rest ++ [x]). split; [by rewrite <- app_assoc|exact Hp].
  - (* [x] is new: it becomes the last key *)
    assert (Hnew : Forall (fun k => F64.eqb x k = false) (counter l).*1).
    { apply Forall_forall. intros k [kv [-> Hkv]]%list_elem_of_fmap.
      exact (Forall_elem _ _ _ Hc Hkv). }
    split; rewrite ?fmap_app; cbn [fmap list_fmap fst].
    + apply Forall_app. split.
      * eapply Forall_impl; [exact Hcov|]. intros y. apply covered_mono.
        intros k Hk. apply elem_of_app. by left.
      * constructor; [|constructor]. apply Exists_app. right.
        constructor. by apply eqb_refl.
    + apply distinct_snoc; [exact Hdist|].
      eapply Forall_impl; [exact Hnew|]. intros k Hk. cbn in *.
      by rewrite eqb_sym.
    + apply Forall_app. split.
      * apply Forall_forall. intros kv Hkv.
        rewrite multiplicity_app, <- (Forall_elem _ _ _ Hcnt Hkv). cbn.
        rewrite (Forall_elem _ _ _ Hc Hkv). lia.
      * constructor; [|constructor]. cbn.
        rewrite multiplicity_app. cbn. rewrite (eqb_refl x Hx).
        by rewrite (multiplicity_uncovered x l _ Hcov Hnew).
    + intros ks1 k ks2 Hk.
      destruct ks2 as [|k2 ks2 _] using rev_ind.
      * apply app_inj_tail in Hk as [<- <-].
        exists l, []. split; [reflexivity|exact Hcov].
      * rewrite app_comm_cons, app_assoc in Hk.
        apply app_inj_tail in Hk as [Hk _].
        destruct (Hord ks1 k ks2 Hk) as (p & rest & -> & Hp).
        exists p, (rest ++ [x]). split; [by rewrite <- app_assoc|exact Hp].
Qed.

(** [max_count] returns the first item of greatest count: the items
    before it have smaller counts, those after it none greater. *)
Lemma max_count_spec pre best mid items :
  Forall (fun kv : F64.float * nat => (kv.2 < best.2)%nat) pre ->
  Forall (fun kv : F64.float * nat => (kv.2 <= best.2)%nat) mid ->
  exists c1 c2,
    pre ++ best :: mid ++ items = c1 ++ max_count best items :: c2
    /\ Forall (fun kv => (kv.2 < (max_count best items).2)%nat) c1
    /\ Forall (fun kv => (kv.2 <= (max_count best items).2)%nat) c2.
Proof.
  revert pre best mid.
  induction items as [|it items IH]; intros pre best mid Hpre Hmid;
    cbn [max_count].
  - exists pre, mid. by rewrite app_nil_r.
  - destruct (best.2 <? it.2)%nat eqn:Hcmp;
      [apply Nat.ltb_lt in Hcmp as Hlt | apply Nat.ltb_ge in Hcmp as Hge].
    + destruct (IH (pre ++ best :: mid) it []) as (c1 & c2 & Heq & H1 & H2).
      * apply Forall_app. split; [|constructor].
        -- eapply Forall_impl; [exact Hpre|]. cbn. lia.
        -- exact Hlt.
        -- eapply Forall_impl; [exact Hmid|]. cbn. lia.
      * constructor.
      * exists c1, c2. split; [|by split].
        rewrite <- Heq. by rewrite <- app_assoc.
    + destruct (IH pre best (mid ++ [it])) as (c1 & c2 & Heq & H1 & H2).
      * exact Hpre.
      * apply Forall_app. split; [exact Hmid|]. by constructor.
      * exists c1, c2. split; [|by split].
        rewrite <- Heq. by rewrite <- app_assoc.
Qed.

Lemma counter_nonempty l : l <> [] -> counter l <> [].
Proof.
  destruct l as [|x l _] using rev_ind; [done|]. intros _.
  rewrite counter_snoc.
  destruct (counter_add_cases x (counter l))
    as [(c1 & k & n & c2 & _ & _ & _ & ->) | [_ ->]];
    by destruct c1 || by destruct (counter l).
Qed.

(** On data without NaN, [statistics.mode] returns the first encountered
    of the most common values: what stands before it in the data is
    strictly less frequent, what stands after it is not more frequent. *)
Lemma stats_mode_spec rt l :
  l <> [] ->
  exists r,
    stats_mode rt l = Ok r
    /\ (Forall (fun x => F64.is_nan x = false) l ->
        exists p rest,
          l = p ++ r :: rest
          /\ Forall (fun y => (multiplicity y l < multiplicity r l)%nat) p
          /\ Forall (fun y => (multiplicity y l <= multiplicity r l)%nat) rest).
Proof.
  intros Hl. unfold stats_mode.
  destruct (counter l) as [|it items] eqn:Hc; [by apply counter_nonempty in Hc|].
  destruct (existsb F64.is_nan l) eqn:Hex.
  { eexists. split; [reflexivity|]. intros Hnan.
    apply existsb_exists in Hex as (x & Hx%list_elem_of_In & Hxn).
    by rewrite (Forall_elem _ _ _ Hnan Hx) in Hxn. }
  eexists. split; [reflexivity|]. intros Hnan.
  destruct (counter_invariant l Hnan) as [Hcov Hdist Hcnt Hord].
  rewrite Hc in *.
  destruct (max_count_spec [] it [] items) as (c1 & c2 & Heq & H1 & H2);
    [constructor..|].
  cbn [app] in Heq. set (r := max_count it items) in *.
  rewrite Heq in *.
  destruct (Hord c1.*1 r.1 c2.*1) as (p & rest & Hp & Hcp);
    [by rewrite fmap_app|].
  assert (Hr : r.2 = multiplicity r.1 l).
  { apply (Forall_elem _ _ _ Hcnt). apply elem_of_app. right. by left. }
  exists p, rest. split; [exact Hp|]. split.
  - eapply Forall_impl; [exact Hcp|]. intros y Hy. cbn.
    apply Exists_exists in Hy as (k & [kv [-> Hkv]]%list_elem_of_fmap & Hyk).
    rewrite (multiplicity_equiv y kv.1 l Hyk), <- Hr.
    rewrite <- (Forall_elem _ _ kv Hcnt)
      by (apply elem_of_app; by left).
    exact (Forall_elem _ _ _ H1 Hkv).
  - apply Forall_forall. intros y Hy.
    assert (Hyl : y ∈ l).
    { rewrite Hp. apply elem_of_app. right. by right. }
    pose proof (Forall_elem _ _ _ Hcov Hyl) as Hk.
    apply Exists_exists in Hk as (k & [kv [-> Hkv]]%list_elem_of_fmap & Hyk).
    rewrite (multiplicity_equiv y kv.1 l Hyk), <- Hr.
    rewrite <- (Forall_elem _ _ _ Hcnt Hkv).
    apply elem_of_app in Hkv as [Hkv | [-> | Hkv]%elem_of_cons].
    + pose proof (Forall_elem _ _ _ H1 Hkv). cbn in *. lia.
    + lia.
    + exact (Forall_elem _ _ _ H2 Hkv).
Qed.

(** Data without a unique mode: two different values share the highest
    multiplicity. *)
Definition no_unique_mode (l : list F64.float) : Prop :=
  exists x y,
    x ∈ l /\ y ∈ l /\ F64.eqb x y = false
    /\ multiplicity x l = multiplicity y l
    /\ Forall (fun z => (multiplicity z l <= multiplicity x l)%nat) l.

(** The data [1, 1, 2, 2]. *)
Definition tied_data : list F64.float :=
  [F64.of_Z 1; F64.of_Z 1; F64.of_Z 2; F64.of_Z 2].

(** C5, as the specification states it, does not hold: in [1, 1, 2, 2]
    the values 1 and 2 are tied for the highest multiplicity, and the
    operation "mode" returns 1 instead of failing. *)
Lemma tied_data_has_a_mode :
  no_unique_mode tied_data
  /\ statistics reference_runtime tied_data "mode"
     = Ok {| sr_operation := "mode"; sr_input_data := tied_data;
             sr_result := F64.of_Z 1; sr_count := 4 |}.
Proof.
  split; [|vm_compute; reflexivity].
  exists (F64.of_Z 1), (F64.of_Z 2).
  repeat split; try (vm_compute; reflexivity).
  - by left.
  - right. right. by left.
  - repeat constructor.
Qed.

(** C5, amended.  For every non-empty list of numbers, with a unique mode
    or not, the operation "mode" returns a value and does not fail; on
    data without NaN the value is the first encountered of the most common
    values: every number that stands before its first occurrence is
    strictly less frequent, and no number is more frequent. *)
Theorem mode_is_first_most_common rt numbers :
  numbers <> [] ->
  exists r,
    statistics rt numbers "mode"
    = Ok {| sr_operation := "mode"; sr_input_data := numbers;
            sr_result := r; sr_count := length numbers |}
    /\ (Forall (fun x => F64.is_nan x = false) numbers ->
        exists p rest,
          numbers = p ++ r :: rest
          /\ Forall (fun y => (multiplicity y numbers < multiplicity r numbers)%nat) p
          /\ Forall (fun y => (multiplicity y numbers <= multiplicity r numbers)%nat) rest).
Proof.
  intros Hne. destruct (stats_mode_spec rt numbers Hne) as (r & Hr & Hfirst).
  exists r. split; [|exact Hfirst].
  unfold statistics. destruct numbers as [|x numbers]; [done|].
  cbn [operations dict_get String.eqb Ascii.eqb Bool.eqb].
  by rewrite Hr.
Qed.

Lemma mode_is_first_most_common_witness :
  exists r,
    statistics reference_runtime tied_data "mode"
    = Ok {| sr_operation := "mode"; sr_input_data := tied_data;
            sr_result := r; sr_count := length tied_data |}
    /\ (Forall (fun x => F64.is_nan x = false) tied_data ->
        exists p rest,
          tied_data = p ++ r :: rest
          /\ Forall (fun y => (multiplicity y tied_data < multiplicity r tied_data)%nat) p
          /\ Forall (fun y => (multiplicity y tied_data <= multiplicity r tied_data)%nat) rest).
Proof.
  apply (mode_is_first_most_common reference_runtime tied_data).
  discriminate.
Defined.

(** C7.  [statistics] fails with the [ValueError] "Cannot calculate
    statistics on empty list" on every empty input, whatever the
    operation asked for (known or not); on every one-element list the
    operations "std_dev" and "variance" succeed and return 0. *)
Theorem statistics_empty_and_singleton rt :
  (forall operation,
     statistics rt [] operation
     = Raise (Exn ValueError "Cannot calculate statistics on empty list"))
  /\ (forall x,
        statistics rt [x] "std_dev"
        = Ok {| sr_operation := "std_dev"; sr_input_data := [x];
                sr_result := F64.of_Z 0; sr_count := 1 |})
  /\ (forall x,
        statistics rt [x] "variance"
        = Ok {| sr_operation := "variance"; sr_input_data := [x];
                sr_result := F64.of_Z 0; sr_count := 1 |}).
Proof. repeat split. Qed.

Example test_statistical_edge_cases :
  statistics reference_runtime [F64.of_decimal 420 (-1)] "std_dev"
  = Ok {| sr_operation := "std_dev";
          sr_input_data := [F64.of_decimal 420 (-1)];
          sr_result := F64.pos_zero; sr_count := 1 |}
  /\ raises ValueError (statistics reference_runtime [] "mean")
  /\ raises ValueError
       (statistics reference_runtime [F64.of_Z 1; F64.of_Z 2; F64.of_Z 3]
                   "invalid_op").
Proof. repeat split; by eexists. Qed.

End Mode.

(** ** Unit conversion *)

Section LowerCase.

Lemma lower_char_idem c : lower_char (lower_char c) = lower_char c.
Proof. destruct c as [[] [] [] [] [] [] [] []]; reflexivity. Qed.

Lemma lower_idem s : lower (lower s) = lower s.
Proof.
  induction s as [|c s IH]; [reflexivity|].
  cbn [lower]. by rewrite lower_char_idem, IH.
Qed.

Lemma lower_char_ascii c : is_ascii_char (lower_char c) = is_ascii_char c.
Proof. destruct c as [[] [] [] [] [] [] [] []]; reflexivity. Qed.

Lemma lower_isascii s : isascii (lower s) = isascii s.
Proof.
  unfold isascii. induction s as [|c s IH]; [reflexivity|].
  cbn [lower str_all]. by rewrite lower_char_ascii, IH.
Qed.

(** On an ASCII text [s.lower()] is the lower-casing of its letters. *)
Lemma str_lower_ascii rt s : isascii s = true -> str_lower rt s = lower s.
Proof. unfold str_lower. by intros ->. Qed.

(** Two texts that differ in the case of ASCII letters only have the same
    [lower()]. *)
Lemma str_lower_case rt s s' :
  lower s = lower s' -> str_lower rt s = str_lower rt s'.
Proof.
  intros Heq. unfold str_lower.
  rewrite <- (lower_isascii s), <- (lower_isascii s'). by rewrite Heq.
Qed.

Lemma str_lower_lower rt s : str_lower rt (lower s) = str_lower rt s.
Proof. apply str_lower_case, lower_idem. Qed.

(** The ASCII texts that lower-case to a lower-case letter [c]: the letter
    and its capital. *)
Lemma lower_is_letter c s :
  is_lower c = true ->
  lower s = String c EmptyString
  <-> s = String c EmptyString
      \/ s = String (ascii_of_nat (nat_of_ascii c - 32)) EmptyString.
Proof.
  intros Hc. destruct s as [|d [|d' s]]; cbn [lower].
  - split; [discriminate | by intros [|]].
  - split.
    + intros [= Hd]. subst c. revert Hc.
      destruct d as [[] [] [] [] [] [] [] []]; vm_compute; intros; auto;
        discriminate.
    + intros [[= ->] | [= ->]]; f_equal; revert Hc;
        destruct c as [[] [] [] [] [] [] [] []]; vm_compute; intros; auto;
        discriminate.
  - split; [discriminate | by intros [|]].
Qed.

End LowerCase.

Section Temperature.
Context {N : Type} `{Number N}.
Context (rt : runtime).

(** The three temperature scales, and the scale a unit code stands for:
    the code is lower-cased, ["f"] and ["k"] are recognised, and every
    other code is read as Celsius. *)
Inductive scale : Set := Celsius | Fahrenheit | Kelvin.

Definition scale_of (code : string) : scale :=
  if String.eqb (str_lower rt code) "f" then Fahrenheit
  else if String.eqb (str_lower rt code) "k" then Kelvin
  else Celsius.

(** The formulas of the specification, through the Celsius pivot. *)
Definition to_celsius (u : scale) (v : N) : N :=
  match u with
  | Fahrenheit => n_div (n_mul (n_sub v (lit 32 0)) (lit 5 0)) (lit 9 0)
  | Kelvin => n_sub v (lit 27315 (-2))
  | Celsius => v
  end.

Definition of_celsius (u : scale) (c : N) : N :=
  match u with
  | Fahrenheit => n_add (n_div (n_mul c (lit 9 0)) (lit 5 0)) (lit 32 0)
  | Kelvin => n_add c (lit 27315 (-2))
  | Celsius => c
  end.

Lemma convert_temperature_pivot (v : N) from_unit to_unit :
  convert_temperature rt v from_unit to_unit
  = of_celsius (scale_of to_unit) (to_celsius (scale_of from_unit) v).
Proof.
  unfold convert_temperature, scale_of.
  destruct (String.eqb (str_lower rt from_unit) "f"),
    (String.eqb (str_lower rt from_unit) "k"),
    (String.eqb (str_lower rt to_unit) "f"),
    (String.eqb (str_lower rt to_unit) "k");
    reflexivity.
Qed.

(** The ASCII codes of the scales. *)
Lemma scale_of_ascii code :
  isascii code = true ->
  (scale_of code = Fahrenheit <-> code = "f" \/ code = "F")
  /\ (scale_of code = Kelvin <-> code = "k" \/ code = "K").
Proof.
  intros Hascii. unfold scale_of. rewrite (str_lower_ascii rt code Hascii).
  pose proof (lower_is_letter "f" code eq_refl) as Hf.
  pose proof (lower_is_letter "k" code eq_refl) as Hk.
  change (ascii_of_nat (nat_of_ascii "f" - 32)) with "F"%char in Hf.
  change (ascii_of_nat (nat_of_ascii "k" - 32)) with "K"%char in Hk.
  rewrite <- Hf, <- Hk.
  destruct (String.eqb_spec (lower code) "f") as [Ef|Ef];
    destruct (String.eqb_spec (lower code) "k") as [Ek|Ek];
    split; split; try done; try congruence.
Qed.

End Temperature.

(** C6.  On floats, for every value and all unit codes,
    [convert_temperature] is the conversion through Celsius by the
    formulas of the specification.  The scale of a code is read off its
    [lower()], so without regard to case: two codes that differ in the
    case of their letters only stand for the same scale, and among the
    ASCII codes [f] and [F] stand for Fahrenheit, [k] and [K] for Kelvin
    and all others for Celsius.  A code whose [lower()] is neither [f] nor
    [k] is read as Celsius (the function has no failing path); and the
    four documented values hold exactly. *)
Theorem convert_temperature_spec rt :
  (forall (v : F64.float) from_unit to_unit,
     convert_temperature rt v from_unit to_unit
     = of_celsius (scale_of rt to_unit) (to_celsius (scale_of rt from_unit) v))
  /\ (forall code code',
        lower code = lower code' -> scale_of rt code = scale_of rt code')
  /\ (forall code,
        isascii code = true ->
        (scale_of rt code = Fahrenheit <-> code = "f" \/ code = "F")
        /\ (scale_of rt code = Kelvin <-> code = "k" \/ code = "K"))
  /\ (forall code,
        str_lower rt code <> "f" -> str_lower rt code <> "k" ->
        scale_of rt code = Celsius)
  /\ convert_temperature rt (F64.of_Z 0) "c" "f" = F64.of_Z 32
  /\ convert_temperature rt (F64.of_Z 100) "c" "f" = F64.of_Z 212
  /\ convert_temperature rt (F64.of_Z 32) "f" "c" = F64.of_Z 0
  /\ convert_temperature rt (F64.of_Z 0) "c" "k" = F64.of_decimal 27315 (-2).
Proof.
  split; [apply convert_temperature_pivot|].
  split.
  { intros code code' Heq. unfold scale_of.
    by rewrite (str_lower_case rt code code' Heq). }
  split; [apply scale_of_ascii|].
  split.
  - intros code Hf Hk. unfold scale_of.
    destruct (String.eqb_spec (str_lower rt code) "f"); [done|].
    by destruct (String.eqb_spec (str_lower rt code) "k").
  - repeat split; vm_compute; reflexivity.
Qed.

Section UnitTypes.
Context {N : Type} `{Number N}.
Context (rt : runtime).

Lemma conversions_lookup_other unit_type :
  unit_type <> "length" -> unit_type <> "weight" ->
  (conversions (N := N)) !! unit_type = None.
Proof.
  intros Hl Hw. unfold conversions.
  rewrite lookup_insert_ne by done.
  by rewrite lookup_singleton_ne.
Qed.

(** C10.  [unit_type] is compared as it is written: a call whose
    [unit_type] is not exactly "temperature", "length" or "weight" fails
    with the unknown-unit-type [ValueError], whatever the value and the
    unit symbols. *)
Theorem unit_type_is_case_sensitive (value : N) from_unit to_unit unit_type :
  unit_type <> "temperature" -> unit_type <> "length" -> unit_type <> "weight" ->
  convert_units rt value from_unit to_unit unit_type
  = Raise (Exn ValueError
      ("Unknown unit type '" ++ unit_type
       ++ "'. Available: length, weight, temperature")).
Proof.
  intros Ht Hl Hw. unfold convert_units.
  destruct (String.eqb_spec unit_type "temperature"); [done|].
  by rewrite conversions_lookup_other.
Qed.

End UnitTypes.

(** The unit symbols [M] and [KM] are accepted (they are lower-cased);
    the unit type [Length] is not. *)
Lemma unit_type_is_case_sensitive_witness :
  convert_units reference_runtime (F64.of_Z 1) "M" "KM" "Length"
  = Raise (Exn ValueError
      ("Unknown unit type '" ++ "Length"
       ++ "'. Available: length, weight, temperature")).
Proof.
  apply (unit_type_is_case_sensitive reference_runtime (F64.of_Z 1)
           "M" "KM" "Length");
    discriminate.
Defined.

Example test_unit_conversion_case_insensitivity rt :
  convert_units rt (F64.of_Z 1) "M" "KM" "length"
  = Ok {| original_value := F64.of_Z 1; original_unit := "M";
          converted_value := F64.of_decimal 1 (-3); target_unit := "KM";
          conversion_type := "length" |}.
Proof. vm_compute. reflexivity. Qed.

Example test_convert_units_tool rt :
  convert_units rt (F64.of_Z 100) "cm" "m" "length"
  = Ok {| original_value := F64.of_Z 100; original_unit := "cm";
          converted_value := F64.of_Z 1; target_unit := "m";
          conversion_type := "length" |}
  /\ raises ValueError (convert_units rt (F64.of_Z 100) "cm" "m" "invalid_type").
Proof. split; [vm_compute; reflexivity | by eexists]. Qed.

(** ** Rounding error *)

(** What the round trips of [convert_units] need of binary64 arithmetic:
    away from overflow and underflow each of [+ - * /] returns the exact
    result up to a relative error of [2^-52].  The floats are read as
    rationals ([to_Q]); a bound on the exponent of every intermediate
    result keeps the roundings in the normal range. *)

Section Mantissa.

(** The number of bits of a mantissa, and what the shifts of the
    rounding do to it. *)

Lemma digits2_size p : digits2_pos p = Pos.size p.
Proof. induction p as [p IH|p IH|]; cbn; congruence. Qed.

Lemma digits2_bounds p :
  2 ^ (Zpos (digits2_pos p) - 1) <= Zpos p < 2 ^ Zpos (digits2_pos p).
Proof.
  rewrite digits2_size. split.
  - pose proof (Pos.size_le p) as Hle.
    apply Pos2Z.pos_le_pos in Hle. rewrite Pos2Z.inj_pow in Hle.
    replace (Zpos (Pos.size p)) with (Z.succ (Zpos (Pos.size p) - 1)) in Hle by lia.
    rewrite Z.pow_succ_r in Hle by lia. lia.
  - pose proof (Pos.size_gt p) as Hgt.
    apply Pos2Z.pos_lt_pos in Hgt. by rewrite Pos2Z.inj_pow in Hgt.
Qed.

Lemma digits2_unique p d :
  2 ^ (d - 1) <= Zpos p < 2 ^ d -> Zpos (digits2_pos p) = d.
Proof.
  intros [Hlo Hhi]. pose proof (digits2_bounds p) as [Hlo' Hhi'].
  set (d' := Zpos (digits2_pos p)) in *.
  assert (Hd' : 0 < d') by (unfold d'; lia).
  destruct (Z.lt_trichotomy d' d) as [Hlt | [Heq | Hgt]]; [|exact Heq|].
  - assert (2 ^ d' <= 2 ^ (d - 1)) by (apply Z.pow_le_mono_r; lia). lia.
  - assert (d < 0 \/ 0 <= d) as [Hneg | Hpos] by lia.
    + rewrite (Z.pow_neg_r 2 d) in Hhi by lia. lia.
    + assert (2 ^ d <= 2 ^ (d' - 1)) by (apply Z.pow_le_mono_r; lia). lia.
Qed.

Lemma shr_1_m mrs : 0 <= shr_m mrs -> shr_m (shr_1 mrs) = shr_m mrs / 2.
Proof.
  destruct mrs as [[|[p|p|]|p] r s]; cbn [shr_1 shr_m]; intros Hm; try lia.
  - reflexivity.
  - apply (Z.div_unique _ _ _ 1); lia.
  - apply (Z.div_unique _ _ _ 0); lia.
  - reflexivity.
Qed.

Lemma iter_shr_m k : forall mrs,
  0 <= shr_m mrs ->
  shr_m (SpecFloat.iter_pos shr_1 k mrs) = shr_m mrs / 2 ^ Zpos k.
Proof.
  induction k as [k IH|k IH|]; intros mrs Hm; cbn [SpecFloat.iter_pos].
  - assert (H1 : 0 <= shr_m (shr_1 mrs)).
    { rewrite shr_1_m by done. apply Z.div_pos; lia. }
    assert (H2 : 0 <= shr_m (SpecFloat.iter_pos shr_1 k (shr_1 mrs))).
    { rewrite IH by done. apply Z.div_pos; [done|]. apply Z.pow_pos_nonneg; lia. }
    rewrite IH, IH, shr_1_m by done.
    rewrite !Z.div_div by (try apply Z.pow_pos_nonneg; lia).
    f_equal.
    assert (E : 2 ^ Zpos k~1 = 2 * 2 ^ Zpos k * 2 ^ Zpos k).
    { rewrite <- Z.mul_assoc, <- Z.pow_add_r, <- Z.pow_succ_r by lia. f_equal. lia. }
    rewrite E. lia.
  - assert (H2 : 0 <= shr_m (SpecFloat.iter_pos shr_1 k mrs)).
    { rewrite IH by done. apply Z.div_pos; [done|]. apply Z.pow_pos_nonneg; lia. }
    rewrite IH, IH by done.
    rewrite !Z.div_div by (try apply Z.pow_pos_nonneg; lia).
    f_equal.
    assert (E : 2 ^ Zpos k~0 = 2 ^ Zpos k * 2 ^ Zpos k).
    { rewrite <- Z.pow_add_r by lia. f_equal. lia. }
    rewrite E. lia.
  - by apply shr_1_m.
Qed.

Lemma shr_spec mrs e n :
  0 <= shr_m mrs -> 0 <= n ->
  shr_m (fst (shr mrs e n)) = shr_m mrs / 2 ^ n /\ snd (shr mrs e n) = e + n.
Proof.
  intros Hm Hn. destruct n as [|k|k]; cbn [shr fst snd]; try lia.
  - rewrite Z.div_1_r. split; [reflexivity | lia].
  - split; [by apply iter_shr_m | reflexivity].
Qed.

Lemma shr_record_of_loc_m m l : shr_m (shr_record_of_loc m l) = m.
Proof. by destruct l as [|[]]. Qed.

Lemma round_nearest_even_cases m l :
  round_nearest_even m l = m \/ round_nearest_even m l = m + 1.
Proof. destruct l as [|[]]; cbn; try destruct (Z.even m); auto. Qed.

End Mantissa.

(** One rounding, on integers.  A mantissa of [d >= 53] bits whose
    rounded value is neither subnormal nor out of range is rounded to a
    mantissa of 53 bits, at an exponent raised by [d - 53] or one more,
    and the result is one of the two neighbours of the value at that
    precision.  (Which of the two is the work of the rounding mode; the
    bounds below need no more than this.) *)
Lemma round_core s m e l :
  let d := Zpos (digits2_pos m) in
  53 <= d -> -1074 <= d + e - 53 -> d + e - 53 <= 970 ->
  exists m3 e3,
    binary_round_aux F64.prec F64.emax s (Zpos m) e l = S754_finite s m3 e3
    /\ 2 ^ 52 <= Zpos m3 < 2 ^ 53
    /\ d + e - 53 <= e3 <= d + e - 52
    /\ Zpos m3 * 2 ^ (e3 - e) - 2 ^ (d - 53) <= Zpos m
    /\ Zpos m + 1 <= Zpos m3 * 2 ^ (e3 - e) + 2 ^ (d - 53).
Proof.
  intros d Hd Hlo Hhi.
  pose proof (digits2_bounds m) as [Hm1 Hm2]. fold d in Hm1, Hm2.
  set (k := d - 53) in *.
  assert (Hk : 0 <= k) by lia.
  set (P := 2 ^ k).
  assert (HP : 0 < P) by (apply Z.pow_pos_nonneg; lia).
  assert (E1 : 2 ^ (d - 1) = 2 ^ 52 * P).
  { unfold P. rewrite <- Z.pow_add_r by lia. f_equal; lia. }
  assert (E2 : 2 ^ d = 2 ^ 53 * P).
  { unfold P. rewrite <- Z.pow_add_r by lia. f_equal; lia. }
  set (m' := Zpos m / P).
  assert (Hdiv : m' * P <= Zpos m < (m' + 1) * P).
  { unfold m'. split.
    - rewrite Z.mul_comm. apply Z.mul_div_le; lia.
    - rewrite Z.mul_comm. apply Z.mul_succ_div_gt; lia. }
  assert (Hm' : 2 ^ 52 <= m' < 2 ^ 53).
  { unfold m'. split.
    - apply Z.div_le_lower_bound; lia.
    - apply Z.div_lt_upper_bound; lia. }
  unfold binary_round_aux, shr_fexp.
  change (Zdigits2 (Zpos m)) with d.
  assert (Hf : fexp F64.prec F64.emax (d + e) - e = k).
  { unfold fexp, emin, F64.prec, F64.emax. lia. }
  rewrite Hf.
  destruct (shr_spec (shr_record_of_loc (Zpos m) l) e k) as [Hs1 Hs2];
    [rewrite shr_record_of_loc_m; lia | lia |].
  rewrite shr_record_of_loc_m in Hs1.
  destruct (shr (shr_record_of_loc (Zpos m) l) e k) as [mrs' e'].
  cbn [fst snd] in Hs1, Hs2. subst e'.
  fold P in Hs1. fold m' in Hs1. rewrite Hs1.
  pose proof (round_nearest_even_cases m' (loc_of_shr_record mrs')) as Hm''.
  set (m'' := round_nearest_even m' (loc_of_shr_record mrs')) in *.
  assert (Hcase : m'' < 2 ^ 53 \/ m'' = 2 ^ 53) by lia.
  assert (Hpos : 0 < m'') by lia.
  destruct m'' as [|p''|p''] eqn:Ep; try lia.
  cbn [Zdigits2].
  destruct Hcase as [Hlt | Heq].
  - rewrite (digits2_unique p'' 53) by lia.
    assert (Hf2 : fexp F64.prec F64.emax (53 + (e + k)) - (e + k) = 0).
    { unfold fexp, emin, F64.prec, F64.emax. lia. }
    rewrite Hf2. cbn [shr shr_m shr_record_of_loc].
    assert (Hle : (e + k <=? F64.emax - F64.prec) = true).
    { apply Z.leb_le. unfold F64.emax, F64.prec. lia. }
    rewrite Hle. exists p'', (e + k). split; [reflexivity|].
    replace (e + k - e) with k by lia. fold P.
    repeat split; try lia.
  - rewrite (digits2_unique p'' 54) by lia.
    assert (Hf2 : fexp F64.prec F64.emax (54 + (e + k)) - (e + k) = 1).
    { unfold fexp, emin, F64.prec, F64.emax. lia. }
    rewrite Hf2. cbn [shr SpecFloat.iter_pos].
    rewrite shr_1_m by (cbn; lia). cbn [shr_m shr_record_of_loc].
    rewrite Heq. change (2 ^ 53 / 2) with (2 ^ 52).
    change (2 ^ 52) with (Zpos (2 ^ 52)) at 1.
    assert (Hle : (e + k + 1 <=? F64.emax - F64.prec) = true).
    { apply Z.leb_le. unfold F64.emax, F64.prec. lia. }
    rewrite Hle. exists (2 ^ 52)%positive, (e + k + 1). split; [reflexivity|].
    replace (e + k + 1 - e) with (k + 1) by lia.
    rewrite Z.pow_add_r by lia. fold P.
    change (Zpos (2 ^ 52)) with (2 ^ 52).
    repeat split; try lia.
Qed.

(** The rational number that a finite float is. *)
Definition sign_of (s : bool) : Q := if s then (-1)%Q else 1%Q.

Definition to_Q (x : F64.float) : Q :=
  match x with
  | S754_finite s m e => (sign_of s * (inject_Z (Zpos m) * 2 ^ e))%Q
  | _ => 0%Q
  end.

(** The relative error allowed to one rounding: [2^-52], twice the unit
    roundoff, which either neighbour of the value meets. *)
Definition eps : Q := 1 # 4503599627370496.

Definition close (a r : Q) : Prop := (Qabs (a - r) <= eps * Qabs r)%Q.

Section Powers.
Local Open Scope Q_scope.

Lemma two_nonzero : ~ 2 == 0.
Proof. discriminate. Qed.

Lemma pow2_pos e : 0 < 2 ^ e.
Proof. by apply Qpower_0_lt. Qed.

Lemma pow2_add a b : 2 ^ (a + b) == 2 ^ a * 2 ^ b.
Proof. apply Qpower_plus, two_nonzero. Qed.

Lemma pow2_inject n : (0 <= n)%Z -> inject_Z (2 ^ n) == 2 ^ n.
Proof. intros Hn. by rewrite Zpower_Qpower. Qed.

Lemma pow2_shift (m : Z) n e :
  (0 <= n)%Z -> inject_Z (m * 2 ^ n) * 2 ^ e == inject_Z m * 2 ^ (n + e).
Proof.
  intros Hn. rewrite inject_Z_mult, pow2_inject, pow2_add by done. ring.
Qed.

End Powers.

Section CoreQ.
Local Open Scope Q_scope.

(** One rounding, on rationals: the rounding of a mantissa [m] that is
    the integer part of [r / 2^e] is within [eps * r] of [r]. *)
Lemma round_core_Q s m e l (r : Q) :
  let d := Zpos (digits2_pos m) in
  (53 <= d)%Z -> (-1074 <= d + e - 53)%Z -> (d + e - 53 <= 970)%Z ->
  inject_Z (Zpos m) * 2 ^ e <= r ->
  r < inject_Z (Zpos m + 1) * 2 ^ e ->
  exists m3 e3,
    binary_round_aux F64.prec F64.emax s (Zpos m) e l = S754_finite s m3 e3
    /\ (2 ^ 52 <= Zpos m3 < 2 ^ 53)%Z
    /\ (d + e - 53 <= e3 <= d + e - 52)%Z
    /\ Qabs (inject_Z (Zpos m3) * 2 ^ e3 - r) <= eps * r.
Proof.
  intros d Hd Hlo Hhi Hr1 Hr2.
  destruct (round_core s m e l Hd Hlo Hhi)
    as (m3 & e3 & Heq & Hm3 & He3 & HR1 & HR2).
  fold d in He3, HR1, HR2.
  exists m3, e3. repeat split; try done; try lia.
  pose proof (digits2_bounds m) as [Hm1 _]. fold d in Hm1.
  set (P := (2 ^ (d - 53))%Z) in *.
  assert (HP : (0 < P)%Z) by (apply Z.pow_pos_nonneg; lia).
  assert (HmP : (P * 2 ^ 52 <= Zpos m)%Z).
  { unfold P. rewrite <- Z.pow_add_r by lia.
    replace (d - 53 + 52)%Z with (d - 1)%Z by lia. exact Hm1. }
  set (R := (Zpos m3 * 2 ^ (e3 - e))%Z) in *.
  assert (HRQ : inject_Z (Zpos m3) * 2 ^ e3 == inject_Z R * 2 ^ e).
  { unfold R. rewrite pow2_shift by lia. by replace (e3 - e + e)%Z with e3 by lia. }
  rewrite HRQ.
  pose proof (pow2_pos e) as HE. set (E := 2 ^ e) in *.
  rewrite Zle_Qle in HR1. rewrite Zle_Qle in HR2. rewrite Zle_Qle in HmP.
  unfold Z.sub in HR1.
  rewrite inject_Z_plus, inject_Z_opp in HR1.
  rewrite !inject_Z_plus in HR2. rewrite inject_Z_plus in Hr2.
  rewrite inject_Z_mult in HmP.
  change (inject_Z (2 ^ 52)) with (4503599627370496 # 1) in HmP.
  change (inject_Z 1) with 1 in *.
  set (iR := inject_Z R) in *. set (iP := inject_Z P) in *.
  set (im := inject_Z (Zpos m)) in *.
  clearbody iR iP im E.
  assert (H1 : (iR + - iP) * E <= im * E)
    by (apply Qmult_le_compat_r; [exact HR1 | lra]).
  assert (H2 : (im + 1) * E <= (iR + iP) * E)
    by (apply Qmult_le_compat_r; [exact HR2 | lra]).
  assert (H3 : (iP * (4503599627370496 # 1)) * E <= im * E)
    by (apply Qmult_le_compat_r; [exact HmP | lra]).
  apply Qabs_Qle_condition. unfold eps.
  split; lra.
Qed.

End CoreQ.

(** A normal float with its exponent in a range, and a float that is
    one or a zero. *)
Definition normal (lo hi : Z) (x : F64.float) : Prop :=
  match x with
  | S754_finite _ m e => (2 ^ 52 <= Zpos m < 2 ^ 53) /\ (lo <= e <= hi)
  | _ => False
  end.

Definition good (lo hi : Z) (x : F64.float) : Prop :=
  match x with
  | S754_zero _ => True
  | _ => normal lo hi x
  end.

Lemma normal_good lo hi x : normal lo hi x -> good lo hi x.
Proof. by destruct x. Qed.

Lemma good_weaken lo hi lo' hi' x :
  lo' <= lo -> hi <= hi' -> good lo hi x -> good lo' hi' x.
Proof. destruct x as [| | |s m e]; cbn; try done. lia. Qed.

Lemma normal_weaken lo hi lo' hi' x :
  lo' <= lo -> hi <= hi' -> normal lo hi x -> normal lo' hi' x.
Proof. destruct x as [| | |s m e]; cbn; try done. lia. Qed.

Lemma digits_range p a b :
  0 <= a -> 2 ^ a <= Zpos p < 2 ^ b -> a + 1 <= Zpos (digits2_pos p) <= b.
Proof.
  intros Ha [Hlo Hhi]. pose proof (digits2_bounds p) as [Hlo' Hhi'].
  set (d := Zpos (digits2_pos p)) in *.
  assert (Hd : 0 < d) by (unfold d; lia).
  split.
  - destruct (Z_lt_le_dec d (a + 1)) as [Hlt|]; [|lia].
    assert (2 ^ d <= 2 ^ a) by (apply Z.pow_le_mono_r; lia). lia.
  - destruct (Z_lt_le_dec b d) as [Hlt|]; [|lia].
    assert (b < 0 \/ 0 <= b) as [Hneg | Hpos] by lia.
    + rewrite (Z.pow_neg_r 2 b) in Hhi by lia. lia.
    + assert (2 ^ b <= 2 ^ (d - 1)) by (apply Z.pow_le_mono_r; lia). lia.
Qed.

Section Close.
Local Open Scope Q_scope.

#[export] Instance close_proper : Proper (Qeq ==> Qeq ==> iff) close.
Proof. intros a a' Ha r r' Hr. unfold close. by rewrite Ha, Hr. Qed.

Lemma sign_abs s : Qabs (sign_of s) == 1.
Proof. by destruct s. Qed.

Lemma close_signed s A r :
  0 <= r -> Qabs (A - r) <= eps * r ->
  close (sign_of s * A) (sign_of s * r).
Proof.
  intros Hr HA. unfold close.
  assert (E : sign_of s * A - sign_of s * r == sign_of s * (A - r)) by ring.
  rewrite E, !Qabs_Qmult, sign_abs, (Qabs_pos r Hr). lra.
Qed.

Lemma close_refl r : close r r.
Proof.
  unfold close. assert (E : r - r == 0) by ring. rewrite E.
  change (Qabs 0) with 0. pose proof (Qabs_nonneg r). unfold eps. lra.
Qed.

Lemma value_nonneg m e : 0 <= inject_Z (Zpos m) * 2 ^ e.
Proof.
  apply Qmult_le_0_compat; [|apply Qlt_le_weak, pow2_pos].
  change 0 with (inject_Z 0). by rewrite <- Zle_Qle.
Qed.

Lemma value_next (m : Z) e : inject_Z m * 2 ^ e < inject_Z (m + 1) * 2 ^ e.
Proof.
  apply Qmult_lt_compat_r; [apply pow2_pos|].
  rewrite <- Zlt_Qlt. lia.
Qed.

Lemma sign_xorb a b : sign_of (xorb a b) == sign_of a * sign_of b.
Proof. by destruct a, b. Qed.

End Close.

(** An operation whose result is exact. *)
Ltac close_exact :=
  lazymatch goal with
  | |- close ?a ?t =>
      let E := fresh "E" in
      assert (E : (t == a)%Q) by (cbn [to_Q]; unfold Qdiv, Qminus; ring);
      rewrite E; apply close_refl
  end.

Section Multiplication.
Local Open Scope Q_scope.

(** [x * y]: away from overflow and underflow the product is the exact
    product up to the relative error [eps]. *)
Lemma mul_spec lo1 hi1 lo2 hi2 x y :
  good lo1 hi1 x -> good lo2 hi2 y ->
  (-1126 <= lo1 + lo2)%Z -> (hi1 + hi2 <= 917)%Z ->
  good (lo1 + lo2 + 52) (hi1 + hi2 + 54) (F64.mul x y)
  /\ close (to_Q (F64.mul x y)) (to_Q x * to_Q y).
Proof.
  intros Hx Hy Hlo Hhi.
  destruct x as [sx| | |sx mx ex], y as [sy| | |sy my ey]; try done.
  all: try (split; [done|]; cbn [F64.mul SFmul to_Q]; close_exact).
  - destruct Hx as [Hmx Hex], Hy as [Hmy Hey].
    unfold F64.mul. cbn [SFmul].
    assert (HM : (2 ^ 104 <= Zpos (mx * my) < 2 ^ 106)%Z).
    { rewrite Pos2Z.inj_mul.
      change (2 ^ 104)%Z with (2 ^ 52 * 2 ^ 52)%Z.
      change (2 ^ 106)%Z with (2 ^ 53 * 2 ^ 53)%Z.
      split; [apply Z.mul_le_mono_nonneg; lia | apply Z.mul_lt_mono_nonneg; lia]. }
    pose proof (digits_range (mx * my) 104 106 ltac:(lia) HM) as Hd.
    destruct (round_core_Q (xorb sx sy) (mx * my) (ex + ey) loc_Exact
                (inject_Z (Zpos (mx * my)) * 2 ^ (ex + ey)))
      as (m3 & e3 & -> & Hm3 & He3 & Hclose);
      [lia | lia | lia | apply Qle_refl | apply value_next |].
    split; [cbn; lia|].
    cbn [to_Q].
    assert (E : sign_of sx * (inject_Z (Z.pos mx) * 2 ^ ex)
                * (sign_of sy * (inject_Z (Z.pos my) * 2 ^ ey))
                == sign_of (xorb sx sy)
                   * (inject_Z (Zpos (mx * my)) * 2 ^ (ex + ey))).
    { rewrite sign_xorb, Pos2Z.inj_mul, inject_Z_mult, pow2_add. ring. }
    rewrite E. apply close_signed; [apply value_nonneg | exact Hclose].
Qed.

End Multiplication.

Section Division.

Lemma div_eucl_div_mod a b : Z.div_eucl a b = (a / b, a mod b).
Proof. unfold Z.div, Z.modulo. by destruct (Z.div_eucl a b). Qed.

Lemma div_core mx ex my ey :
  2 ^ 52 <= Zpos mx < 2 ^ 53 -> 2 ^ 52 <= Zpos my < 2 ^ 53 ->
  -1074 <= ex - ey - 53 ->
  SFdiv_core_binary F64.prec F64.emax (Zpos mx) ex (Zpos my) ey
  = (Zpos mx * 2 ^ 53 / Zpos my, ex - ey - 53,
     new_location (Zpos my) ((Zpos mx * 2 ^ 53) mod Zpos my)).
Proof.
  intros Hmx Hmy Hlo. unfold SFdiv_core_binary. cbn [Zdigits2].
  rewrite (digits2_unique mx 53), (digits2_unique my 53) by lia.
  assert (He : Z.min (fexp F64.prec F64.emax (53 + ex - (53 + ey))) (ex - ey)
               = ex - ey - 53).
  { unfold fexp, emin, F64.prec, F64.emax. lia. }
  rewrite He.
  replace (ex - ey - (ex - ey - 53)) with 53 by lia.
  rewrite Z.shiftl_mul_pow2 by lia.
  by rewrite div_eucl_div_mod.
Qed.

Local Open Scope Q_scope.

(** [x / y], likewise. *)
Lemma div_spec lo1 hi1 lo2 hi2 x y :
  good lo1 hi1 x -> normal lo2 hi2 y ->
  (-1074 <= lo1 - hi2 - 53)%Z -> (hi1 - lo2 - 52 <= 970)%Z ->
  good (lo1 - hi2 - 53) (hi1 - lo2 - 51) (F64.div x y)
  /\ close (to_Q (F64.div x y)) (to_Q x / to_Q y).
Proof.
  intros Hx Hy Hlo Hhi.
  destruct x as [sx| | |sx mx ex], y as [sy| | |sy my ey]; try done.
  all: try (unfold F64.div; cbn [SFdiv]; split; [exact I|]; close_exact).
  destruct Hx as [Hmx Hex], Hy as [Hmy Hey].
  unfold F64.div. cbn [SFdiv].
  rewrite div_core by (done || lia).
  set (q := (Zpos mx * 2 ^ 53 / Zpos my)%Z).
  assert (Hq : (2 ^ 52 <= q < 2 ^ 54)%Z).
  { unfold q. split.
    - apply Z.div_le_lower_bound; [lia|]. nia.
    - apply Z.div_lt_upper_bound; [lia|]. nia. }
  assert (Hqm : (q * Zpos my <= Zpos mx * 2 ^ 53 < (q + 1) * Zpos my)%Z).
  { pose proof (Z.mul_div_le (Zpos mx * 2 ^ 53) (Zpos my) ltac:(lia)) as H1.
    pose proof (Z.mul_succ_div_gt (Zpos mx * 2 ^ 53) (Zpos my) ltac:(lia)) as H2.
    fold q in H1, H2. lia. }
  destruct q as [|pq|pq] eqn:Eq; try lia.
  pose proof (digits_range pq 52 54 ltac:(lia) Hq) as Hd.
  set (e' := (ex - ey - 53)%Z).
  set (r := (inject_Z (Zpos mx) * 2 ^ ex) / (inject_Z (Zpos my) * 2 ^ ey)).
  assert (Hmy0 : 0 < inject_Z (Zpos my)).
  { change 0 with (inject_Z 0). rewrite <- Zlt_Qlt. lia. }
  assert (Hr : r == inject_Z (Zpos mx * 2 ^ 53) / inject_Z (Zpos my) * 2 ^ e').
  { unfold r, e'. rewrite inject_Z_mult.
    replace ex with (ey + (53 + (ex - ey - 53)))%Z at 1 by lia.
    rewrite !pow2_add. change (inject_Z (2 ^ 53)) with (2 ^ 53).
    pose proof (pow2_pos ey). field. split; lra. }
  destruct (round_core_Q (xorb sx sy) pq e'
              (new_location (Zpos my) ((Zpos mx * 2 ^ 53) mod Zpos my)) r)
    as (m3 & e3 & -> & Hm3 & He3 & Hclose).
  - lia.
  - unfold e'. lia.
  - unfold e'. lia.
  - rewrite Hr. apply Qmult_le_compat_r; [|apply Qlt_le_weak, pow2_pos].
    apply Qle_shift_div_l; [exact Hmy0|].
    rewrite <- inject_Z_mult, <- Zle_Qle. lia.
  - rewrite Hr. apply Qmult_lt_compat_r; [apply pow2_pos|].
    apply Qlt_shift_div_r; [exact Hmy0|].
    rewrite <- inject_Z_mult, <- Zlt_Qlt. lia.
  - split; [cbn; unfold e' in He3; lia|].
    cbn [to_Q].
    assert (E : sign_of sx * (inject_Z (Z.pos mx) * 2 ^ ex)
                / (sign_of sy * (inject_Z (Z.pos my) * 2 ^ ey))
                == sign_of (xorb sx sy) * r).
    { unfold r. rewrite sign_xorb. pose proof (pow2_pos ey).
      destruct sy; cbn [sign_of]; field; split; lra. }
    rewrite E. apply close_signed; [|exact Hclose].
    unfold r. apply Qle_shift_div_l.
    + apply Qmult_lt_0_compat; [exact Hmy0 | apply pow2_pos].
    + rewrite Qmult_0_l. apply value_nonneg.
Qed.

End Division.

Section Alignment.

Lemma pos_iter_xO m p : Zpos (Pos.iter xO m p) = Zpos m * 2 ^ Zpos p.
Proof.
  induction p as [|p IH] using Pos.peano_ind.
  - cbn [Pos.iter]. lia.
  - rewrite Pos.iter_succ, Pos2Z.inj_xO, IH, Pos2Z.inj_succ.
    rewrite Z.pow_succ_r by lia. lia.
Qed.

Lemma shl_align_le m e e' :
  e' <= e ->
  exists mz, shl_align m e e' = (mz, e') /\ Zpos mz = Zpos m * 2 ^ (e - e').
Proof.
  intros Hle. unfold shl_align. destruct (e' - e) as [|p|p] eqn:E; try lia.
  - exists m. replace e' with e by lia. rewrite Z.sub_diag. split; [done | lia].
  - exists (Pos.iter xO m p). split; [done|].
    rewrite pos_iter_xO. f_equal. f_equal. lia.
Qed.

Lemma shl_align_gt m e e' : e < e' -> shl_align m e e' = (m, e).
Proof.
  intros Hlt. unfold shl_align. by destruct (e' - e) as [|p|p] eqn:E; try lia.
Qed.

Lemma digits_upper p b : Zpos p < 2 ^ b -> Zpos (digits2_pos p) <= b.
Proof.
  intros Hhi. pose proof (digits2_bounds p) as [Hlo' _].
  set (d := Zpos (digits2_pos p)) in *.
  destruct (Z_lt_le_dec b d) as [Hlt|]; [|lia].
  assert (b < 0 \/ 0 <= b) as [Hneg | Hpos] by lia.
  - rewrite (Z.pow_neg_r 2 b) in Hhi by lia. lia.
  - assert (2 ^ b <= 2 ^ (d - 1)) by (apply Z.pow_le_mono_r; lia). lia.
Qed.

End Alignment.

Section Normalisation.
Local Open Scope Q_scope.

(** The normalisation of an exact sum. *)
Lemma binary_round_spec s m e :
  let d := Zpos (digits2_pos m) in
  (-1074 <= d + e - 53)%Z -> (d + e - 53 <= 970)%Z ->
  exists m3 e3,
    binary_round F64.prec F64.emax s m e = S754_finite s m3 e3
    /\ (2 ^ 52 <= Zpos m3 < 2 ^ 53)%Z
    /\ (d + e - 53 <= e3 <= d + e - 52)%Z
    /\ Qabs (inject_Z (Zpos m3) * 2 ^ e3 - inject_Z (Zpos m) * 2 ^ e)
       <= eps * (inject_Z (Zpos m) * 2 ^ e).
Proof.
  intros d Hlo Hhi. unfold binary_round.
  assert (Hf : fexp F64.prec F64.emax (Zpos (digits2_pos m) + e) = (d + e - 53)%Z).
  { fold d. unfold fexp, emin, F64.prec, F64.emax. lia. }
  rewrite Hf.
  pose proof (digits2_bounds m) as [Hm1 Hm2]. fold d in Hm1, Hm2.
  assert (Hd : (0 < d)%Z) by (unfold d; lia).
  destruct (Z_le_gt_dec d 53) as [Hle | Hgt].
  - destruct (shl_align_le m e (d + e - 53)) as (mz & -> & Hmz); [lia|].
    replace (e - (d + e - 53))%Z with (53 - d)%Z in Hmz by lia.
    assert (Hz : (2 ^ 52 <= Zpos mz < 2 ^ 53)%Z).
    { assert (E52 : (2 ^ 52 = 2 ^ (d - 1) * 2 ^ (53 - d))%Z).
      { rewrite <- Z.pow_add_r by lia. f_equal. lia. }
      assert (E53 : (2 ^ 53 = 2 ^ d * 2 ^ (53 - d))%Z).
      { rewrite <- Z.pow_add_r by lia. f_equal. lia. }
      assert (0 < 2 ^ (53 - d))%Z by (apply Z.pow_pos_nonneg; lia).
      rewrite Hmz, E52, E53.
      split; [apply Z.mul_le_mono_nonneg_r; lia
             | apply Z.mul_lt_mono_pos_r; lia]. }
    assert (Hv : inject_Z (Zpos mz) * 2 ^ (d + e - 53)
                 == inject_Z (Zpos m) * 2 ^ e).
    { rewrite Hmz, pow2_shift by lia.
      by replace (53 - d + (d + e - 53))%Z with e by lia. }
    destruct (round_core_Q s mz (d + e - 53) loc_Exact
                (inject_Z (Zpos m) * 2 ^ e))
      as (m3 & e3 & Heq & Hm3 & He3 & Hclose);
      rewrite ?(digits2_unique mz 53) in * by lia; try lia.
    + rewrite Hv. apply Qle_refl.
    + rewrite <- Hv. apply value_next.
    + exists m3, e3. repeat split; try done; lia.
  - rewrite shl_align_gt by lia.
    destruct (round_core_Q s m e loc_Exact (inject_Z (Zpos m) * 2 ^ e))
      as (m3 & e3 & Heq & Hm3 & He3 & Hclose); fold d; try lia.
    + apply Qle_refl.
    + apply value_next.
    + exists m3, e3. fold d in He3. repeat split; try done; lia.
Qed.

End Normalisation.

Section Addition.
Local Open Scope Q_scope.

Lemma aligned_value s m e M ez :
  (Zpos M = Zpos m * 2 ^ (e - ez))%Z -> (ez <= e)%Z ->
  sign_of s * (inject_Z (Zpos m) * 2 ^ e)
  == inject_Z (cond_Zopp s (Zpos M)) * 2 ^ ez.
Proof.
  intros HM Hle.
  assert (E : inject_Z (Zpos M) * 2 ^ ez == inject_Z (Zpos m) * 2 ^ e).
  { rewrite HM, pow2_shift by lia. by replace (e - ez + ez)%Z with e by lia. }
  destruct s; cbn [sign_of cond_Zopp].
  - rewrite inject_Z_opp, <- E. ring.
  - rewrite <- E. ring.
Qed.

(** [x + y]: the exact sum up to the relative error [eps]; through
    cancellation the exponent can fall by 52. *)
Lemma add_spec lo1 hi1 lo2 hi2 x y :
  good lo1 hi1 x -> good lo2 hi2 y ->
  (-1022 <= Z.min lo1 lo2)%Z -> (Z.max hi1 hi2 <= 969)%Z ->
  good (Z.min lo1 lo2 - 52) (Z.max hi1 hi2 + 2) (F64.add x y)
  /\ close (to_Q (F64.add x y)) (to_Q x + to_Q y).
Proof.
  intros Hx Hy Hlo Hhi.
  destruct x as [sx| | |sx mx ex], y as [sy| | |sy my ey]; try done.
  - unfold F64.add. cbn [SFadd]. split; [by destruct sx, sy|].
    destruct sx, sy; close_exact.
  - unfold F64.add. cbn [SFadd]. split; [|close_exact].
    cbn in *. lia.
  - unfold F64.add. cbn [SFadd]. split; [|close_exact].
    cbn in *. lia.
  - destruct Hx as [Hmx Hex], Hy as [Hmy Hey].
    unfold F64.add. cbn [SFadd].
    set (ez := Z.min ex ey).
    destruct (shl_align_le mx ex ez) as (Mx & Ex & HMx); [lia|].
    destruct (shl_align_le my ey ez) as (My & Ey & HMy); [lia|].
    rewrite Ex, Ey. cbn [fst].
    set (S := (cond_Zopp sx (Zpos Mx) + cond_Zopp sy (Zpos My))%Z).
    assert (Hval : to_Q (S754_finite sx mx ex) + to_Q (S754_finite sy my ey)
                   == inject_Z S * 2 ^ ez).
    { cbn [to_Q]. unfold S.
      rewrite (aligned_value sx mx ex Mx ez), (aligned_value sy my ey My ez),
        inject_Z_plus by (done || lia). ring. }
    set (W := (2 ^ (Z.max ex ey - ez))%Z).
    assert (HW : (0 < W)%Z) by (apply Z.pow_pos_nonneg; lia).
    assert (HWx : (2 ^ (ex - ez) <= W)%Z) by (apply Z.pow_le_mono_r; lia).
    assert (HWy : (2 ^ (ey - ez) <= W)%Z) by (apply Z.pow_le_mono_r; lia).
    assert (Hpx : (0 < 2 ^ (ex - ez))%Z) by (apply Z.pow_pos_nonneg; lia).
    assert (Hpy : (0 < 2 ^ (ey - ez))%Z) by (apply Z.pow_pos_nonneg; lia).
    assert (HS : (Z.abs S < 2 ^ (54 + (Z.max ex ey - ez)))%Z).
    { rewrite Z.pow_add_r by lia. fold W.
      assert (Zpos Mx < 2 ^ 53 * W)%Z by (rewrite HMx; nia).
      assert (Zpos My < 2 ^ 53 * W)%Z by (rewrite HMy; nia).
      change (2 ^ 54)%Z with (2 * 2 ^ 53)%Z.
      unfold S. destruct sx, sy; cbn [cond_Zopp]; lia. }
    rewrite Hval. clear Hval.
    destruct S as [|p|p] eqn:ES; cbn [binary_normalize].
    + split; [done|]. close_exact.
    + pose proof (digits_upper p _ HS) as Hd.
      destruct (binary_round_spec false p ez)
        as (m3 & e3 & -> & Hm3 & He3 & Hclose); [lia | lia |].
      split; [cbn; lia|].
      cbn [to_Q].
      assert (E : inject_Z (Zpos p) * 2 ^ ez
                  == sign_of false * (inject_Z (Zpos p) * 2 ^ ez))
        by (cbn [sign_of]; ring).
      rewrite E. apply close_signed; [apply value_nonneg | exact Hclose].
    + pose proof (digits_upper p _ HS) as Hd.
      destruct (binary_round_spec true p ez)
        as (m3 & e3 & -> & Hm3 & He3 & Hclose); [lia | lia |].
      split; [cbn; lia|].
      cbn [to_Q].
      assert (E : inject_Z (Zneg p) * 2 ^ ez
                  == sign_of true * (inject_Z (Zpos p) * 2 ^ ez)).
      { change (Zneg p) with (- Zpos p)%Z. rewrite inject_Z_opp.
        cbn [sign_of]. ring. }
      rewrite E. apply close_signed; [apply value_nonneg | exact Hclose].
Qed.

Lemma sub_as_add lo1 hi1 lo2 hi2 x y :
  good lo1 hi1 x -> good lo2 hi2 y ->
  F64.sub x y = F64.add x (F64.neg y).
Proof.
  intros Hx Hy.
  destruct x as [sx| | |sx mx ex], y as [sy| | |sy my ey]; try done.
  - by destruct sx, sy.
  - unfold F64.sub, F64.add, F64.neg. cbn [SFsub SFadd SFopp].
    f_equal. unfold shl_align.
    destruct (Z.min ex ey - ex)%Z, (Z.min ex ey - ey)%Z, sy;
      cbn [fst cond_Zopp negb]; lia.
Qed.

Lemma neg_good lo hi y : good lo hi y -> good lo hi (F64.neg y).
Proof. by destruct y. Qed.

Lemma neg_value y : to_Q (F64.neg y) == - to_Q y.
Proof.
  destruct y as [| | |s m e]; cbn [F64.neg SFopp to_Q]; try reflexivity.
  destruct s; cbn [negb sign_of]; ring.
Qed.

(** [x - y], likewise. *)
Lemma sub_spec lo1 hi1 lo2 hi2 x y :
  good lo1 hi1 x -> good lo2 hi2 y ->
  (-1022 <= Z.min lo1 lo2)%Z -> (Z.max hi1 hi2 <= 969)%Z ->
  good (Z.min lo1 lo2 - 52) (Z.max hi1 hi2 + 2) (F64.sub x y)
  /\ close (to_Q (F64.sub x y)) (to_Q x - to_Q y).
Proof.
  intros Hx Hy Hlo Hhi.
  rewrite (sub_as_add lo1 hi1 lo2 hi2) by done.
  destruct (add_spec lo1 hi1 lo2 hi2 x (F64.neg y)) as [Hg Hc];
    [done | by apply neg_good | done | done |].
  split; [exact Hg|].
  unfold Qminus. by rewrite <- neg_value.
Qed.

End Addition.

Section ErrorAlgebra.
Local Open Scope Q_scope.

(** [a] is [r] up to the relative error [k]. *)
Definition within (k a r : Q) : Prop := Qabs (a - r) <= k * Qabs r.

#[export] Instance within_proper : Proper (Qeq ==> Qeq ==> Qeq ==> iff) within.
Proof. intros k k' Hk a a' Ha r r' Hr. unfold within. by rewrite Hk, Ha, Hr. Qed.

Lemma within_refl r : within 0 r r.
Proof.
  unfold within. assert (E : r - r == 0) by ring. rewrite E.
  change (Qabs 0) with 0. lra.
Qed.

(** One more rounding. *)
Lemma within_step k a b r :
  0 <= k -> within k a r -> close b a ->
  within (k + eps + k * eps) b r.
Proof.
  unfold within, close. intros Hk Ha Hb.
  assert (E : b - r == (b - a) + (a - r)) by ring.
  pose proof (Qabs_triangle (b - a) (a - r)) as H1. rewrite <- E in H1.
  assert (E' : a == (a - r) + r) by ring.
  pose proof (Qabs_triangle (a - r) r) as H2. rewrite <- E' in H2.
  pose proof (Qabs_nonneg r) as H3.
  set (x := Qabs (b - r)) in *. set (y := Qabs (b - a)) in *.
  set (z := Qabs (a - r)) in *. set (w := Qabs a) in *.
  set (u := Qabs r) in *. clearbody x y z w u.
  assert (H4 : eps * w <= eps * (z + u)).
  { apply Qmult_le_l; [reflexivity | exact H2]. }
  assert (H5 : eps * z <= eps * (k * u)).
  { apply Qmult_le_l; [reflexivity | exact Ha]. }
  unfold eps in *. lra.
Qed.

(** Scaling both sides. *)
Lemma close_scale c a r : close a r -> close (a * c) (r * c).
Proof.
  unfold close. intros H.
  assert (E : a * c - r * c == (a - r) * c) by ring.
  rewrite E, !Qabs_Qmult.
  rewrite Qmult_assoc. apply Qmult_le_compat_r; [exact H | apply Qabs_nonneg].
Qed.

End ErrorAlgebra.

(** A factor of the conversion tables: a positive normal float between 1
    and [2^21]. *)
Definition factor_ok (f : F64.float) : bool :=
  match f with
  | S754_finite false m e =>
      (2 ^ 52 <=? Zpos m) && (Zpos m <? 2 ^ 53) && (-52 <=? e) && (e <=? -32)
  | _ => false
  end.

(** Every factor of the tables is one. *)
Lemma tables_factors unit_type table :
  (conversions (N := F64.float)) !! unit_type = Some table ->
  map_Forall (fun _ f => factor_ok f = true) table.
Proof.
  unfold conversions. intros Ht.
  apply lookup_insert_Some in Ht as [[_ <-] | [_ Ht]];
    [|apply lookup_singleton_Some in Ht as [_ <-]].
  all: repeat (apply map_Forall_insert_2; [vm_compute; reflexivity|]).
  all: apply map_Forall_empty.
Qed.

(** An inequality between two rational constants. *)
Ltac qle := apply Qle_bool_iff; vm_compute; reflexivity.

Section Linear.
Local Open Scope Q_scope.

Lemma factor_normal f :
  factor_ok f = true -> normal (-52) (-32) f /\ 0 < to_Q f.
Proof.
  destruct f as [| | |[] m e]; cbn [factor_ok]; try discriminate.
  intros (((H1%Z.leb_le & H2%Z.ltb_lt)%andb_true_iff
           & H3%Z.leb_le)%andb_true_iff & H4%Z.leb_le)%andb_true_iff.
  split; [cbn; lia|].
  cbn [to_Q sign_of]. rewrite Qmult_1_l.
  apply Qmult_lt_0_compat; [|apply pow2_pos].
  change 0 with (inject_Z 0). rewrite <- Zlt_Qlt. lia.
Qed.

Lemma within_weaken k k' a r : k <= k' -> within k a r -> within k' a r.
Proof.
  unfold within. intros Hk H. eapply Qle_trans; [exact H|].
  apply Qmult_le_compat_r; [exact Hk | apply Qabs_nonneg].
Qed.

(** There and back through two factors: four roundings, each of relative
    error [eps]; the factors cancel. *)
Lemma linear_round_trip_close lo hi v fa fb :
  good lo hi v -> factor_ok fa = true -> factor_ok fb = true ->
  (-1000 <= lo)%Z -> (hi <= 900)%Z ->
  let w := F64.div (F64.mul v fa) fb in
  let v' := F64.div (F64.mul w fb) fa in
  good (lo - 21) (hi + 23) w
  /\ good (lo - 42) (hi + 46) v'
  /\ within (5 * eps) (to_Q v') (to_Q v).
Proof.
  intros Hv [Ha HA]%factor_normal [Hb HB]%factor_normal Hlo Hhi w v'.
  destruct (mul_spec lo hi (-52) (-32) v fa) as [G1 C1];
    [done | by apply normal_good | lia | lia |].
  destruct (div_spec _ _ (-52) (-32) (F64.mul v fa) fb G1 Hb) as [G2 C2];
    [lia | lia |].
  fold w in G2, C2.
  destruct (mul_spec _ _ (-52) (-32) w fb G2) as [G3 C3];
    [by apply normal_good | lia | lia |].
  destruct (div_spec _ _ (-52) (-32) (F64.mul w fb) fa G3 Ha) as [G4 C4];
    [lia | lia |].
  fold v' in G4, C4.
  split; [eapply good_weaken; [| |exact G2]; lia|].
  split; [eapply good_weaken; [| |exact G4]; lia|].
  set (V := to_Q v) in *. set (A := to_Q fa) in *. set (B := to_Q fb) in *.
  set (T1 := to_Q (F64.mul v fa)) in *. set (T2 := to_Q w) in *.
  set (T3 := to_Q (F64.mul w fb)) in *. set (T4 := to_Q v') in *.
  clearbody V A B T1 T2 T3 T4.
  apply (close_scale (/ A)) in C1.
  assert (E1 : V * A * / A == V) by (field; lra). rewrite E1 in C1.
  apply (close_scale (B * / A)) in C2.
  assert (E2 : T1 / B * (B * / A) == T1 * / A) by (field; lra).
  rewrite E2 in C2.
  apply (close_scale (/ A)) in C3.
  assert (E3 : T2 * B * / A == T2 * (B * / A)) by (field; lra).
  rewrite E3 in C3.
  change (T3 / A) with (T3 * / A) in C4.
  pose proof (within_step _ _ _ _ (Qle_refl 0) (within_refl V) C1) as W1.
  pose proof (fun H => within_step _ _ _ _ H W1 C2) as W2.
  specialize (W2 ltac:(qle)).
  pose proof (fun H => within_step _ _ _ _ H W2 C3) as W3.
  specialize (W3 ltac:(qle)).
  pose proof (fun H => within_step _ _ _ _ H W3 C4) as W4.
  specialize (W4 ltac:(qle)).
  eapply within_weaken; [|exact W4]. qle.
Qed.

End Linear.

(** The float that the literal [273.15] is, as a rational. *)
Definition kelvin_offset : Q := to_Q (F64.of_decimal 27315 (-2)).

(** The temperature formulas in exact arithmetic, on the constants of
    the code. *)
Definition exact_to_celsius (u : scale) (q : Q) : Q :=
  match u with
  | Fahrenheit => ((q - 32) * (5 # 9))%Q
  | Kelvin => (q - kelvin_offset)%Q
  | Celsius => q
  end.

Definition exact_of_celsius (u : scale) (c : Q) : Q :=
  match u with
  | Fahrenheit => (c * (9 # 5) + 32)%Q
  | Kelvin => (c + kelvin_offset)%Q
  | Celsius => c
  end.

(** Bounds on the error of one direction, for an argument of magnitude
    at most [V]. *)
Definition to_celsius_error (u : scale) (V : Q) : Q :=
  match u with
  | Fahrenheit => (2 * eps * (V + 32))%Q
  | Kelvin => (eps * (V + 274))%Q
  | Celsius => 0%Q
  end.

Definition of_celsius_error (u : scale) (V : Q) : Q :=
  match u with
  | Fahrenheit => (eps * (6 * V + 32))%Q
  | Kelvin => (eps * (V + 274))%Q
  | Celsius => 0%Q
  end.

Ltac normal_const :=
  lazymatch goal with
  | |- normal _ _ ?c =>
      let x := eval vm_compute in c in
      change c with x; cbn [normal]; lia
  end.

Section Literals.
Local Open Scope Q_scope.

Lemma const_32 :
  normal (-47) (-47) (F64.of_decimal 32 0) /\ to_Q (F64.of_decimal 32 0) == 32.
Proof. split; [normal_const | vm_compute; reflexivity]. Qed.

Lemma const_5 :
  normal (-50) (-50) (F64.of_decimal 5 0) /\ to_Q (F64.of_decimal 5 0) == 5.
Proof. split; [normal_const | vm_compute; reflexivity]. Qed.

Lemma const_9 :
  normal (-49) (-49) (F64.of_decimal 9 0) /\ to_Q (F64.of_decimal 9 0) == 9.
Proof. split; [normal_const | vm_compute; reflexivity]. Qed.

Lemma const_kelvin :
  normal (-44) (-44) (F64.of_decimal 27315 (-2))
  /\ 273 <= kelvin_offset <= 274.
Proof.
  split; [normal_const|]. unfold kelvin_offset. split; qle.
Qed.

Lemma close_lin a r T : close a r -> Qabs r <= T -> Qabs (a - r) <= eps * T.
Proof.
  unfold close. intros H HT. eapply Qle_trans; [exact H|].
  apply Qmult_le_l; [reflexivity | exact HT].
Qed.

End Literals.

(** From bounds with absolute values to linear arithmetic, with the
    values of the floats and the offset of Kelvin as unknowns. *)
Ltac qabs_lra :=
  repeat match goal with
         | H : (Qabs _ <= _)%Q |- _ => apply Qabs_Qle_condition in H
         end;
  try apply Qabs_Qle_condition;
  repeat match goal with
         | |- context [to_Q ?t] =>
             let q := fresh "q" in set (q := to_Q t) in *; clearbody q
         | H : context [to_Q ?t] |- _ =>
             let q := fresh "q" in set (q := to_Q t) in *; clearbody q
         end;
  try (let K := fresh "K" in set (K := kelvin_offset) in *; clearbody K);
  unfold eps in *; lra.

Section TemperatureError.
Local Open Scope Q_scope.

(** One direction of a temperature conversion against its exact
    formula. *)
Lemma to_celsius_close u lo hi v V :
  good lo hi v ->
  (-970 <= lo)%Z -> (lo <= -50)%Z -> (-40 <= hi)%Z -> (hi <= 940)%Z ->
  Qabs (to_Q v) <= V ->
  good (lo - 54) (hi + 6) (to_celsius u v)
  /\ Qabs (to_Q (to_celsius u v) - exact_to_celsius u (to_Q v))
     <= to_celsius_error u V.
Proof.
  intros Hv Hlo1 Hlo2 Hhi1 Hhi2 HV.
  destruct const_32 as [N32 Q32], const_5 as [N5 Q5], const_9 as [N9 Q9],
    const_kelvin as [NK QK].
  destruct u; cbn [to_celsius exact_to_celsius to_celsius_error
                   n_sub n_mul n_div lit float_number].
  - split; [eapply good_weaken; [| |exact Hv]; lia|].
    assert (E : to_Q v - to_Q v == 0) by ring. rewrite E. by vm_compute.
  - destruct (sub_spec lo hi (-47) (-47) v _ Hv (normal_good _ _ _ N32))
      as [G1 C1]; [lia | lia |].
    rewrite Q32 in C1.
    destruct (mul_spec _ _ (-50) (-50) _ _ G1 (normal_good _ _ _ N5))
      as [G2 C2]; [lia | lia |].
    rewrite Q5 in C2.
    destruct (div_spec _ _ (-49) (-49) _ _ G2 N9) as [G3 C3]; [lia | lia |].
    rewrite Q9 in C3.
    split; [eapply good_weaken; [| |exact G3]; lia|].
    set (s1 := to_Q (F64.sub v (F64.of_decimal 32 0))) in *.
    set (s2 := to_Q (F64.mul _ (F64.of_decimal 5 0))) in *.
    set (s3 := to_Q (F64.div _ (F64.of_decimal 9 0))) in *.
    set (x := to_Q v) in *. clearbody s1 s2 s3 x.
    assert (E : s2 / 9 == s2 * (1 # 9)) by field. rewrite E in C3. clear E.
    apply (close_lin _ _ (V + 32)) in C1; [|qabs_lra].
    assert (0 <= V) by (pose proof (Qabs_nonneg x); lra).
    apply (close_lin _ _ ((5001 # 1000) * (V + 32))) in C2; [|qabs_lra].
    apply (close_lin _ _ ((6 # 10) * (V + 32))) in C3; [|qabs_lra].
    qabs_lra.
  - destruct (sub_spec lo hi (-44) (-44) v _ Hv (normal_good _ _ _ NK))
      as [G1 C1]; [lia | lia |].
    fold kelvin_offset in C1.
    split; [eapply good_weaken; [| |exact G1]; lia|].
    set (s1 := to_Q (F64.sub v _)) in *. set (x := to_Q v) in *.
    set (K := kelvin_offset) in *. clearbody s1 x K.
    apply (close_lin _ _ (V + 274)) in C1; [|qabs_lra].
    qabs_lra.
Qed.

Lemma of_celsius_close u lo hi c V :
  good lo hi c ->
  (-970 <= lo)%Z -> (lo <= -50)%Z -> (-40 <= hi)%Z -> (hi <= 940)%Z ->
  Qabs (to_Q c) <= V ->
  good (lo - 54) (hi + 6) (of_celsius u c)
  /\ Qabs (to_Q (of_celsius u c) - exact_of_celsius u (to_Q c))
     <= of_celsius_error u V.
Proof.
  intros Hc Hlo1 Hlo2 Hhi1 Hhi2 HV.
  destruct const_32 as [N32 Q32], const_5 as [N5 Q5], const_9 as [N9 Q9],
    const_kelvin as [NK QK].
  destruct u; cbn [of_celsius exact_of_celsius of_celsius_error
                   n_add n_mul n_div lit float_number].
  - split; [eapply good_weaken; [| |exact Hc]; lia|].
    assert (E : to_Q c - to_Q c == 0) by ring. rewrite E. by vm_compute.
  - destruct (mul_spec lo hi (-49) (-49) c _ Hc (normal_good _ _ _ N9))
      as [G1 C1]; [lia | lia |].
    rewrite Q9 in C1.
    destruct (div_spec _ _ (-50) (-50) _ _ G1 N5) as [G2 C2]; [lia | lia |].
    rewrite Q5 in C2.
    destruct (add_spec _ _ (-47) (-47) _ _ G2 (normal_good _ _ _ N32))
      as [G3 C3]; [lia | lia |].
    rewrite Q32 in C3.
    split; [eapply good_weaken; [| |exact G3]; lia|].
    set (s1 := to_Q (F64.mul c (F64.of_decimal 9 0))) in *.
    set (s2 := to_Q (F64.div _ (F64.of_decimal 5 0))) in *.
    set (s3 := to_Q (F64.add _ (F64.of_decimal 32 0))) in *.
    set (x := to_Q c) in *. clearbody s1 s2 s3 x.
    assert (E : s1 / 5 == s1 * (1 # 5)) by field. rewrite E in C2. clear E.
    assert (0 <= V) by (pose proof (Qabs_nonneg x); lra).
    apply (close_lin _ _ (9 * V)) in C1; [|qabs_lra].
    apply (close_lin _ _ (2 * V)) in C2; [|qabs_lra].
    apply (close_lin _ _ (2 * V + 32)) in C3; [|qabs_lra].
    qabs_lra.
  - destruct (add_spec lo hi (-44) (-44) c _ Hc (normal_good _ _ _ NK))
      as [G1 C1]; [lia | lia |].
    fold kelvin_offset in C1.
    split; [eapply good_weaken; [| |exact G1]; lia|].
    set (s1 := to_Q (F64.add c _)) in *. set (x := to_Q c) in *.
    set (K := kelvin_offset) in *. clearbody s1 x K.
    apply (close_lin _ _ (V + 274)) in C1; [|qabs_lra].
    qabs_lra.
Qed.

End TemperatureError.

(** A zero, or a normal float whose exponent lies between -800 and
    900. *)
Definition normal_in_range (v : F64.float) : bool :=
  match v with
  | S754_zero _ => true
  | S754_finite _ m e =>
      (2 ^ 52 <=? Zpos m) && (Zpos m <? 2 ^ 53) && (-800 <=? e) && (e <=? 900)
  | _ => false
  end.

(** The tolerance of a round trip from [q]: [2^-47 * (|q| + 512)]. *)
Definition tolerance (q : Q) : Q := ((1 # 140737488355328) * (Qabs q + 512))%Q.

Lemma normal_in_range_good v : normal_in_range v = true -> good (-800) 900 v.
Proof.
  destruct v as [| | |s m e]; cbn [normal_in_range good normal]; try done.
  intros (((H1%Z.leb_le & H2%Z.ltb_lt)%andb_true_iff
           & H3%Z.leb_le)%andb_true_iff & H4%Z.leb_le)%andb_true_iff.
  lia.
Qed.

Lemma good_finite lo hi v : good lo hi v -> F64.is_finite v = true.
Proof. by destruct v. Qed.

Section RoundTripTemperature.
Local Open Scope Q_scope.

(** A temperature through three scales against the exact formula of the
    direct conversion. *)
Lemma temperature_chain_close ua ub uc v V :
  good (-800) 900 v -> Qabs (to_Q v) <= V ->
  let w := of_celsius ub (to_celsius ua v) in
  let v' := of_celsius uc (to_celsius ub w) in
  good (-1016) 924 v'
  /\ Qabs (to_Q v' - exact_of_celsius uc (exact_to_celsius ua (to_Q v)))
     <= (1 # 140737488355328) * (V + 512).
Proof.
  intros Hv HV w v'. subst w v'.
  pose proof const_kelvin as [_ HK].
  assert (HV0 : 0 <= V) by (pose proof (Qabs_nonneg (to_Q v)); lra).
  destruct (to_celsius_close ua _ _ v V Hv) as [G1 E1]; try lia; [exact HV|].
  assert (B1 : Qabs (to_Q (to_celsius ua v)) <= (101 # 100) * V + 275).
  { destruct ua; cbn [exact_to_celsius to_celsius_error] in E1; qabs_lra. }
  edestruct (of_celsius_close ub) as [G2 E2];
    [exact G1 | lia | lia | lia | lia | exact B1 |].
  assert (B2 : Qabs (to_Q (of_celsius ub (to_celsius ua v)))
               <= 2 * ((101 # 100) * V + 275) + 275).
  { clear E1. destruct ub; cbn [exact_of_celsius of_celsius_error] in E2;
      qabs_lra. }
  edestruct (to_celsius_close ub) as [G3 E3];
    [exact G2 | lia | lia | lia | lia | exact B2 |].
  assert (B3 : Qabs (to_Q (to_celsius ub (of_celsius ub (to_celsius ua v))))
               <= (101 # 100) * (2 * ((101 # 100) * V + 275) + 275) + 275).
  { clear E1 E2 B1. destruct ub; cbn [exact_to_celsius to_celsius_error] in E3;
      qabs_lra. }
  edestruct (of_celsius_close uc) as [G4 E4];
    [exact G3 | lia | lia | lia | lia | exact B3 |].
  split; [eapply good_weaken; [| |exact G4]; lia|].
  clear G1 G2 G3 G4 B1 B2 B3.
  destruct ua, ub, uc;
    cbn [exact_to_celsius to_celsius_error exact_of_celsius of_celsius_error]
      in E1, E2, E3, E4 |- *;
    qabs_lra.
Qed.

(** The exact formulas of a scale are inverse to each other. *)
Lemma exact_inverse u q : exact_of_celsius u (exact_to_celsius u q) == q.
Proof. destruct u; cbn [exact_of_celsius exact_to_celsius]; ring. Qed.

(** A temperature there and back: eight roundings at most, followed
    through the exact formulas. *)
Lemma temperature_round_trip_close ua ub v V :
  good (-800) 900 v -> Qabs (to_Q v) <= V ->
  let w := of_celsius ub (to_celsius ua v) in
  let v' := of_celsius ua (to_celsius ub w) in
  good (-1016) 924 v'
  /\ Qabs (to_Q v' - to_Q v) <= (1 # 140737488355328) * (V + 512).
Proof.
  intros Hv HV.
  destruct (temperature_chain_close ua ub ua v V Hv HV) as [G H].
  split; [exact G|]. by rewrite exact_inverse in H.
Qed.

End RoundTripTemperature.

Section Magnitude.
Local Open Scope Q_scope.

Lemma value_abs s m e : Qabs (to_Q (S754_finite s m e)) == inject_Z (Zpos m) * 2 ^ e.
Proof.
  cbn [to_Q]. rewrite Qabs_Qmult, sign_abs, Qmult_1_l.
  apply Qabs_pos, value_nonneg.
Qed.

Lemma one_le_two : 1 <= 2.
Proof. discriminate. Qed.

Lemma one_lt_two : 1 < 2.
Proof. reflexivity. Qed.

(** A mantissa of [d] bits at exponent [e] lies between [2^(d-1+e)] and
    [2^(d+e)]. *)
Lemma value_bounds m e :
  let d := Zpos (digits2_pos m) in
  2 ^ (d - 1 + e) <= inject_Z (Zpos m) * 2 ^ e
  /\ inject_Z (Zpos m) * 2 ^ e < 2 ^ (d + e).
Proof.
  intros d. pose proof (digits2_bounds m) as [H1 H2]. fold d in H1, H2.
  assert (Hd : (0 < d)%Z) by (unfold d; lia).
  rewrite Zle_Qle in H1. rewrite Zlt_Qlt in H2.
  rewrite pow2_inject in H1, H2 by lia.
  rewrite !pow2_add. pose proof (pow2_pos e) as He. split.
  - apply Qmult_le_compat_r; [exact H1 | lra].
  - apply Qmult_lt_compat_r; [exact He | exact H2].
Qed.

(** These are the zeros and the floats whose magnitude lies between
    [2^-748] and [2^953], and no other float. *)
Lemma normal_in_range_magnitude v :
  F64.valid v = true ->
  (normal_in_range v = true
   <-> F64.is_zero v = true
       \/ (F64.is_finite v = true
           /\ 2 ^ (-748) <= Qabs (to_Q v) /\ Qabs (to_Q v) < 2 ^ 953)).
Proof.
  intros Hvalid.
  destruct v as [s| | |s m e]; cbn [normal_in_range F64.is_zero F64.is_finite].
  - split; [by left | done].
  - split; [done | by intros [|[? _]]].
  - split; [done | by intros [|[? _]]].
  - rewrite value_abs.
    pose proof (value_bounds m e) as [B1 B2]. cbn zeta in B1, B2.
    pose proof (digits2_bounds m) as [D1 D2].
    set (d := Zpos (digits2_pos m)) in *.
    unfold F64.valid, valid_binary, bounded, canonical_mantissa in Hvalid.
    apply andb_true_iff in Hvalid as [Hc%Z.eqb_eq He%Z.leb_le].
    fold d in Hc. unfold fexp, emin, F64.prec, F64.emax in Hc, He.
    split.
    + intros (((H1%Z.leb_le & H2%Z.ltb_lt)%andb_true_iff
               & H3%Z.leb_le)%andb_true_iff & H4%Z.leb_le)%andb_true_iff.
      right. split; [done|].
      assert (Hd : d = 53%Z) by (unfold d; apply digits2_unique; lia).
      rewrite Hd in B1, B2. split.
      * eapply Qle_trans; [|exact B1].
        apply Qpower_le_compat_l; [lia | apply one_le_two].
      * eapply Qlt_le_trans; [exact B2|].
        apply Qpower_le_compat_l; [lia | apply one_le_two].
    + intros [|(_ & L1 & L2)]; [done|].
      assert (H1 : (-748 < d + e)%Z).
      { apply (Qpower_lt_compat_l_inv 2); [|apply one_lt_two].
        eapply Qle_lt_trans; [exact L1 | exact B2]. }
      assert (H2 : (d - 1 + e < 953)%Z).
      { apply (Qpower_lt_compat_l_inv 2); [|apply one_lt_two].
        eapply Qle_lt_trans; [exact B1 | exact L2]. }
      assert (Hd : d = 53%Z) by lia.
      rewrite Hd in D1, D2.
      apply andb_true_iff. split; [|apply Z.leb_le; lia].
      apply andb_true_iff. split; [|apply Z.leb_le; lia].
      apply andb_true_iff. split; [apply Z.leb_le | apply Z.ltb_lt]; lia.
Qed.

(** The values of the round-trip theorem: the floats that are a zero or
    have a magnitude between [2^-748] and [2^953] (about 1e-225 and
    1e286). *)
Definition in_range (v : F64.float) : Prop :=
  F64.valid v = true
  /\ (F64.is_zero v = true
      \/ (F64.is_finite v = true
          /\ 2 ^ (-748) <= Qabs (to_Q v) /\ Qabs (to_Q v) < 2 ^ 953)).

Lemma in_range_good v : in_range v -> good (-800) 900 v.
Proof.
  intros [Hvalid Hv].
  by apply normal_in_range_good, normal_in_range_magnitude.
Qed.

End Magnitude.


(** ** Round trips *)

Section RoundTrip.
Local Open Scope Q_scope.

(** C8, as the specification states it, does not hold on floats:
    [1e308] kilometres in millimetres overflows to infinity, and
    converting back gives infinity, which is within no tolerance of
    [1e308]. *)
Lemma round_trip_overflows :
  F64.is_finite (F64.of_decimal 1 308) = true
  /\ convert_units reference_runtime (F64.of_decimal 1 308) "km" "mm" "length"
     = Ok {| original_value := F64.of_decimal 1 308; original_unit := "km";
             converted_value := F64.inf; target_unit := "mm";
             conversion_type := "length" |}
  /\ convert_units reference_runtime F64.inf "mm" "km" "length"
     = Ok {| original_value := F64.inf; original_unit := "mm";
             converted_value := F64.inf; target_unit := "km";
             conversion_type := "length" |}.
Proof. repeat split; vm_compute; reflexivity. Qed.

(** C8, amended.  On floats a round trip stays within a tolerance on a
    range of values.  For every float [v] that is a zero or has a
    magnitude between [2^-748] and [2^953] (about 1e-225 and 1e286), and
    all units [a], [b] of a unit type between which [v] converts, the
    result converts back, to a finite float [v'] with
    [|v' - v| <= 2^-47 * (|v| + 512)]; for the unit types "length" and
    "weight" moreover [|v' - v| <= 5 * 2^-52 * |v|].  (Beyond the range a
    product can overflow, as in the example above, or a result fall among
    the subnormal floats, where the relative error of a rounding is not
    bounded.) *)
Theorem round_trip_within_tolerance rt (v : F64.float) a b unit_type r :
  in_range v ->
  convert_units rt v a b unit_type = Ok r ->
  exists r',
    convert_units rt (converted_value r) b a unit_type = Ok r'
    /\ F64.is_finite (converted_value r') = true
    /\ Qabs (to_Q (converted_value r') - to_Q v) <= tolerance (to_Q v)
    /\ (unit_type <> "temperature" ->
        Qabs (to_Q (converted_value r') - to_Q v)
        <= (5 # 4503599627370496) * Qabs (to_Q v)).
Proof.
  intros Hv%in_range_good. unfold convert_units.
  destruct (String.eqb_spec unit_type "temperature") as [->|Hne].
  - intros Hr. cbn in Hr. injection Hr as <-.
    eexists. split; [reflexivity|]. cbn [converted_value].
    rewrite !convert_temperature_pivot.
    destruct (temperature_round_trip_close (scale_of rt a) (scale_of rt b) v
                (Qabs (to_Q v)) Hv (Qle_refl _)) as [Hg Hclose].
    split; [exact (good_finite _ _ _ Hg)|].
    split; [exact Hclose | done].
  - destruct (conversions !! unit_type) as [table|] eqn:Ht; [|discriminate].
    pose proof (tables_factors _ _ Ht) as Hok.
    destruct (dict_is_empty table); [discriminate|].
    destruct (table !! str_lower rt a) as [fa|] eqn:Ha; [|discriminate].
    destruct (table !! str_lower rt b) as [fb|] eqn:Hb; [|discriminate].
    intros Hr. cbn in Hr. injection Hr as <-.
    eexists. split; [reflexivity|]. cbn [converted_value].
    destruct (linear_round_trip_close (-800) 900 v fa fb Hv
                (Hok _ _ Ha) (Hok _ _ Hb)) as (_ & Hg & Hclose); [lia | lia |].
    cbn [n_mul n_div float_number].
    split; [exact (good_finite _ _ _ Hg)|].
    unfold within in Hclose. unfold tolerance.
    pose proof (Qabs_nonneg (to_Q v)) as H0.
    set (d := Qabs (_ - to_Q v)) in *. set (V := Qabs (to_Q v)) in *.
    clearbody d V. unfold eps in Hclose.
    split; [lra | intros _; lra].
Qed.

End RoundTrip.

Lemma round_trip_within_tolerance_witness :
  let v := F64.of_decimal 1 (-1) in
  let r := {| original_value := v; original_unit := "cm";
              converted_value :=
                F64.div (F64.mul v (F64.of_decimal 10 0))
                        (F64.of_decimal 254 (-1));
              target_unit := "in"; conversion_type := "length" |} in
  exists r',
    convert_units reference_runtime (converted_value r) "in" "cm" "length"
    = Ok r'
    /\ F64.is_finite (converted_value r') = true
    /\ (Qabs (to_Q (converted_value r') - to_Q v) <= tolerance (to_Q v))%Q
    /\ ("length" <> "temperature" ->
        (Qabs (to_Q (converted_value r') - to_Q v)
         <= (5 # 4503599627370496) * Qabs (to_Q v))%Q).
Proof.
  intros v r.
  apply (round_trip_within_tolerance reference_runtime v "cm" "in" "length" r).
  - split; [vm_compute; reflexivity|].
    right. split; [reflexivity|].
    split; [apply Qle_bool_iff | idtac]; vm_compute; reflexivity.
  - vm_compute. reflexivity.
Defined.

(** ** Two evaluations of one text *)

Section IterationOrder.

(** A process like the reference one whose strings hash otherwise: it
    walks [allowed_functions] backwards. *)
Definition reversed_runtime : runtime := {|
  rt_eval := rt_eval reference_runtime;
  rt_set_order := List.rev allowed_functions;
  rt_float_str := rt_float_str reference_runtime;
  rt_mean := rt_mean reference_runtime;
  rt_median := rt_median reference_runtime;
  rt_stdev := rt_stdev reference_runtime;
  rt_variance := rt_variance reference_runtime;
  rt_isalpha := rt_isalpha reference_runtime;
  rt_lower := rt_lower reference_runtime;
  rt_nan_mode := rt_nan_mode reference_runtime
|}.

Lemma reversed_runtime_conforms : conforms reversed_runtime.
Proof.
  split; [apply reference_runtime_conforms|].
  unfold order_conforms. cbn. symmetry. apply Permutation_rev.
Qed.

(** Where the order of the loop shows: in [cosin] the name [sin] starts
    inside [cos], and the two processes hand different texts to [eval].
    Both texts fail, on an unbound name and on a missing attribute. *)
Example overlapping_names_depend_on_order :
  overlap_free "cosin(0)" = false
  /\ safe_expr_of reference_runtime "cosin(0)" = "comath.sin(0)"
  /\ safe_expr_of reversed_runtime "cosin(0)" = "math.comath.sin(0)"
  /\ py_eval "comath.sin(0)" = Fails NameError
  /\ py_eval "math.comath.sin(0)" = Fails AttributeError.
Proof. repeat split; vm_compute; reflexivity. Qed.

(** That two evaluations of one text agree within a process is no
    property of the function that [safe_eval_expression] is here: a
    function of the text and the runtime has one outcome on a text.  What
    can differ between two evaluations is the process, and of a process
    the evaluator reads the interpreter and the order in which the set
    [allowed_functions] iterates.  The order does not matter on a text in
    which no function name starts inside another. *)

Lemma char_allowed_ext rt rt' :
  (forall c, rt_isalpha rt' c = rt_isalpha rt c) ->
  forall cs, forallb (char_allowed rt') cs = forallb (char_allowed rt) cs.
Proof.
  intros Halpha cs. induction cs as [|c cs IH]; [reflexivity|].
  cbn [forallb]. rewrite IH. f_equal.
  destruct c as [|a [|b c]]; cbn [char_allowed]; by rewrite Halpha.
Qed.

(** X19.  The order in which the substitution loop meets the names of
    [allowed_functions] is the iteration order of a set of strings, which
    changes from one process to the next.  It does not show on a text in
    which no function name starts inside another: two processes with the
    same interpreter hand the same text to [eval], and the evaluator has
    the same outcome in both, the same float or the same error. *)
Theorem loop_order_is_immaterial rt rt' expression :
  order_conforms rt -> order_conforms rt' ->
  (forall s, rt_eval rt' s = rt_eval rt s) ->
  (forall c, rt_isalpha rt' c = rt_isalpha rt c) ->
  overlap_free (remove_spaces expression) = true ->
  safe_expr_of rt' (remove_spaces expression)
  = safe_expr_of rt (remove_spaces expression)
  /\ safe_eval_expression rt' expression = safe_eval_expression rt expression.
Proof.
  intros Hord Hord' Heval Halpha Hfree.
  assert (Hexpr : safe_expr_of rt' (remove_spaces expression)
                  = safe_expr_of rt (remove_spaces expression))
    by (by rewrite !safe_expr_marked).
  split; [exact Hexpr|].
  unfold safe_eval_expression. rewrite replace_space_spec.
  rewrite (char_allowed_ext rt rt' Halpha).
  destruct (forallb _ _); [|reflexivity].
  cbn [negb]. fold (safe_expr_of rt' (remove_spaces expression)).
  fold (safe_expr_of rt (remove_spaces expression)).
  by rewrite Hexpr, Heval.
Qed.

Lemma loop_order_is_immaterial_witness :
  safe_expr_of reversed_runtime (remove_spaces "sin(0) + cos(0) * sqrt(25)")
  = safe_expr_of reference_runtime (remove_spaces "sin(0) + cos(0) * sqrt(25)")
  /\ safe_eval_expression reversed_runtime "sin(0) + cos(0) * sqrt(25)"
     = safe_eval_expression reference_runtime "sin(0) + cos(0) * sqrt(25)".
Proof.
  apply (loop_order_is_immaterial reference_runtime reversed_runtime
           "sin(0) + cos(0) * sqrt(25)").
  - apply reference_runtime_conforms.
  - apply reversed_runtime_conforms.
  - reflexivity.
  - reflexivity.
  - vm_compute. reflexivity.
Defined.

End IterationOrder.

(* ===================================================================== *)
(** * Further properties of the service                                   *)
(* ===================================================================== *)

(** ** What the evaluator reads and what it hands to [eval] *)

Section EvaluatorInput.

Lemma remove_spaces_idem s : remove_spaces (remove_spaces s) = remove_spaces s.
Proof.
  induction s as [|c s IH]; [reflexivity|].
  cbn [remove_spaces]. destruct (Ascii.eqb " " c) eqn:Hc; [exact IH|].
  cbn [remove_spaces]. by rewrite Hc, IH.
Qed.

(** X1.  Spaces do not count: two expressions that are the same text once
    their spaces are removed have the same outcome, the same float or the
    same error, and an expression has the outcome of its text without
    spaces.  (A space inside a number or a name goes too: [1 0 + 2] is
    [10+2].) *)
Theorem spaces_are_ignored rt e1 e2 :
  remove_spaces e1 = remove_spaces e2 ->
  safe_eval_expression rt e1 = safe_eval_expression rt e2
  /\ safe_eval_expression rt e1 = safe_eval_expression rt (remove_spaces e1).
Proof.
  intros Heq. unfold safe_eval_expression.
  rewrite !replace_space_spec, remove_spaces_idem, Heq. by split.
Qed.

Lemma spaces_are_ignored_witness :
  safe_eval_expression reference_runtime "1 0 + 2"
  = safe_eval_expression reference_runtime "10+2"
  /\ safe_eval_expression reference_runtime "1 0 + 2"
     = safe_eval_expression reference_runtime (remove_spaces "1 0 + 2").
Proof.
  apply (spaces_are_ignored reference_runtime "1 0 + 2" "10+2"). reflexivity.
Defined.

Lemma mem_char_str_all q c s :
  mem_char c s = true -> str_all q s = true -> q c = true.
Proof.
  induction s as [|d s IH]; cbn [mem_char str_all]; [discriminate|].
  intros [Hc | Hc]%orb_true_iff [Hd Hs]%andb_true_iff.
  - apply Ascii.eqb_eq in Hc. by subst.
  - by apply IH.
Qed.

Lemma startswith_first_char c p s :
  startswith (String c p) s = true -> mem_char c s = true.
Proof.
  destruct s as [|d s]; cbn [startswith mem_char]; [discriminate|].
  intros [-> _]%andb_true_iff. reflexivity.
Qed.

Lemma contains_first_char c p s :
  contains (String c p) s = true -> mem_char c s = true.
Proof.
  induction s as [|d s IH].
  - cbn. discriminate.
  - cbn [contains]. intros [Hs | Hs]%orb_true_iff.
    + by apply startswith_first_char in Hs.
    + cbn [mem_char]. rewrite (IH Hs). apply orb_true_r.
Qed.

(** The characters of [allowed_chars] spell none of the function names. *)
Lemma allowed_chars_no_function clean :
  str_all (fun c => mem_char c allowed_chars) clean = true ->
  Forall (fun f => contains f clean = false \/ f = "abs") allowed_functions.
Proof.
  intros Hall.
  assert (Hno : forall c p, mem_char c allowed_chars = false ->
                  contains (String c p) clean = false).
  { intros c p Hc. destruct (contains _ clean) eqn:Hin; [|reflexivity].
    apply contains_first_char in Hin.
    apply (mem_char_str_all _ _ _ Hin) in Hall. congruence. }
  unfold allowed_functions.
  repeat (apply Forall_cons; split; [first [by right | left; by apply Hno]|]).
  apply Forall_nil_2.
Qed.

(** X2.  An expression written with the characters of [allowed_chars]
    only (digits, [+ - * / . ( )], [e] and spaces) is handed to [eval] as
    it was written, less its spaces: the substitution loop changes
    nothing, in whatever order it runs, and the outcome is that of [eval]
    and [float] on that text. *)
Theorem plain_arithmetic_is_evaluated_as_written rt expression :
  order_conforms rt ->
  str_all (fun c => mem_char c allowed_chars) (remove_spaces expression) = true ->
  safe_expr_of rt (remove_spaces expression) = remove_spaces expression
  /\ safe_eval_expression rt expression
     = reported (v ← rt_eval rt (remove_spaces expression); float_of_obj v).
Proof.
  intros Hord Hall.
  assert (Hsame : safe_expr_of rt (remove_spaces expression)
                  = remove_spaces expression).
  { apply safe_expr_unchanged; [exact Hord|]. by apply allowed_chars_no_function. }
  split; [exact Hsame|].
  rewrite safe_eval_valid, Hsame; [reflexivity|].
  eapply str_all_impl; [|exact Hall].
  intros c Hc. unfold char_ok. by rewrite Hc.
Qed.

Lemma plain_arithmetic_is_evaluated_as_written_witness :
  safe_expr_of reference_runtime (remove_spaces "1e2 + (3 - 4) * 5 / 6.5")
  = remove_spaces "1e2 + (3 - 4) * 5 / 6.5"
  /\ safe_eval_expression reference_runtime "1e2 + (3 - 4) * 5 / 6.5"
     = reported (v ← rt_eval reference_runtime
                       (remove_spaces "1e2 + (3 - 4) * 5 / 6.5");
                 float_of_obj v).
Proof.
  apply (plain_arithmetic_is_evaluated_as_written reference_runtime
           "1e2 + (3 - 4) * 5 / 6.5").
  - apply reference_runtime_conforms.
  - vm_compute. reflexivity.
Defined.

Lemma str_all_append q a b :
  str_all q (a ++ b) = str_all q a && str_all q b.
Proof.
  induction a as [|c a IH]; [reflexivity|].
  change (q c && str_all q (a ++ b) = q c && str_all q a && str_all q b).
  by rewrite IH, andb_assoc.
Qed.

Lemma str_all_replace_from q old new k s :
  str_all q new = true -> str_all q s = true ->
  str_all q (replace_from old new k s) = true.
Proof.
  intros Hnew. revert k.
  induction s as [|c s IH]; intros k Hs; [reflexivity|].
  cbn [str_all] in Hs. apply andb_true_iff in Hs as [Hc Hs].
  cbn [replace_from]. destruct k as [|k]; [|by apply IH].
  destruct (startswith old (String c s)).
  - rewrite str_all_append, Hnew. by apply IH.
  - cbn [str_all]. rewrite Hc. by apply IH.
Qed.

(** An ASCII character that the filter lets through; the characters
    beyond ASCII are not judged here. *)
Definition ascii_ok (c : ascii) : bool := negb (is_ascii_char c) || char_ok c.

Lemma str_all_false_any q s :
  str_all q s = false -> str_any (fun c => negb (q c)) s = true.
Proof.
  induction s as [|c s IH]; [done|]. cbn [str_all str_any].
  destruct (q c); cbn [negb andb orb]; auto.
Qed.

(** A text that passes the filter has no ASCII character but those of
    [allowed_chars] and the letters. *)
Lemma filter_ascii_ok rt s :
  forallb (char_allowed rt) (chars s) = true -> str_all ascii_ok s = true.
Proof.
  intros Hpass. destruct (str_all ascii_ok s) eqn:Hall; [reflexivity|].
  apply str_all_false_any in Hall.
  rewrite (filter_refuses rt s) in Hpass; [done|].
  clear Hpass. induction s as [|c s IH]; [done|].
  cbn [str_any] in *. apply orb_true_iff in Hall as [Hc|Hs].
  - apply orb_true_iff. left. unfold ascii_ok in Hc.
    by destruct (is_ascii_char c), (char_ok c).
  - apply orb_true_iff. right. by apply IH.
Qed.

Lemma substitute_alphabet clean acc f :
  In f allowed_functions ->
  str_all ascii_ok acc = true ->
  str_all ascii_ok (substitute clean acc f) = true.
Proof.
  intros Hf Hacc. unfold substitute.
  destruct (contains f clean); [|exact Hacc].
  destruct (negb (String.eqb f "abs")); [|exact Hacc].
  cbn in Hf.
  repeat (destruct Hf as [<- | Hf];
          [by apply str_all_replace_from|]).
  destruct Hf.
Qed.

Lemma fold_substitute_alphabet clean order acc :
  Forall (fun f => In f allowed_functions) order ->
  str_all ascii_ok acc = true ->
  str_all ascii_ok (fold_left (substitute clean) order acc) = true.
Proof.
  intros Hall. revert acc.
  induction Hall as [|f order Hf _ IH]; intros acc Hacc; [exact Hacc|].
  cbn [fold_left]. apply IH. by apply substitute_alphabet.
Qed.

(** X3.  [eval] never sees an ASCII character that the filter refuses.
    Either the expression is rejected with "Expression contains invalid
    characters", or every ASCII character of the text handed to [eval] is
    a letter, a digit or one of [+ - * / . ( )] (the substitution adds
    nothing but [math.]): no space, quote, underscore, bracket, comma or
    equals sign reaches the interpreter. *)
Theorem eval_sees_only_the_alphabet rt expression :
  order_conforms rt ->
  safe_eval_expression rt expression
  = Raise (Exn ValueError "Expression contains invalid characters")
  \/ (let safe_expr := safe_expr_of rt (remove_spaces expression) in
      str_all (fun c => negb (is_ascii_char c) || char_ok c) safe_expr = true
      /\ safe_eval_expression rt expression
         = reported (v ← rt_eval rt safe_expr; float_of_obj v)).
Proof.
  intros Hord.
  destruct (passes_filter rt expression) eqn:Hok.
  - right. cbn zeta. split; [|by apply safe_eval_passed].
    apply (fold_substitute_alphabet (remove_spaces expression));
      [|by apply (filter_ascii_ok rt)].
    apply Forall_forall. intros f Hf.
    apply list_elem_of_In in Hf.
    eapply Permutation_in; [exact Hord | exact Hf].
  - left. by apply safe_eval_refused.
Qed.

Lemma eval_sees_only_the_alphabet_witness :
  safe_eval_expression reference_runtime "sqrt(16) + abs(-5)"
  = Raise (Exn ValueError "Expression contains invalid characters")
  \/ (let safe_expr :=
        safe_expr_of reference_runtime (remove_spaces "sqrt(16) + abs(-5)") in
      str_all (fun c => negb (is_ascii_char c) || char_ok c) safe_expr = true
      /\ safe_eval_expression reference_runtime "sqrt(16) + abs(-5)"
         = reported (v ← rt_eval reference_runtime safe_expr; float_of_obj v)).
Proof.
  apply (eval_sees_only_the_alphabet reference_runtime "sqrt(16) + abs(-5)").
  apply reference_runtime_conforms.
Defined.

(** X4.  An empty expression, or one made of spaces only, is rejected:
    [eval] is called on the empty text, raises [SyntaxError], and the
    evaluator reports it as a [ValueError] "Invalid expression: ...". *)
Theorem empty_expression_is_rejected rt expression :
  conforms rt ->
  remove_spaces expression = "" ->
  exists msg,
    rt_eval rt "" = Raise (Exn SyntaxError msg)
    /\ safe_eval_expression rt expression
       = Raise (Exn ValueError ("Invalid expression: " ++ msg)).
Proof.
  intros Hrt Hempty.
  destruct (conforms_fails rt "" SyntaxError Hrt) as [msg Hmsg];
    [vm_compute; reflexivity|].
  exists msg. split; [exact Hmsg|].
  rewrite safe_eval_valid; rewrite Hempty; [|reflexivity].
  rewrite safe_expr_unchanged.
  - by rewrite Hmsg.
  - apply Hrt.
  - repeat constructor.
Qed.

Lemma empty_expression_is_rejected_witness :
  exists msg,
    rt_eval reference_runtime "" = Raise (Exn SyntaxError msg)
    /\ safe_eval_expression reference_runtime "   "
       = Raise (Exn ValueError ("Invalid expression: " ++ msg)).
Proof.
  apply (empty_expression_is_rejected reference_runtime "   ").
  - apply reference_runtime_conforms.
  - reflexivity.
Defined.

End EvaluatorInput.

(** ** A session *)

Section Session.

(** A session: [calculate] called on each (expression, time) of [calls]
    in turn, each call on the context that the one before left. *)
Definition run_calculations (rt : runtime) (calls : list (string * string))
    (ctx : AppContext) : AppContext :=
  fold_left (fun ctx call => snd (calculate rt (fst call) (snd call) ctx))
            calls ctx.

(** The record that a call leaves, if it leaves one. *)
Definition recorded (rt : runtime) (call : string * string)
  : option history_entry :=
  match safe_eval_expression rt (fst call) with
  | Ok x =>
      Some {| h_type := "calculation"; h_expression := fst call;
              h_result := x; h_timestamp := snd call |}
  | Raise _ => None
  end.

(** X5.  The history is append-only.  After any sequence of calls of
    [calculate] the history is what it was, followed by one record for
    each call that succeeded, in the order of the calls, and nothing for
    the calls that failed; a session that [app_lifespan] started holds
    exactly these records; no call shortens the history. *)
Theorem history_is_append_only rt calls ctx :
  calculation_history (run_calculations rt calls ctx)
  = (calculation_history ctx ++ omap (recorded rt) calls)%list
  /\ calculation_history (run_calculations rt calls app_lifespan)
     = omap (recorded rt) calls
  /\ (length (calculation_history ctx)
      <= length (calculation_history (run_calculations rt calls ctx)))%nat.
Proof.
  assert (Hrun : forall ctx,
            calculation_history (run_calculations rt calls ctx)
            = (calculation_history ctx ++ omap (recorded rt) calls)%list).
  { clear ctx. unfold run_calculations.
    induction calls as [|[e now] calls IH]; intros ctx; cbn [fold_left].
    - symmetry. apply app_nil_r.
    - rewrite IH.
      change (omap (recorded rt) ((e, now) :: calls))
        with (match recorded rt (e, now) with
              | Some y => y :: omap (recorded rt) calls
              | None => omap (recorded rt) calls
              end).
      set (later := omap (recorded rt) calls).
      unfold calculate, recorded. cbn [fst snd].
      destruct (safe_eval_expression rt e); cbn [snd calculation_history].
      + by rewrite <- app_assoc.
      + reflexivity. }
  split; [apply Hrun|]. split; [apply Hrun|].
  rewrite Hrun, length_app. lia.
Qed.

End Session.

(** ** The operations of [statistics] *)

Section Operations.

(** X6.  On data that is not empty, an operation other than "mean",
    "median", "mode", "std_dev" and "variance", spelled exactly so, fails
    with a [ValueError] that names the operation asked for and lists the
    five. *)
Theorem statistics_unknown_operation rt numbers operation :
  numbers <> [] ->
  ~ In operation ["mean"; "median"; "mode"; "std_dev"; "variance"] ->
  statistics rt numbers operation
  = Raise (Exn ValueError
      ("Unknown operation '" ++ operation
       ++ "'. Available: ['mean', 'median', 'mode', 'std_dev', 'variance']")).
Proof.
  intros Hne Hop. unfold statistics.
  destruct numbers as [|x numbers]; [done|].
  cbn [operations dict_get].
  repeat match goal with
  | |- context [String.eqb operation ?k] =>
      destruct (String.eqb_spec operation k) as [->|_];
        [exfalso; apply Hop; cbn; tauto|]
  end.
  reflexivity.
Qed.

Lemma statistics_unknown_operation_witness :
  statistics reference_runtime [F64.of_Z 1; F64.of_Z 2] "Mean"
  = Raise (Exn ValueError
      ("Unknown operation '" ++ "Mean"
       ++ "'. Available: ['mean', 'median', 'mode', 'std_dev', 'variance']")).
Proof.
  apply (statistics_unknown_operation reference_runtime
           [F64.of_Z 1; F64.of_Z 2] "Mean").
  - discriminate.
  - cbn. intros [H | [H | [H | [H | [H | []]]]]]; discriminate H.
Defined.

(** X7.  A result of [statistics] is consistent with the call: when the
    call returns, the data was not empty, the operation is one of the
    five, and the record carries the operation and the data as they were
    given, with [count] the length of the data. *)
Theorem statistics_result_is_consistent rt numbers operation r :
  statistics rt numbers operation = Ok r ->
  numbers <> []
  /\ In operation ["mean"; "median"; "mode"; "std_dev"; "variance"]
  /\ sr_operation r = operation
  /\ sr_input_data r = numbers
  /\ sr_count r = length numbers.
Proof.
  unfold statistics. destruct numbers as [|x numbers]; [discriminate|].
  destruct (dict_get operation (operations rt)) as [f|] eqn:Hop; [|discriminate].
  destruct (f (x :: numbers)) as [y|e]; [|discriminate].
  cbn. intros [= <-]. split; [done|]. split; [|done].
  unfold operations in Hop. cbn [dict_get] in Hop.
  repeat match type of Hop with
  | context [String.eqb operation ?k] =>
      destruct (String.eqb_spec operation k) as [->|_]; [cbn; tauto|]
  end.
  discriminate Hop.
Qed.

Lemma statistics_result_is_consistent_witness :
  [F64.of_Z 7] <> []
  /\ In "variance" ["mean"; "median"; "mode"; "std_dev"; "variance"]
  /\ sr_operation {| sr_operation := "variance"; sr_input_data := [F64.of_Z 7];
                     sr_result := F64.of_Z 0; sr_count := 1 |} = "variance"
  /\ sr_input_data {| sr_operation := "variance"; sr_input_data := [F64.of_Z 7];
                      sr_result := F64.of_Z 0; sr_count := 1 |} = [F64.of_Z 7]
  /\ sr_count {| sr_operation := "variance"; sr_input_data := [F64.of_Z 7];
                 sr_result := F64.of_Z 0; sr_count := 1 |}
     = length [F64.of_Z 7].
Proof.
  apply (statistics_result_is_consistent reference_runtime [F64.of_Z 7] "variance").
  reflexivity.
Defined.

End Operations.

(** ** Unit symbols *)

Section UnitSymbols.
Context {N : Type} `{Number N}.
Context (rt : runtime).

(** The unit symbols of a unit type, as the docstring of [convert_units]
    lists them. *)
Definition unit_symbols (unit_type : string) : list string :=
  if String.eqb unit_type "length"
  then ["mm"; "cm"; "m"; "km"; "in"; "ft"; "yd"; "mi"]
  else if String.eqb unit_type "weight" then ["g"; "kg"; "oz"; "lb"]
  else [].

(** The tables hold the listed symbols and nothing else. *)
Lemma conversion_table_symbols unit_type :
  unit_type = "length" \/ unit_type = "weight" ->
  exists table : gmap string N,
    conversions !! unit_type = Some table
    /\ dict_is_empty table = false
    /\ (forall k, ~ In k (unit_symbols unit_type) -> table !! k = None)
    /\ (forall k, In k (unit_symbols unit_type) -> is_Some (table !! k)).
Proof.
  unfold conversions.
  intros [-> | ->]; eexists;
    (split; [first [apply lookup_insert_eq
                   | rewrite lookup_insert_ne by done; apply lookup_singleton_eq]|]).
  all: split; [vm_compute; reflexivity|].
  all: split; intros k Hk; cbn in Hk.
  - rewrite !lookup_insert_ne by (intros <-; tauto).
    apply lookup_singleton_ne. intros <-; tauto.
  - repeat (destruct Hk as [<- | Hk]; [vm_compute; by eexists|]). destruct Hk.
  - rewrite !lookup_insert_ne by (intros <-; tauto).
    apply lookup_singleton_ne. intros <-; tauto.
  - repeat (destruct Hk as [<- | Hk]; [vm_compute; by eexists|]). destruct Hk.
Qed.

(** X8.  For the unit types "length" and "weight" the units accepted are
    those the docstring lists, and a symbol is looked up by its
    [lower()].  A [from_unit] whose [lower()] is outside the list fails
    with "Unknown <type> unit '<from_unit>'", whatever [to_unit] is; a
    listed [from_unit] with a [to_unit] outside the list fails with the
    same message about [to_unit]; two listed units convert, and the
    result carries value, symbols and type as they were given.  The
    messages quote the symbol as the caller wrote it. *)
Theorem convert_units_unknown_unit (value : N) from_unit to_unit unit_type :
  unit_type = "length" \/ unit_type = "weight" ->
  (~ In (str_lower rt from_unit) (unit_symbols unit_type) ->
   convert_units rt value from_unit to_unit unit_type
   = Raise (Exn ValueError
       ("Unknown " ++ unit_type ++ " unit '" ++ from_unit ++ "'")))
  /\ (In (str_lower rt from_unit) (unit_symbols unit_type) ->
      ~ In (str_lower rt to_unit) (unit_symbols unit_type) ->
      convert_units rt value from_unit to_unit unit_type
      = Raise (Exn ValueError
          ("Unknown " ++ unit_type ++ " unit '" ++ to_unit ++ "'")))
  /\ (In (str_lower rt from_unit) (unit_symbols unit_type) ->
      In (str_lower rt to_unit) (unit_symbols unit_type) ->
      exists r,
        convert_units rt value from_unit to_unit unit_type = Ok r
        /\ original_value r = value
        /\ original_unit r = from_unit /\ target_unit r = to_unit
        /\ conversion_type r = unit_type).
Proof.
  intros Ht.
  destruct (conversion_table_symbols unit_type Ht)
    as (table & Htable & Hne & Hout & Hin).
  assert (Htemp : String.eqb unit_type "temperature" = false)
    by (by destruct Ht as [-> | ->]).
  unfold convert_units. rewrite Htemp, Htable, Hne.
  split; [|split].
  - intros Hfrom. by rewrite (Hout _ Hfrom).
  - intros Hfrom Hto.
    destruct (Hin _ Hfrom) as [f ->]. by rewrite (Hout _ Hto).
  - intros Hfrom Hto.
    destruct (Hin _ Hfrom) as [f ->]. destruct (Hin _ Hto) as [g ->].
    eexists. split; [reflexivity|]. by repeat split.
Qed.

(** X9.  Unit symbols are read without regard to letter case: two calls
    whose unit symbols differ in case only both fail or both succeed,
    with the same converted value, for every unit type. *)
Theorem unit_symbols_ignore_case (value : N) a a' b b' unit_type :
  lower a = lower a' -> lower b = lower b' ->
  match convert_units rt value a b unit_type,
        convert_units rt value a' b' unit_type with
  | Ok r, Ok r' => converted_value r = converted_value r'
  | Raise _, Raise _ => True
  | _, _ => False
  end.
Proof.
  intros Ha Hb. unfold convert_units, convert_temperature.
  rewrite (str_lower_case rt a a' Ha), (str_lower_case rt b b' Hb).
  destruct (String.eqb unit_type "temperature"); [reflexivity|].
  destruct (conversions !! unit_type) as [table|]; [|exact I].
  destruct (dict_is_empty table); [exact I|].
  destruct (table !! str_lower rt a'), (table !! str_lower rt b'); cbn; done.
Qed.

(** X10.  With the unit type "temperature" no call fails, whatever the
    unit symbols: the tables are not consulted, and a symbol whose
    [lower()] is neither [f] nor [k] (a unit of length, say) is read as
    Celsius, so that between two such symbols the value comes back
    unchanged. *)
Theorem temperature_accepts_any_symbol (value : N) from_unit to_unit :
  (exists r,
     convert_units rt value from_unit to_unit "temperature" = Ok r
     /\ converted_value r = convert_temperature rt value from_unit to_unit
     /\ original_unit r = from_unit /\ target_unit r = to_unit)
  /\ (scale_of rt from_unit = Celsius -> scale_of rt to_unit = Celsius ->
      convert_units rt value from_unit to_unit "temperature"
      = Ok {| original_value := value; original_unit := from_unit;
              converted_value := value; target_unit := to_unit;
              conversion_type := "temperature" |}).
Proof.
  split.
  - eexists. split; [reflexivity|]. by repeat split.
  - intros Hfrom Hto. unfold convert_units. cbn.
    by rewrite convert_temperature_pivot, Hfrom, Hto.
Qed.

End UnitSymbols.

Lemma convert_units_unknown_unit_witness :
  convert_units reference_runtime (F64.of_Z 1) "m" "Furlong" "length"
  = Raise (Exn ValueError
      ("Unknown " ++ "length" ++ " unit '" ++ "Furlong" ++ "'")).
Proof.
  apply (convert_units_unknown_unit reference_runtime (F64.of_Z 1)
           "m" "Furlong" "length").
  - by left.
  - cbn. tauto.
  - cbn. intros [H | [H | [H | [H | [H | [H | [H | [H | []]]]]]]]];
      discriminate H.
Defined.

Lemma unit_symbols_ignore_case_witness :
  match convert_units reference_runtime (F64.of_Z 1) "M" "Km" "length",
        convert_units reference_runtime (F64.of_Z 1) "m" "kM" "length" with
  | Ok r, Ok r' => converted_value r = converted_value r'
  | Raise _, Raise _ => True
  | _, _ => False
  end.
Proof.
  apply (unit_symbols_ignore_case reference_runtime (F64.of_Z 1)
           "M" "m" "Km" "kM" "length");
    reflexivity.
Defined.

(** ** Composition of conversions *)

Section Composition.
Local Open Scope Q_scope.

(** A temperature converted directly, against the exact formula. *)
Lemma temperature_direct_close ua uc v V :
  good (-800) 900 v -> Qabs (to_Q v) <= V ->
  Qabs (to_Q (of_celsius uc (to_celsius ua v))
        - exact_of_celsius uc (exact_to_celsius ua (to_Q v)))
  <= (1 # 140737488355328) * (V + 512).
Proof.
  intros Hv HV.
  pose proof const_kelvin as [_ HK].
  assert (HV0 : 0 <= V) by (pose proof (Qabs_nonneg (to_Q v)); lra).
  destruct (to_celsius_close ua _ _ v V Hv) as [G1 E1]; try lia; [exact HV|].
  assert (B1 : Qabs (to_Q (to_celsius ua v)) <= (101 # 100) * V + 275).
  { destruct ua; cbn [exact_to_celsius to_celsius_error] in E1; qabs_lra. }
  edestruct (of_celsius_close uc) as [G2 E2];
    [exact G1 | lia | lia | lia | lia | exact B1 |].
  clear G1 G2 B1.
  destruct ua, uc;
    cbn [exact_to_celsius to_celsius_error exact_of_celsius of_celsius_error]
      in E1, E2 |- *;
    qabs_lra.
Qed.

(** Through an intermediate unit and directly: five roundings against
    two, on one product. *)
Lemma linear_chain_close lo hi v fa fb fc :
  good lo hi v ->
  factor_ok fa = true -> factor_ok fb = true -> factor_ok fc = true ->
  (-1000 <= lo)%Z -> (hi <= 900)%Z ->
  let w := F64.div (F64.mul v fa) fb in
  let e := F64.div (F64.mul w fb) fc in
  let d := F64.div (F64.mul v fa) fc in
  Qabs (to_Q e - to_Q d) <= 5 * eps * Qabs (to_Q d).
Proof.
  intros Hv [Ha HA]%factor_normal [Hb HB]%factor_normal [Hc HC]%factor_normal
    Hlo Hhi w e d.
  destruct (mul_spec lo hi (-52) (-32) v fa) as [G1 C1];
    [done | by apply normal_good | lia | lia |].
  destruct (div_spec _ _ (-52) (-32) (F64.mul v fa) fb G1 Hb) as [G2 C2];
    [lia | lia |].
  fold w in G2, C2.
  destruct (mul_spec _ _ (-52) (-32) w fb G2) as [G3 C3];
    [by apply normal_good | lia | lia |].
  destruct (div_spec _ _ (-52) (-32) (F64.mul w fb) fc G3 Hc) as [G4 C4];
    [lia | lia |].
  fold e in G4, C4.
  destruct (div_spec _ _ (-52) (-32) (F64.mul v fa) fc G1 Hc) as [G5 C5];
    [lia | lia |].
  fold d in G5, C5.
  clear C1 G1 G2 G3 G4 G5.
  set (B := to_Q fb) in *. set (C := to_Q fc) in *.
  set (T1 := to_Q (F64.mul v fa)) in *. set (T2 := to_Q w) in *.
  set (T3 := to_Q (F64.mul w fb)) in *. set (E := to_Q e) in *.
  set (D := to_Q d) in *.
  clearbody B C T1 T2 T3 E D.
  set (q := T1 / C) in *.
  apply (close_scale (B * / C)) in C2.
  assert (E2 : T1 / B * (B * / C) == q) by (unfold q; field; lra).
  rewrite E2 in C2.
  apply (close_scale (/ C)) in C3.
  assert (E3 : T2 * B * / C == T2 * (B * / C)) by (field; lra).
  rewrite E3 in C3.
  change (T3 / C) with (T3 * / C) in C4.
  pose proof (within_step _ _ _ _ (Qle_refl 0) (within_refl q) C2) as W2.
  pose proof (fun H => within_step _ _ _ _ H W2 C3) as W3.
  specialize (W3 ltac:(qle)).
  pose proof (fun H => within_step _ _ _ _ H W3 C4) as W4.
  specialize (W4 ltac:(qle)).
  apply (within_weaken _ ((31 # 10) * eps)) in W4; [|qle].
  unfold within in W4. unfold close in C5.
  clearbody q. clear - W4 C5.
  assert (T : E - D == (E - q) + - (D - q)) by ring.
  pose proof (Qabs_triangle (E - q) (- (D - q))) as H1.
  rewrite <- T, Qabs_opp in H1.
  assert (T' : q == D + - (D - q)) by ring.
  pose proof (Qabs_triangle D (- (D - q))) as H2.
  rewrite <- T', Qabs_opp in H2.
  pose proof (Qabs_nonneg D) as H3.
  set (x := Qabs (E - D)) in *. set (y := Qabs (E - q)) in *.
  set (z := Qabs (D - q)) in *. set (a := Qabs q) in *.
  set (b := Qabs D) in *. clearbody x y z a b.
  unfold eps in *. lra.
Qed.

(** X11.  On floats conversions compose up to rounding.  For every float
    [v] that is a zero or has a magnitude between [2^-748] and [2^953],
    when [v] converts from [a] to [b] and the result from [b] to [c], it
    converts from [a] to [c] too, and the two results differ by no more
    than [5 * 2^-52] of the direct one for the unit types "length" and
    "weight", and by no more than [2^-46 * (|v| + 512)] for
    "temperature". *)
Theorem conversions_compose rt (v : F64.float) a b c unit_type r1 r2 :
  in_range v ->
  convert_units rt v a b unit_type = Ok r1 ->
  convert_units rt (converted_value r1) b c unit_type = Ok r2 ->
  exists r3,
    convert_units rt v a c unit_type = Ok r3
    /\ (unit_type <> "temperature" ->
        Qabs (to_Q (converted_value r2) - to_Q (converted_value r3))
        <= (5 # 4503599627370496) * Qabs (to_Q (converted_value r3)))
    /\ (unit_type = "temperature" ->
        Qabs (to_Q (converted_value r2) - to_Q (converted_value r3))
        <= (1 # 70368744177664) * (Qabs (to_Q v) + 512)).
Proof.
  intros Hv%in_range_good. unfold convert_units.
  destruct (String.eqb_spec unit_type "temperature") as [->|Hne].
  - intros Hr1 Hr2. cbn in Hr1. injection Hr1 as <-.
    cbn in Hr2. injection Hr2 as <-.
    eexists. split; [reflexivity|]. cbn [converted_value].
    split; [done|]. intros _.
    rewrite !convert_temperature_pivot.
    destruct (temperature_chain_close (scale_of rt a) (scale_of rt b)
                (scale_of rt c) v (Qabs (to_Q v)) Hv (Qle_refl _))
      as [_ H1].
    pose proof (temperature_direct_close (scale_of rt a) (scale_of rt c) v
                  (Qabs (to_Q v)) Hv (Qle_refl _)) as H2.
    cbn zeta in H1.
    set (x := exact_of_celsius _ _) in *.
    set (e := to_Q (of_celsius (scale_of rt c) (to_celsius (scale_of rt b) _))) in *.
    set (d := to_Q (of_celsius (scale_of rt c) (to_celsius (scale_of rt a) v))) in *.
    set (V := Qabs (to_Q v)) in *. clearbody x e d V.
    apply Qabs_Qle_condition in H1, H2. apply Qabs_Qle_condition. lra.
  - destruct (conversions !! unit_type) as [table|] eqn:Ht; [|discriminate].
    pose proof (tables_factors _ _ Ht) as Hok.
    destruct (dict_is_empty table); [discriminate|].
    destruct (table !! str_lower rt a) as [fa|] eqn:Ha; [|discriminate].
    destruct (table !! str_lower rt b) as [fb|] eqn:Hb; [|discriminate].
    intros Hr1. cbn in Hr1. injection Hr1 as <-. cbn [converted_value].
    destruct (table !! str_lower rt c) as [fc|] eqn:Hc; [|discriminate].
    intros Hr2. cbn in Hr2. injection Hr2 as <-.
    eexists. split; [reflexivity|]. cbn [converted_value].
    split; [|done]. intros _.
    pose proof (linear_chain_close (-800) 900 v fa fb fc Hv
                  (Hok _ _ Ha) (Hok _ _ Hb) (Hok _ _ Hc)
                  ltac:(lia) ltac:(lia)) as H.
    cbn zeta in H. cbn [n_mul n_div float_number].
    unfold eps in H.
    eapply Qle_trans; [exact H|]. apply Qmult_le_compat_r; [qle | apply Qabs_nonneg].
Qed.

End Composition.

Lemma conversions_compose_witness :
  let v := F64.of_decimal 1 (-1) in
  let r1 := {| original_value := v; original_unit := "cm";
               converted_value :=
                 F64.div (F64.mul v (F64.of_decimal 10 0))
                         (F64.of_decimal 254 (-1));
               target_unit := "in"; conversion_type := "length" |} in
  let r2 := {| original_value := converted_value r1; original_unit := "in";
               converted_value :=
                 F64.div (F64.mul (converted_value r1) (F64.of_decimal 254 (-1)))
                         (F64.of_decimal 3048 (-1));
               target_unit := "ft"; conversion_type := "length" |} in
  exists r3,
    convert_units reference_runtime v "cm" "ft" "length" = Ok r3
    /\ ("length" <> "temperature" ->
        (Qabs (to_Q (converted_value r2) - to_Q (converted_value r3))
         <= (5 # 4503599627370496) * Qabs (to_Q (converted_value r3)))%Q)
    /\ ("length" = "temperature" ->
        (Qabs (to_Q (converted_value r2) - to_Q (converted_value r3))
         <= (1 # 70368744177664) * (Qabs (to_Q v) + 512))%Q).
Proof.
  intros v r1 r2.
  apply (conversions_compose reference_runtime v "cm" "in" "ft" "length" r1 r2).
  - split; [vm_compute; reflexivity|].
    right. split; [reflexivity|].
    split; [apply Qle_bool_iff | idtac]; vm_compute; reflexivity.
  - vm_compute. reflexivity.
  - vm_compute. reflexivity.
Defined.

(** ** Rounding *)

(** What the proofs about [compound_interest] need of binary64
    arithmetic. *)
Section FloatRounding.

(** One shift to the right of a mantissa of two bits or more leaves a
    mantissa with one bit less. *)
Lemma shr_1_positive p r s :
  1 < Zpos (digits2_pos p) ->
  exists q r' s',
    shr_1 {| shr_m := Zpos p; shr_r := r; shr_s := s |}
    = {| shr_m := Zpos q; shr_r := r'; shr_s := s' |}
    /\ Zpos (digits2_pos q) = Zpos (digits2_pos p) - 1.
Proof.
  destruct p as [p|p|]; cbn [shr_1 digits2_pos]; intros Hd.
  - do 3 eexists. split; [reflexivity | lia].
  - do 3 eexists. split; [reflexivity | lia].
  - lia.
Qed.

Lemma iter_shr_positive k : forall p r s,
  Zpos k < Zpos (digits2_pos p) ->
  exists q r' s',
    SpecFloat.iter_pos shr_1 k {| shr_m := Zpos p; shr_r := r; shr_s := s |}
    = {| shr_m := Zpos q; shr_r := r'; shr_s := s' |}
    /\ Zpos (digits2_pos q) = Zpos (digits2_pos p) - Zpos k.
Proof.
  induction k as [k IH | k IH |]; intros p r s Hk; cbn [SpecFloat.iter_pos].
  - rewrite Pos2Z.inj_xI in *.
    destruct (shr_1_positive p r s) as (q0 & r0 & s0 & -> & H0); [lia|].
    destruct (IH q0 r0 s0) as (q1 & r1 & s1 & -> & H1); [lia|].
    destruct (IH q1 r1 s1) as (q2 & r2 & s2 & -> & H2); [lia|].
    do 3 eexists. split; [reflexivity | lia].
  - rewrite Pos2Z.inj_xO in *.
    destruct (IH p r s) as (q1 & r1 & s1 & -> & H1); [lia|].
    destruct (IH q1 r1 s1) as (q2 & r2 & s2 & -> & H2); [lia|].
    do 3 eexists. split; [reflexivity | lia].
  - by apply shr_1_positive.
Qed.

(** Away from the subnormal range, the shift that brings a mantissa to
    53 bits leaves it positive. *)
Lemma shr_fexp_positive p e l :
  -1022 <= e ->
  exists q r s e',
    shr_fexp F64.prec F64.emax (Zpos p) e l
    = ({| shr_m := Zpos q; shr_r := r; shr_s := s |}, e')
    /\ e <= e'.
Proof.
  intros He. unfold shr_fexp, Zdigits2, fexp, emin, F64.prec, F64.emax.
  pose proof (Pos2Z.is_pos (digits2_pos p)) as Hd.
  rewrite Z.max_l by lia.
  destruct (shr_record_of_loc (Zpos p) l) as [m r s] eqn:Hrec.
  assert (m = Zpos p) as -> by (destruct l as [|[]]; cbn in Hrec; congruence).
  unfold shr.
  destruct (Zpos (digits2_pos p) + e - 53 - e) as [|k|k] eqn:Hn.
  - do 4 eexists. split; [reflexivity | lia].
  - destruct (iter_shr_positive k p r s) as (q & r' & s' & -> & _); [lia|].
    do 4 eexists. split; [reflexivity | lia].
  - do 4 eexists. split; [reflexivity | lia].
Qed.

(** Rounding a positive mantissa, away from the subnormal range, gives a
    number that is not zero. *)
Lemma binary_round_aux_positive sx p e l :
  -1022 <= e ->
  (exists m e', binary_round_aux F64.prec F64.emax sx (Zpos p) e l
                = S754_finite sx m e')
  \/ binary_round_aux F64.prec F64.emax sx (Zpos p) e l = S754_infinity sx.
Proof.
  intros He. unfold binary_round_aux.
  destruct (shr_fexp_positive p e l He) as (q & r & s & e' & -> & He').
  assert (exists q2,
            round_nearest_even
              (shr_m {| shr_m := Zpos q; shr_r := r; shr_s := s |})
              (loc_of_shr_record {| shr_m := Zpos q; shr_r := r; shr_s := s |})
            = Zpos q2) as [q2 ->].
  { cbn [shr_m]. destruct r, s; cbn; try (eexists; reflexivity).
    destruct q; eexists; reflexivity. }
  destruct (shr_fexp_positive q2 e' loc_Exact) as (q3 & r3 & s3 & e3 & -> & _);
    [lia|].
  cbn [shr_m]. destruct (e3 <=? _); [left; by do 2 eexists | by right].
Qed.

(** The sign of a rounded number is the one asked for. *)
Lemma binary_round_aux_sign sx m e l :
  match binary_round_aux F64.prec F64.emax sx m e l with
  | S754_zero s | S754_infinity s | S754_finite s _ _ => s = sx
  | S754_nan => True
  end.
Proof.
  unfold binary_round_aux.
  destruct (shr_fexp _ _ m e l) as [mrs e'].
  destruct (shr_fexp _ _ _ e' loc_Exact) as [mrs' e''].
  destruct (shr_m mrs'); [|destruct (_ <=? _)|]; done.
Qed.

(** [float(n)] of a positive [int] in range is a positive float. *)
Lemma of_Z_positive n :
  0 < n -> F64.is_inf (F64.of_Z n) = false ->
  exists m e, F64.of_Z n = S754_finite false m e.
Proof.
  destruct n as [|p|p]; try lia. intros _.
  unfold F64.of_Z, binary_normalize, binary_round.
  destruct (shl_align p 0 _) as [mz ez] eqn:Hal.
  assert (-1022 <= ez) as Hez.
  { unfold shl_align, fexp, emin, F64.prec, F64.emax in Hal.
    pose proof (Pos2Z.is_pos (digits2_pos p)) as Hd.
    rewrite Z.max_l in Hal by lia.
    destruct (Zpos (digits2_pos p) + 0 - 53 - 0) eqn:Hn;
      injection Hal as <- <-; lia. }
  destruct (binary_round_aux_positive false mz ez loc_Exact Hez)
    as [(m & e & ->) | ->]; [by do 2 eexists | discriminate].
Qed.

Lemma digits_shift52 m :
  Zpos (digits2_pos (m * 4503599627370496)) = Zpos (digits2_pos m) + 52.
Proof.
  rewrite Pos.mul_comm. cbv [Pos.mul]. cbn [digits2_pos].
  rewrite !Pos2Z.inj_succ. lia.
Qed.

Lemma iter_shr_52 m :
  SpecFloat.iter_pos shr_1 52
    {| shr_m := Zpos (m * 4503599627370496); shr_r := false; shr_s := false |}
  = {| shr_m := Zpos m; shr_r := false; shr_s := false |}.
Proof. rewrite Pos.mul_comm. reflexivity. Qed.

(** [x * 1.0] is [x]. *)
Lemma mul_one_r x : F64.valid x = true -> F64.mul x (F64.of_Z 1) = x.
Proof.
  change (F64.of_Z 1) with (S754_finite false 4503599627370496 (-52)).
  destruct x as [s|s| |s m e]; intros Hv; try done; try (by destruct s).
  unfold F64.valid, valid_binary, bounded, canonical_mantissa in Hv.
  apply andb_true_iff in Hv as [Hc Hb]. apply Z.eqb_eq in Hc.
  unfold F64.mul, SFmul. rewrite xorb_false_r.
  assert (H1 : shr_fexp F64.prec F64.emax (Zpos (m * 4503599627370496))
                 (e + -52) loc_Exact
               = ({| shr_m := Zpos m; shr_r := false; shr_s := false |}, e)).
  { unfold shr_fexp, Zdigits2. rewrite digits_shift52.
    replace (Zpos (digits2_pos m) + 52 + (e + -52))
      with (Zpos (digits2_pos m) + e) by lia.
    rewrite Hc. replace (e - (e + -52)) with 52 by lia.
    cbn [shr_record_of_loc shr]. rewrite iter_shr_52. f_equal. lia. }
  assert (H2 : shr_fexp F64.prec F64.emax (Zpos m) e loc_Exact
               = ({| shr_m := Zpos m; shr_r := false; shr_s := false |}, e)).
  { unfold shr_fexp, Zdigits2. rewrite Hc, Z.sub_diag. reflexivity. }
  unfold binary_round_aux. rewrite H1.
  cbn [shr_m loc_of_shr_record round_nearest_even]. rewrite H2.
  cbn [shr_m]. by rewrite Hb.
Qed.

(** [x - x] is [0.0] for a finite [x]. *)
Lemma sub_diag x : F64.is_finite x = true -> F64.sub x x = F64.pos_zero.
Proof.
  destruct x as [[]|s| |s m e]; intros Hx; try done.
  unfold F64.sub, SFsub, shl_align. rewrite Z.min_id, !Z.sub_diag.
  reflexivity.
Qed.

(** [1.0 ** y] is [1.0], whatever [y]. *)
Lemma float_pow_one y : float_pow (F64.of_Z 1) y = Done (F64.of_Z 1).
Proof. destruct y as [[]|[]| |[] m e]; reflexivity. Qed.

Lemma not_negative_round m e l :
  F64.ltb (binary_round_aux F64.prec F64.emax false m e l) (F64.of_Z 0) = false.
Proof.
  pose proof (binary_round_aux_sign false m e l) as Hs.
  destruct (binary_round_aux _ _ _ _ _ _); subst; reflexivity.
Qed.

(** The base of the power, [1 + rate / n], is never negative. *)
Lemma base_not_negative rate n :
  F64.ltb rate (F64.of_Z 0) = false -> 0 < n ->
  F64.ltb (F64.add (F64.of_Z 1) (F64.div rate (F64.of_Z n))) (F64.of_Z 0)
  = false.
Proof.
  intros Hrate Hn.
  destruct n as [|p|p]; try lia.
  assert (Hfn : match F64.of_Z (Zpos p) with
                | S754_zero s | S754_infinity s | S754_finite s _ _ => s = false
                | S754_nan => True
                end).
  { unfold F64.of_Z, binary_normalize, binary_round.
    destruct (shl_align _ _ _). apply binary_round_aux_sign. }
  change (F64.of_Z 1) with (S754_finite false 4503599627370496 (-52)).
  destruct (F64.of_Z (Zpos p)) as [sn|sn| |sn mn en]; subst;
    destruct rate as [s|[]| |[] mr er]; try discriminate Hrate;
    try reflexivity; try (by destruct s).
  unfold F64.div, SFdiv. cbn [xorb].
  destruct (SFdiv_core_binary _ _ _ _ _ _) as [[mz ez] lz].
  pose proof (binary_round_aux_sign false mz ez lz) as Hs.
  destruct (binary_round_aux _ _ _ _ _ _) as [s|s| |s mq eq]; subst;
    try reflexivity.
  unfold F64.add, SFadd. cbn [cond_Zopp].
  set (a := fst (shl_align 4503599627370496 _ _)).
  set (b := fst (shl_align mq _ _)).
  change (Zpos a + Zpos b) with (Zpos (a + b)).
  unfold binary_normalize, binary_round.
  destruct (shl_align (a + b) _ _).
  apply not_negative_round.
Qed.

End FloatRounding.

(** ** Compound interest *)

Section CompoundInterest.

(** X13.  What a call of [compound_interest] comes to.  The four checks
    run in the order principal, rate, time, compounds per year, and the
    first that fails gives its own [ValueError]; a positive
    [compounds_per_year] too large for a float makes the division raise
    [OverflowError], which is not caught; otherwise the result is that of
    the formula, its power taken on a base [1 + rate / n] that is never
    negative (so [**] gives a float, not a complex), and
    [total_interest] is [final_amount - principal]. *)
Theorem compound_interest_outcomes rt_pow principal rate time n :
  let r := compound_interest rt_pow principal rate time n in
  let zero := F64.of_Z 0 in
  (F64.leb principal zero = true ->
   r = Raise (Exn ValueError "Principal must be greater than 0"))
  /\ (F64.leb principal zero = false -> F64.ltb rate zero = true ->
      r = Raise (Exn ValueError "Interest rate cannot be negative"))
  /\ (F64.leb principal zero = false -> F64.ltb rate zero = false ->
      F64.leb time zero = true ->
      r = Raise (Exn ValueError "Time must be greater than 0"))
  /\ (F64.leb principal zero = false -> F64.ltb rate zero = false ->
      F64.leb time zero = false ->
      (n <= 0 ->
       r = Raise (Exn ValueError "Compounds per year must be greater than 0"))
      /\ (0 < n -> F64.is_inf (F64.of_Z n) = true ->
          r = Raise (Exn OverflowError "int too large to convert to float"))
      /\ (0 < n -> F64.is_inf (F64.of_Z n) = false ->
          let base := F64.add (F64.of_Z 1) (F64.div rate (F64.of_Z n)) in
          F64.ltb base zero = false
          /\ r = (power ← rt_pow base (F64.mul (F64.of_Z n) time);
                  Ok {| ci_principal := principal; ci_rate := rate;
                        ci_time := time; ci_compounds_per_year := n;
                        ci_final_amount := F64.mul principal power;
                        ci_total_interest :=
                          F64.sub (F64.mul principal power) principal |}))).
Proof.
  cbn zeta. unfold compound_interest.
  split; [by intros ->|]. split; [by intros -> ->|].
  split; [by intros -> -> ->|].
  intros -> Hrate ->. rewrite Hrate.
  split; [|split].
  - intros Hn. by destruct (Z.leb_spec n 0) as [_|?]; [|lia].
  - intros Hn Hinf. destruct (Z.leb_spec n 0) as [?|_]; [lia|].
    unfold float_of_int. by rewrite Hinf.
  - intros Hn Hinf. split; [by apply base_not_negative|].
    destruct (Z.leb_spec n 0) as [?|_]; [lia|].
    unfold float_of_int. by rewrite Hinf.
Qed.

(** X14.  At a rate of zero nothing is earned: for a finite principal
    above zero, a time that the check lets through and a positive
    [compounds_per_year] in the range of floats, the call returns with
    [final_amount] equal to the principal, bit for bit, and
    [total_interest] equal to [0.0].  ([1.0 ** y] is [1.0] for every
    [y].) *)
Theorem zero_rate_earns_nothing rt_pow principal rate time n :
  pow_conforms rt_pow ->
  F64.valid principal = true -> F64.is_finite principal = true ->
  F64.leb principal (F64.of_Z 0) = false ->
  F64.is_zero rate = true ->
  F64.leb time (F64.of_Z 0) = false ->
  0 < n -> F64.is_inf (F64.of_Z n) = false ->
  compound_interest rt_pow principal rate time n
  = Ok {| ci_principal := principal; ci_rate := rate; ci_time := time;
          ci_compounds_per_year := n;
          ci_final_amount := principal;
          ci_total_interest := F64.pos_zero |}.
Proof.
  intros Hpow Hvalid Hfin Hp Hrate Htime Hn Hinf.
  unfold compound_interest. rewrite Hp, Htime.
  destruct rate as [s| | |]; try discriminate Hrate.
  change (F64.ltb (S754_zero s) (F64.of_Z 0)) with false.
  destruct (Z.leb_spec n 0) as [?|_]; [lia|].
  unfold float_of_int. rewrite Hinf. cbn [mbind result_bind].
  destruct (of_Z_positive n Hn Hinf) as (m & e & ->).
  change (F64.div (S754_zero s) (S754_finite false m e))
    with (S754_zero (xorb s false)).
  change (F64.add (F64.of_Z 1) (S754_zero (xorb s false))) with (F64.of_Z 1).
  pose proof (Hpow (F64.of_Z 1) (F64.mul (S754_finite false m e) time)) as Hone.
  rewrite float_pow_one in Hone. rewrite Hone. cbn [mbind result_bind].
  by rewrite (mul_one_r principal Hvalid), (sub_diag principal Hfin).
Qed.

(** X15.  A principal that is not a number passes the check
    [principal <= 0] (the comparison is false): with the other arguments
    in order and a power that returns, the call succeeds, and
    [final_amount] and [total_interest] are NaN. *)
Theorem nan_principal_is_accepted rt_pow rate time n power :
  F64.ltb rate (F64.of_Z 0) = false ->
  F64.leb time (F64.of_Z 0) = false ->
  0 < n -> F64.is_inf (F64.of_Z n) = false ->
  rt_pow (F64.add (F64.of_Z 1) (F64.div rate (F64.of_Z n)))
         (F64.mul (F64.of_Z n) time) = Ok power ->
  compound_interest rt_pow F64.nan rate time n
  = Ok {| ci_principal := F64.nan; ci_rate := rate; ci_time := time;
          ci_compounds_per_year := n;
          ci_final_amount := F64.nan;
          ci_total_interest := F64.nan |}.
Proof.
  intros Hrate Htime Hn Hinf Hpow.
  unfold compound_interest.
  change (F64.leb F64.nan (F64.of_Z 0)) with false.
  rewrite Hrate, Htime.
  destruct (Z.leb_spec n 0) as [?|_]; [lia|].
  unfold float_of_int. rewrite Hinf. cbn [mbind result_bind].
  by rewrite Hpow.
Qed.

End CompoundInterest.

Lemma zero_rate_earns_nothing_witness :
  compound_interest reference_pow (F64.of_Z 1000) (F64.of_Z 0) (F64.of_Z 5) 12
  = Ok {| ci_principal := F64.of_Z 1000; ci_rate := F64.of_Z 0;
          ci_time := F64.of_Z 5; ci_compounds_per_year := 12;
          ci_final_amount := F64.of_Z 1000;
          ci_total_interest := F64.pos_zero |}.
Proof.
  apply (zero_rate_earns_nothing reference_pow (F64.of_Z 1000) (F64.of_Z 0)
           (F64.of_Z 5) 12);
    [apply reference_pow_conforms | vm_compute; reflexivity ..].
Defined.

Lemma nan_principal_is_accepted_witness :
  compound_interest reference_pow F64.nan (F64.of_Z 0) (F64.of_Z 5) 12
  = Ok {| ci_principal := F64.nan; ci_rate := F64.of_Z 0;
          ci_time := F64.of_Z 5; ci_compounds_per_year := 12;
          ci_final_amount := F64.nan;
          ci_total_interest := F64.nan |}.
Proof.
  apply (nan_principal_is_accepted reference_pow (F64.of_Z 0) (F64.of_Z 5) 12
           (F64.of_Z 1));
    vm_compute; reflexivity.
Defined.

Example test_compound_interest_validation :
  compound_interest reference_pow (F64.of_Z 0) (F64.of_decimal 5 (-2))
                    (F64.of_Z 5) 1
  = Raise (Exn ValueError "Principal must be greater than 0")
  /\ compound_interest reference_pow (F64.of_Z 1000) (F64.of_decimal (-1) (-2))
                       (F64.of_Z 5) 1
     = Raise (Exn ValueError "Interest rate cannot be negative")
  /\ compound_interest reference_pow (F64.of_Z 1000) (F64.of_Z 0)
                       (F64.of_Z 5) (2 ^ 1024)
     = Raise (Exn OverflowError "int too large to convert to float").
Proof. repeat split; vm_compute; reflexivity. Qed.

(** ** Constants, prompts, transport *)

Section Constants.

Definition constant_names : list string :=
  ["pi"; "e"; "golden_ratio"; "euler_gamma"; "sqrt2"; "sqrt3"].

(** X16.  The constants resource never fails.  A name other than the six
    of the table, spelled exactly so, gets the reply "Unknown constant
    '<name>'. Available constants: pi, e, golden_ratio, euler_gamma,
    sqrt2, sqrt3"; each of the six gets its name, the value as [str]
    prints it, and its description. *)
Theorem unknown_constant_is_reported rt constant :
  (~ In constant constant_names ->
   get_math_constant rt constant
   = "Unknown constant '" ++ constant
     ++ "'. Available constants: pi, e, golden_ratio, euler_gamma, sqrt2, sqrt3")
  /\ (In constant constant_names ->
      exists value description,
        In (constant, (value, description)) constants
        /\ get_math_constant rt constant
           = constant ++ ": " ++ rt_float_str rt value ++ nl
             ++ "Description: " ++ description).
Proof.
  split.
  - intros Hno. unfold get_math_constant, constants. cbn [dict_get].
    repeat match goal with
    | |- context [String.eqb constant ?k] =>
        destruct (String.eqb_spec constant k) as [->|_];
          [exfalso; apply Hno; cbn; tauto|]
    end.
    reflexivity.
  - intros Hin. cbn in Hin.
    repeat (destruct Hin as [<- | Hin];
            [do 2 eexists; split; [|reflexivity]; cbn; tauto|]).
    destruct Hin.
Qed.

End Constants.

Section Prompts.

Lemma startswith_append p s : startswith p (p ++ s) = true.
Proof.
  induction p as [|c p IH]; [by destruct s|].
  change (Ascii.eqb c c && startswith p (p ++ s) = true).
  by rewrite Ascii.eqb_refl, IH.
Qed.

Lemma contains_startswith p s : startswith p s = true -> contains p s = true.
Proof. intros Hs. destruct s; cbn [contains]; by rewrite Hs. Qed.

Lemma contains_append_r p a s :
  contains p s = true -> contains p (a ++ s) = true.
Proof.
  intros Hs. induction a as [|c a IH]; [exact Hs|].
  change (contains p (String c (a ++ s)) = true).
  cbn [contains]. rewrite IH. apply orb_true_r.
Qed.

(** A text occurs in whatever is built around it. *)
Lemma contains_infix p a b : contains p (a ++ p ++ b) = true.
Proof. apply contains_append_r, contains_startswith, startswith_append. Qed.

(** X17.  The prompts carry their arguments as given: the topic and the
    level occur in the text of [math_tutor], the formula and the context
    in that of [formula_explainer], whatever these strings are; and
    [include_examples] adds one line of 58 characters to [math_tutor],
    the one on worked examples. *)
Theorem prompts_embed_their_arguments
    topic level include_examples formula context :
  contains topic (math_tutor topic level include_examples) = true
  /\ contains level (math_tutor topic level include_examples) = true
  /\ contains formula (formula_explainer formula context) = true
  /\ contains context (formula_explainer formula context) = true
  /\ String.length (math_tutor topic level true)
     = (String.length (math_tutor topic level false) + 58)%nat.
Proof.
  split; [|split; [|split; [|split]]].
  1-2: unfold math_tutor; destruct include_examples; rewrite !append_assoc.
  3-4: unfold formula_explainer.
  1-6: repeat first [apply contains_infix | apply contains_append_r].
  unfold math_tutor. rewrite !length_append. cbn [String.length nl]. lia.
Qed.

End Prompts.

Section Transport.

Definition supported_transports : list string :=
  ["stdio"; "sse"; "streamable-http"].

(** X18.  [main] runs the server on a supported transport, whatever the
    command line: the first argument when it is exactly "stdio", "sse" or
    "streamable-http", and "stdio" when there is no argument or another
    one; further arguments are not read. *)
Theorem main_runs_a_supported_transport argv :
  In (main argv) supported_transports
  /\ (forall prog arg rest,
        argv = prog :: arg :: rest ->
        main argv
        = if bool_decide (In arg supported_transports) then arg else "stdio")
  /\ ((length argv <= 1)%nat -> main argv = "stdio").
Proof.
  split; [|split].
  - unfold main. destruct argv as [|prog [|arg rest]]; [by left..|].
    destruct (existsb _ _) eqn:Hin; [|by left].
    apply existsb_exists in Hin as (t & Ht & Heq).
    apply String.eqb_eq in Heq. by subst.
  - intros prog arg rest ->. unfold main.
    destruct (existsb _ _) eqn:Hin.
    + apply existsb_exists in Hin as (t & Ht & Heq).
      apply String.eqb_eq in Heq. subst. by rewrite bool_decide_eq_true_2.
    + rewrite bool_decide_eq_false_2; [reflexivity|].
      intros Harg. apply not_true_iff_false in Hin. apply Hin.
      apply existsb_exists. exists arg. split; [exact Harg|].
      apply String.eqb_refl.
  - intros Hlen. destruct argv as [|prog [|arg rest]]; [reflexivity..|].
    cbn in Hlen. lia.
Qed.

End Transport.
